(** * zspotify: the authenticated-retrieval pipeline of [respot.py]

    A shallow embedding of the classes [RespotAuth], [RespotRequest],
    [RespotTrackHandler] and [RespotUtils] of [src/zspotify/respot.py].

    Python objects become records, attribute assignments become updates of
    the one program [state], and every call that leaves the module
    (librespot, requests, pathlib, pydub, time) is answered by an oracle of
    the [environment].  Exceptions are values of [exn]; a computation is a
    function from the state to an [outcome] and the state it leaves behind,
    so that what a raising call did before it raised is kept. *)

From Stdlib Require Import ZArith String Ascii List Lia Bool.
From stdpp Require Import base gmap sets list strings pretty.

Local Open Scope string_scope.
Local Open Scope list_scope.
Local Open Scope Z_scope.

(** ** Exceptions *)

(** The exception classes [respot.py] tells apart, directly or through an
    [except] clause.  [FileNotFoundError (Some msg)] is the exception the
    module makes with a message, [FileNotFoundError None] the one the
    operating system raises; [OSError] is an error of the operating system
    that has no class of its own, by the name of its errno.
    [OtherException] stands for any other subclass of [Exception], and
    [BaseException] for a class that is not a subclass of [Exception], such
    as [KeyboardInterrupt] or [SystemExit]. *)
Inductive exn : Type :=
| RuntimeError (msg : string)
| RequestsConnectionError
| StatusCodeException
| FileNotFoundError (msg : option string)
| FileExistsError
| NotADirectoryError
| IsADirectoryError
| OSError (errno : string)
| KeyError (key : string)
| IndexError
| TypeError
| ValueError
| AttributeError
| OtherException (class_name : string)
| BaseException (class_name : string).

(** [except RuntimeError] *)
Definition is_RuntimeError (e : exn) : bool :=
  match e with RuntimeError _ => true | _ => false end.

(** [except requests.exceptions.ConnectionError] *)
Definition is_ConnectionError (e : exn) : bool :=
  match e with RequestsConnectionError => true | _ => false end.

(** [isinstance(e, ApiClient.StatusCodeException)] *)
Definition is_StatusCodeException (e : exn) : bool :=
  match e with StatusCodeException => true | _ => false end.

(** [except Exception]: every class but those outside [Exception]. *)
Definition is_Exception (e : exn) : bool :=
  match e with
  | BaseException _ => false
  | _ => true
  end.

(** What a call out of the module, or a pure helper, yields: a value or an
    exception. *)
Inductive result (A : Type) : Type :=
| Returns (a : A)
| Raises (e : exn).
Arguments Returns {A} a.
Arguments Raises {A} e.

(** What a call of the module yields: a value, an exception, or nothing
    because the model ran out of fuel (only loops and recursions can). *)
Inductive outcome (A : Type) : Type :=
| Ok (a : A)
| Raise (e : exn)
| OutOfFuel.
Arguments Ok {A} a.
Arguments Raise {A} e.
Arguments OutOfFuel {A}.

(** ** JSON values, as [json.loads] and [Response.json()] return them *)

#[warnings="-register-all"]
Inductive json : Type :=
| JNull
| JBool (b : bool)
| JNum (n : Z)
| JStr (s : string)
| JArr (items : list json)
| JObj (members : list (string * json)).

(** ** Paths and the file system *)

(** A path is the list of its components; [[]] is the working directory. *)
Definition path : Type := list string.

(** [Path.parent] *)
Definition parent (p : path) : path := take (length p - 1)%nat p.

(** The path itself and every ancestor below the working directory. *)
Definition lineage (p : path) : list path :=
  map (fun n => take n p) (seq 1 (length p)).

Record filesystem : Type := mkFs {
  dirs : gset path;
  files : gset path
}.

(** [Path.is_dir()], [Path.is_file()], [Path.exists()] *)
Definition is_dir (fs : filesystem) (p : path) : bool :=
  bool_decide (p = []) || bool_decide (p ∈ dirs fs).
Definition is_file (fs : filesystem) (p : path) : bool :=
  bool_decide (p ∈ files fs).
Definition path_exists (fs : filesystem) (p : path) : bool :=
  is_dir fs p || is_file fs p.

(** [Path.mkdir(parents=True, exist_ok=True)]: nothing to do for a
    directory; refused when the path or an ancestor is a file; otherwise the
    path and its missing ancestors become directories. *)
Definition mkdir_parents (fs : filesystem) (p : path) : result filesystem :=
  if is_dir fs p then Returns fs
  else if is_file fs p then Raises FileExistsError
  else if existsb (is_file fs) (lineage p) then Raises NotADirectoryError
  else Returns (mkFs (dirs fs ∪ list_to_set (lineage p)) (files fs)).

(** [p] is [d] or lies below it. *)
Definition inside (d p : path) : bool := bool_decide (d `prefix_of` p).

(** Something lies below the directory [d]. *)
Definition occupied (fs : filesystem) (d : path) : bool :=
  bool_decide (set_Exists (fun p => p <> d /\ d `prefix_of` p) (dirs fs ∪ files fs)).

(** Where a path is after the tree at [src] has been moved to [dst]. *)
Definition moved (src dst p : path) : path :=
  if inside src p then dst ++ drop (length src) p else p.

Definition move_tree (src dst : path) (paths : gset path) : gset path :=
  set_map (moved src dst) paths.

(** [Path.rename(target)], which is [rename(2)]; the errors are those of
    Linux, in its order.  Both parents are looked up first; the working
    directory cannot be renamed; the source must exist; a path renamed to
    itself stays; a directory does not go below itself, and nothing
    replaces a directory it lies in.  A file replaces a file, and is
    refused by a directory; a directory, with all that lies below it,
    replaces an empty directory, and is refused by a file. *)
Definition rename_file (fs : filesystem) (src dst : path) : result filesystem :=
  if negb (is_dir fs (parent src))
  then Raises (if is_file fs (parent src) then NotADirectoryError
               else FileNotFoundError None)
  else if negb (is_dir fs (parent dst))
  then Raises (if is_file fs (parent dst) then NotADirectoryError
               else FileNotFoundError None)
  else if bool_decide (src = []) || bool_decide (dst = []) then Raises (OSError "EBUSY")
  else if negb (path_exists fs src) then Raises (FileNotFoundError None)
  else if bool_decide (src = dst) then Returns fs
  else if is_dir fs src && inside src dst then Raises (OSError "EINVAL")
  else if inside dst src then Raises (OSError "ENOTEMPTY")
  else if is_file fs src
  then
    if is_dir fs dst then Raises IsADirectoryError
    else Returns (mkFs (dirs fs) ((files fs ∖ {[src]}) ∪ {[dst]}))
  else
    if is_file fs dst then Raises NotADirectoryError
    else if occupied fs dst then Raises (OSError "ENOTEMPTY")
    else Returns (mkFs (move_tree src dst (dirs fs)) (move_tree src dst (files fs))).

(** [Path.unlink()]: a file is removed, a directory is refused (on Linux
    with [IsADirectoryError]), and so is a path that does not exist. *)
Definition unlink_file (fs : filesystem) (p : path) : result filesystem :=
  if is_dir fs p then Raises IsADirectoryError
  else if is_file fs p then Returns (mkFs (dirs fs) (files fs ∖ {[p]}))
  else Raises (FileNotFoundError None).

Arguments rename_file : simpl never.
Arguments unlink_file : simpl never.

(** ** librespot: qualities, streams, sessions *)

Inductive AudioQuality : Type := NORMAL | HIGH | VERY_HIGH.

Definition AudioQuality_eqb (a b : AudioQuality) : bool :=
  match a, b with
  | NORMAL, NORMAL | HIGH, HIGH | VERY_HIGH, VERY_HIGH => true
  | _, _ => false
  end.

Definition bytes : Type := list Byte.byte.

(** [len(data)] *)
Definition len {A} (l : list A) : Z := Z.of_nat (length l).

(** What the next [read] of a stream does: deliver at most [cap] bytes, or
    raise.  Reads past the end of the script are not capped. *)
Inductive read_event : Type :=
| Deliver (cap : Z)
| ReadError (e : exn).

(** The chunk source behind [stream.input_stream.stream()]: the bytes not
    yet handed out and the script of the coming reads. *)
Record reader : Type := mkReader {
  pending : bytes;
  script : list read_event
}.

(** [read(n)]: a prefix of at most [n] of the pending bytes. *)
Definition read (r : reader) (n : Z) : result bytes * reader :=
  match script r with
  | ReadError e :: s => (Raises e, mkReader (pending r) s)
  | Deliver cap :: s =>
      let k := Z.to_nat (Z.min n cap) in
      (Returns (take k (pending r)), mkReader (drop k (pending r)) s)
  | [] =>
      let k := Z.to_nat n in
      (Returns (take k (pending r)), mkReader (drop k (pending r)) [])
  end.

(** The object [content_feeder().load(...)] returns, reduced to
    [input_stream.size] and the chunk source. *)
Record LoadedStream : Type := mkStream {
  size : Z;
  source : reader
}.

Inductive PlayableId : Type :=
| TrackId (hex : string)
| EpisodeId (hex : string).

(** A librespot [Session], reduced to the three things the module asks of
    it. *)
Record Session : Type := mkSession {
  get_user_attribute : string -> option string;
  tokens_get : string -> result string;
  content_feeder_load : PlayableId -> option AudioQuality -> result LoadedStream
}.

(** How a [Session.Builder] was told to log in. *)
Inductive login_method : Type :=
| user_pass (username password : string)
| stored_file (stored_credentials : path).

(** ** requests *)

Record http_request : Type := mkRequest {
  url : string;
  authorization : string;
  kwargs : list (string * json)
}.

(** A response: its status and the JSON its text parses to ([None] when the
    text is not JSON). *)
Record Response : Type := mkResponse {
  status_code : Z;
  parsed : option json
}.

(** ** The environment *)

(** The answers of everything outside the module.  The [nat] argument of an
    oracle is the number of earlier calls of the same kind, so an answer may
    depend on the history as well as on the arguments. *)
Record environment : Type := mkEnv {
  (** [Session.Builder()...create()]: the session or the exception, and
      whether librespot left its own [credentials.json] in the working
      directory *)
  create_session : nat -> login_method -> result Session * bool;
  (** [requests.get] *)
  requests_get : nat -> http_request -> result Response;
  (** [TrackId.from_base62], [EpisodeId.from_base62] *)
  from_base62 : string -> result string;
  (** [AudioSegment.from_file(audio).export(path, format, bitrate)] *)
  export_audio : bytes -> path -> string -> string -> result unit;
  (** [str(e)] for an exception whose text the interpreter, the operating
      system or a library composes *)
  exception_str : exn -> string
}.

(** [str(e)], as [print(e)] shows it: the message, for an exception that
    was made with a message alone. *)
Definition exn_str (E : environment) (e : exn) : string :=
  match e with
  | RuntimeError m => m
  | FileNotFoundError (Some m) => m
  | _ => exception_str E e
  end.

(** ** Program state *)

(** class [RespotAuth] *)
Record RespotAuth : Type := mkAuth {
  credentials : path;
  force_premium : bool;
  session : option Session;
  token : option string;
  token_your_libary : option string;
  quality : option AudioQuality
}.

(** class [RespotRequest]; its [auth] attribute is a reference to the one
    [RespotAuth] object of the state. *)
Record RespotRequest : Type := mkReq {
  req_token : option string;
  req_token_your_libary : option string
}.

(** What [set_progress_bar] is called with: the progress dictionary or
    [False]. *)
Inductive progress_value : Type :=
| Progress (track_id : string) (total downloaded : Z)
| NoTransfer.

(** class [RespotTrackHandler]; its [auth] attribute is a reference to the
    one [RespotAuth] object of the state. *)
Record RespotTrackHandler : Type := mkHandler {
  format : string;
  anti_ban_wait_time : Z;
  handler_quality : option AudioQuality
}.

(** The local variables of the download loop. *)
Record loop_vars : Type := mkVars {
  downloaded : Z;
  chunk_size : Z;
  failCount : Z;
  segments : list bytes;
  input_stream : reader
}.

(** One call of the encoder. *)
Record export_call : Type := mkExport {
  exp_audio : bytes;
  exp_path : path;
  exp_format : string;
  exp_bitrate : string
}.

(** The objects of the program and the record of what it did to the
    outside. *)
Record state : Type := mkState {
  auth : RespotAuth;
  request : RespotRequest;
  progress_bar : progress_value;
  fs : filesystem;
  sessions_log : list login_method;
  http_log : list http_request;
  reads_log : list (Z * Z);
  observed : list progress_value;
  exports_log : list export_call;
  sleeps_log : list Z;
  console : list string
}.

Definition with_auth (a : RespotAuth) (s : state) : state :=
  mkState a (request s) (progress_bar s) (fs s) (sessions_log s) (http_log s)
          (reads_log s) (observed s) (exports_log s) (sleeps_log s) (console s).
Definition with_request (r : RespotRequest) (s : state) : state :=
  mkState (auth s) r (progress_bar s) (fs s) (sessions_log s) (http_log s)
          (reads_log s) (observed s) (exports_log s) (sleeps_log s) (console s).
Definition with_progress_bar (p : progress_value) (s : state) : state :=
  mkState (auth s) (request s) p (fs s) (sessions_log s) (http_log s)
          (reads_log s) (observed s) (exports_log s) (sleeps_log s) (console s).
Definition with_fs (f : filesystem) (s : state) : state :=
  mkState (auth s) (request s) (progress_bar s) f (sessions_log s) (http_log s)
          (reads_log s) (observed s) (exports_log s) (sleeps_log s) (console s).
Definition with_sessions_log (l : list login_method) (s : state) : state :=
  mkState (auth s) (request s) (progress_bar s) (fs s) l (http_log s)
          (reads_log s) (observed s) (exports_log s) (sleeps_log s) (console s).
Definition with_http_log (l : list http_request) (s : state) : state :=
  mkState (auth s) (request s) (progress_bar s) (fs s) (sessions_log s) l
          (reads_log s) (observed s) (exports_log s) (sleeps_log s) (console s).
Definition with_reads_log (l : list (Z * Z)) (s : state) : state :=
  mkState (auth s) (request s) (progress_bar s) (fs s) (sessions_log s) (http_log s)
          l (observed s) (exports_log s) (sleeps_log s) (console s).
Definition with_observed (l : list progress_value) (s : state) : state :=
  mkState (auth s) (request s) (progress_bar s) (fs s) (sessions_log s) (http_log s)
          (reads_log s) l (exports_log s) (sleeps_log s) (console s).
Definition with_exports_log (l : list export_call) (s : state) : state :=
  mkState (auth s) (request s) (progress_bar s) (fs s) (sessions_log s) (http_log s)
          (reads_log s) (observed s) l (sleeps_log s) (console s).
Definition with_sleeps_log (l : list Z) (s : state) : state :=
  mkState (auth s) (request s) (progress_bar s) (fs s) (sessions_log s) (http_log s)
          (reads_log s) (observed s) (exports_log s) l (console s).
Definition with_console (l : list string) (s : state) : state :=
  mkState (auth s) (request s) (progress_bar s) (fs s) (sessions_log s) (http_log s)
          (reads_log s) (observed s) (exports_log s) (sleeps_log s) l.

(** ** The monad of the program *)

Definition M (A : Type) : Type := state -> outcome A * state.

Definition ret {A} (a : A) : M A := fun s => (Ok a, s).
Definition raise {A} (e : exn) : M A := fun s => (Raise e, s).
Definition out_of_fuel {A} : M A := fun s => (OutOfFuel, s).
Definition bind {A B} (c : M A) (k : A -> M B) : M B :=
  fun s =>
    match c s with
    | (Ok a, s') => k a s'
    | (Raise e, s') => (Raise e, s')
    | (OutOfFuel, s') => (OutOfFuel, s')
    end.
Definition gets {A} (f : state -> A) : M A := fun s => (Ok (f s), s).
Definition modify (f : state -> state) : M unit := fun s => (Ok tt, f s).
Definition lift {A} (r : result A) : M A :=
  fun s => (match r with Returns a => Ok a | Raises e => Raise e end, s).

(** [try: c  except <classes>: h] *)
Definition try_except {A} (c : M A) (catches : exn -> bool) (h : exn -> M A) : M A :=
  fun s =>
    match c s with
    | (Raise e, s') => if catches e then h e s' else (Raise e, s')
    | r => r
    end.

Declare Scope prog_scope.
Delimit Scope prog_scope with prog.
Notation "'do' x <- c ;; k" := (bind c (fun x => k))
  (at level 10, x name, c at level 99, k at level 200) : prog_scope.
Notation "'run' c ;; k" := (bind c (fun _ => k))
  (at level 10, c at level 99, k at level 200) : prog_scope.
Local Open Scope prog_scope.

(** [print(...)] *)
Definition print (line : string) : M unit :=
  modify (fun s => with_console (console s ++ [line]) s).

(** ** Python operations on JSON values *)

(** Sequencing of calls that may raise, outside the state. *)
Definition rbind {A B} (r : result A) (k : A -> result B) : result B :=
  match r with
  | Returns a => k a
  | Raises e => Raises e
  end.

Notation "'try' x <- c ;; k" := (rbind c (fun x => k))
  (at level 10, x name, c at level 99, k at level 200) : prog_scope.

(** [for x in xs: ...] collecting what each pass appends. *)
Fixpoint for_each {A B} (f : A -> result (list B)) (xs : list A) : result (list B) :=
  match xs with
  | [] => Returns []
  | x :: rest =>
      try out <- f x ;;
      try outs <- for_each f rest ;;
      Returns (out ++ outs)
  end.

Fixpoint assoc (k : string) (members : list (string * json)) : option json :=
  match members with
  | [] => None
  | (k', v) :: rest => if String.eqb k k' then Some v else assoc k rest
  end.

(** [v[key]] for a string key *)
Definition getitem (v : json) (key : string) : result json :=
  match v with
  | JObj members =>
      match assoc key members with
      | Some x => Returns x
      | None => Raises (KeyError key)
      end
  | _ => Raises TypeError
  end.

(** A byte that goes on with the character begun before it, in UTF-8. *)
Definition is_continuation (c : ascii) : bool :=
  (128 <=? nat_of_ascii c)%nat && (nat_of_ascii c <? 192)%nat.

(** The characters of a string, as one-character strings: a string holds
    the UTF-8 bytes of the text, and a character is a byte with the
    continuation bytes after it. *)
Fixpoint chars (s : string) : list string :=
  match s with
  | EmptyString => []
  | String c rest =>
      match chars rest with
      | first :: others =>
          if match rest with String d _ => is_continuation d | EmptyString => false end
          then String c first :: others
          else String c EmptyString :: first :: others
      | [] => [String c EmptyString]
      end
  end.

(** [l[i]] on a Python sequence, negative indices counting from the end. *)
Definition index_list {A} (l : list A) (i : Z) : result A :=
  let j := if (i <? 0)%Z then i + len l else i in
  if (j <? 0)%Z then Raises IndexError
  else match nth_error l (Z.to_nat j) with
       | Some x => Returns x
       | None => Raises IndexError
       end.

(** [v[i]] for an integer index *)
Definition getindex (v : json) (i : Z) : result json :=
  match v with
  | JArr items => index_list items i
  | JStr s => index_list (map JStr (chars s)) i
  | JObj _ => Raises (KeyError "<int>")
  | _ => Raises TypeError
  end.

(** [for x in v] *)
Definition iterate (v : json) : result (list json) :=
  match v with
  | JArr items => Returns items
  | JObj members => Returns (map (fun kv => JStr (fst kv)) members)
  | JStr s => Returns (map JStr (chars s))
  | _ => Raises TypeError
  end.

(** [len(v)] *)
Definition json_len (v : json) : result Z :=
  match v with
  | JArr items => Returns (len items)
  | JObj members => Returns (len members)
  | JStr s => Returns (len (chars s))
  | _ => Raises TypeError
  end.

(** The truth value of a JSON value. *)
Definition json_truthy (v : json) : bool :=
  match v with
  | JNull => false
  | JBool b => b
  | JNum n => negb (n =? 0)%Z
  | JStr s => negb (String.eqb s "")
  | JArr items => match items with [] => false | _ => true end
  | JObj members => match members with [] => false | _ => true end
  end.

(** A number, when the value is one ([True] is 1, [False] is 0). *)
Definition as_number (v : json) : option Z :=
  match v with
  | JNum n => Some n
  | JBool b => Some (if b then 1 else 0)
  | _ => None
  end.

(** [a + b] *)
Definition py_add (a b : json) : result json :=
  match as_number a, as_number b with
  | Some x, Some y => Returns (JNum (x + y))
  | _, _ =>
      match a, b with
      | JStr x, JStr y => Returns (JStr (x +:+ y))
      | JArr x, JArr y => Returns (JArr (x ++ y))
      | _, _ => Raises TypeError
      end
  end.

(** [a == b] *)
Fixpoint py_eq (a b : json) {struct a} : bool :=
  match as_number a, as_number b with
  | Some x, Some y => (x =? y)%Z
  | _, _ =>
      match a, b with
      | JNull, JNull => true
      | JStr x, JStr y => String.eqb x y
      | JArr xs, JArr ys =>
          (fix all2 (xs ys : list json) {struct xs} : bool :=
             match xs, ys with
             | [], [] => true
             | x :: xs', y :: ys' => py_eq x y && all2 xs' ys'
             | _, _ => false
             end) xs ys
      | JObj xs, JObj ys =>
          (length xs =? length ys)%nat &&
          (fix inside (xs : list (string * json)) {struct xs} : bool :=
             match xs with
             | [] => true
             | (k, x) :: xs' =>
                 match assoc k ys with
                 | Some y => py_eq x y && inside xs'
                 | None => false
                 end
             end) xs
      | _, _ => false
      end
  end.

(** [x < y] on strings, by code unit. *)
Fixpoint string_ltb (x y : string) : bool :=
  match x, y with
  | _, EmptyString => false
  | EmptyString, String _ _ => true
  | String a x', String b y' =>
      if (nat_of_ascii a <? nat_of_ascii b)%nat then true
      else if (nat_of_ascii b <? nat_of_ascii a)%nat then false
      else string_ltb x' y'
  end.

(** [a > b] *)
Fixpoint py_gt (a b : json) {struct a} : result bool :=
  match as_number a, as_number b with
  | Some x, Some y => Returns (y <? x)%Z
  | _, _ =>
      match a, b with
      | JStr x, JStr y => Returns (string_ltb y x)
      | JArr xs, JArr ys =>
          (fix lex (xs ys : list json) {struct xs} : result bool :=
             match xs, ys with
             | [], _ => Returns false
             | _ :: _, [] => Returns true
             | x :: xs', y :: ys' => if py_eq x y then lex xs' ys' else py_gt x y
             end) xs ys
      | _, _ => Raises TypeError
      end
  end.

(** [l.index(max(l))] for a list that is not empty: the position of the
    first greatest element. *)
Fixpoint index_of_max (best : json) (at_ : Z) (next : Z) (rest : list json) : result Z :=
  match rest with
  | [] => Returns at_
  | x :: rest' =>
      try bigger <- py_gt x best ;;
      if bigger : bool
      then index_of_max x next (next + 1) rest'
      else index_of_max best at_ (next + 1) rest'
  end.

(** ** class RespotUtils *)

Definition quote_char : ascii := ascii_of_nat 34.
Definition backslash_char : ascii := ascii_of_nat 92.

(** The characters [sanitize_data] deletes. *)
Definition SANITIZE_DELETED : list ascii :=
  [backslash_char; "/"%char; ":"%char; "*"%char; "?"%char; "'"%char;
   "<"%char; ">"%char; quote_char].

(** [sanitize_data] on a string: each of its replacements acts on single
    characters, so they amount to one pass. *)
Fixpoint sanitize_string (value : string) : string :=
  match value with
  | EmptyString => EmptyString
  | String c rest =>
      if existsb (Ascii.eqb c) SANITIZE_DELETED then sanitize_string rest
      else if Ascii.eqb c "|"%char then String "-"%char (sanitize_string rest)
      else String c (sanitize_string rest)
  end.

(** [RespotUtils.sanitize_data(value)]: [value.replace] exists for strings
    only. *)
Definition sanitize_data (value : json) : result string :=
  match value with
  | JStr s => Returns (sanitize_string s)
  | _ => Raises AttributeError
  end.

(** [RespotUtils.conv_artist_format(artists)] *)
Definition conv_artist_format (artists : json) : result string :=
  try items <- iterate artists ;;
  try names <- for_each (fun a => match a with
                                  | JStr s => Returns [s]
                                  | _ => Raises TypeError
                                  end) items ;;
  Returns (String.concat ", " names).

(** [value.split("-")[0]] on a string *)
Fixpoint before_dash (s : string) : string :=
  match s with
  | EmptyString => EmptyString
  | String c rest => if Ascii.eqb c "-"%char then EmptyString else String c (before_dash rest)
  end.

Definition split_dash_first (value : json) : result string :=
  match value with
  | JStr s => Returns (before_dash s)
  | _ => Raises AttributeError
  end.

Definition is_digit (c : ascii) : bool :=
  (48 <=? nat_of_ascii c)%nat && (nat_of_ascii c <=? 57)%nat.

(** [re.search("(\d{4})", s)]: the first four digits in a row.  The
    digits are those of ASCII, so the definition is the search of the
    source on ASCII text; on a [str] pattern Python's [\d] also matches the
    decimal digits of other scripts, which are left out here. *)
Fixpoint search_year (s : string) : option string :=
  match s with
  | String a (String b (String c (String d _) as r3) as r2) as r1 =>
      if is_digit a && is_digit b && is_digit c && is_digit d
      then Some (String a (String b (String c (String d EmptyString))))
      else match s with String _ rest => search_year rest | EmptyString => None end
  | _ => None
  end.

(** [str(v)] as [print] shows a scalar; containers are not rendered. *)
Definition json_str (v : json) : string :=
  match v with
  | JNull => "None"
  | JBool true => "True"
  | JBool false => "False"
  | JNum n => pretty n
  | JStr s => s
  | JArr _ => "[...]"
  | JObj _ => "{...}"
  end.

(** ** The dictionaries [RespotRequest] builds *)

(** [Response.json()] and [json.loads(response.text)] *)
Definition json_of (r : Response) : result json :=
  match parsed r with
  | Some j => Returns j
  | None => Raises ValueError
  end.

(** The entry [get_playlist_songs] appends for an item, if any. *)
Definition playlist_song (song : json) : result (list json) :=
  try track <- getitem song "track" ;;
  match track with
  | JNull => Returns []
  | _ =>
      try id <- getitem track "id" ;;
      try name <- getitem track "name" ;;
      try artists <- getitem track "artists" ;;
      try first <- getindex artists 0 ;;
      try artist <- getitem first "name" ;;
      Returns [JObj [("id", id); ("name", name); ("artist", artist)]]
  end.

(** The entry [get_album_songs] appends for an item. *)
Definition album_song (song : json) : result (list json) :=
  try id <- getitem song "id" ;;
  try name <- getitem song "name" ;;
  try number <- getitem song "track_number" ;;
  try disc_number <- getitem song "disc_number" ;;
  Returns [JObj [("id", id); ("name", name); ("number", number);
                 ("disc_number", disc_number)]].

(** The entry [get_liked_tracks] appends for an item. *)
Definition liked_track (song : json) : result (list json) :=
  try track <- getitem song "track" ;;
  try id <- getitem track "id" ;;
  try name <- getitem track "name" ;;
  try artists <- getitem track "artists" ;;
  try first <- getindex artists 0 ;;
  try artist <- getitem first "name" ;;
  Returns [JObj [("id", id); ("name", name); ("artist", artist)]].

(** The entry [get_show_episodes] appends for an item. *)
Definition show_episode (episode : json) : result (list json) :=
  try id <- getitem episode "id" ;;
  try name <- getitem episode "name" ;;
  try release_date <- getitem episode "release_date" ;;
  Returns [JObj [("id", id); ("name", name); ("release_date", release_date)]].

(** [get_all_user_playlists] extends its list with the items as they are. *)
Definition playlist_item (item : json) : result (list json) := Returns [item].

(** The release date as [re.search("(\d{4})", date)] shortens it: [re.search]
    takes strings only. *)
Definition release_year_or_date (date : json) : result json :=
  match date with
  | JStr d =>
      match search_year d with
      | Some year => Returns (JStr year)
      | None => Returns date
      end
  | _ => Raises TypeError
  end.

(** The line the loop of [get_artist_albums] prints for an album, and the
    entry it then builds. *)
Definition artist_album_line (album : json) : result string :=
  try date <- getitem album "release_date" ;;
  try release_date <- release_year_or_date date ;;
  try name <- getitem album "name" ;;
  Returns (" # " +:+ json_str name).

Definition artist_album_entry (album : json) : result json :=
  try id <- getitem album "id" ;;
  try name <- getitem album "name" ;;
  try date <- getitem album "release_date" ;;
  try release_date <- release_year_or_date date ;;
  try total_tracks <- getitem album "total_tracks" ;;
  Returns (JObj [("id", id); ("name", name); ("release_date", release_date);
                 ("total_tracks", total_tracks)]).

(** [sum_px['height'] + sum_px['width']] for every image. *)
Definition image_sizes (images : json) : result (list json) :=
  try items <- iterate images ;;
  for_each (fun sum_px =>
              try height <- getitem sum_px "height" ;;
              try width <- getitem sum_px "width" ;;
              try total <- py_add height width ;;
              Returns [total]) items.

(** [sum_total.index(max(sum_total)) if sum_total else -1] *)
Definition largest_image (sum_total : list json) : result Z :=
  match sum_total with
  | [] => Returns (-1)
  | first :: rest => index_of_max first 0 1 rest
  end.

(** [images[img_index]["url"] if img_index >= 0 else None] *)
Definition image_url_at (images : json) (img_index : Z) : result json :=
  if (0 <=? img_index)%Z
  then try image <- getindex images img_index ;; getitem image "url"
  else Returns JNull.

(** The names of the artists, sanitized. *)
Definition sanitized_names (artists : json) : result (list json) :=
  try items <- iterate artists ;;
  for_each (fun data =>
              try name <- getitem data "name" ;;
              try clean <- sanitize_data name ;;
              Returns [JStr clean]) items.

(** The body of [get_track_info] after the request. *)
Definition track_info (track_id : string) (info : json) : result json :=
  try tracks <- getitem info "tracks" ;;
  try track <- getindex tracks 0 ;;
  try album <- getitem track "album" ;;
  try images <- getitem album "images" ;;
  try sum_total <- image_sizes images ;;
  try img_index <- largest_image sum_total ;;
  try track_artists <- getitem track "artists" ;;
  try first_artist <- getindex track_artists 0 ;;
  try artist_id <- getitem first_artist "id" ;;
  try artists <- sanitized_names track_artists ;;
  try album_artists <- getitem album "artists" ;;
  try first_album_artist <- getindex album_artists 0 ;;
  try album_artist_name <- getitem first_album_artist "name" ;;
  try album_artist <- sanitize_data album_artist_name ;;
  try album_name_raw <- getitem album "name" ;;
  try album_name <- sanitize_data album_name_raw ;;
  try song_name_raw <- getitem track "name" ;;
  try song_name <- sanitize_data song_name_raw ;;
  try image_url <- image_url_at images img_index ;;
  try release_date <- getitem album "release_date" ;;
  try release_year <- split_dash_first release_date ;;
  try disc_number <- getitem track "disc_number" ;;
  try track_number <- getitem track "track_number" ;;
  try scraped_song_id <- getitem track "id" ;;
  try is_playable <- getitem track "is_playable" ;;
  try artist_name <- conv_artist_format (JArr artists) ;;
  Returns (JObj [("id", JStr track_id);
                 ("artist_id", artist_id);
                 ("artist_name", JStr artist_name);
                 ("album_artist", JStr album_artist);
                 ("album_name", JStr album_name);
                 ("audio_name", JStr song_name);
                 ("image_url", image_url);
                 ("release_year", JStr release_year);
                 ("disc_number", disc_number);
                 ("audio_number", track_number);
                 ("scraped_song_id", scraped_song_id);
                 ("is_playable", is_playable);
                 ("release_date", release_date)]).

(** The body of [get_episode_info] after the [if not info] test. *)
Definition episode_info (episode_id_str : string) (info : json) : result json :=
  try images <- getitem info "images" ;;
  try sum_total <- image_sizes images ;;
  try img_index <- largest_image sum_total ;;
  try show <- getitem info "show" ;;
  try show_id <- getitem show "id" ;;
  try show_publisher <- getitem show "publisher" ;;
  try show_name_raw <- getitem show "name" ;;
  try show_name <- sanitize_data show_name_raw ;;
  try episode_name_raw <- getitem info "name" ;;
  try episode_name <- sanitize_data episode_name_raw ;;
  try image_url <- image_url_at images img_index ;;
  try release_date <- getitem info "release_date" ;;
  try release_year <- split_dash_first release_date ;;
  try is_playable <- getitem info "is_playable" ;;
  Returns (JObj [("id", JStr episode_id_str);
                 ("artist_id", show_id);
                 ("artist_name", show_publisher);
                 ("show_name", JStr show_name);
                 ("audio_name", JStr episode_name);
                 ("image_url", image_url);
                 ("release_year", JStr release_year);
                 ("disc_number", JNull);
                 ("audio_number", JNull);
                 ("scraped_episode_id", JArr [JStr "id"]);
                 ("is_playable", is_playable);
                 ("release_date", release_date)]).

(** The body of [get_album_info] after the request. *)
Definition album_info (resp : json) : result json :=
  try resp_artists <- getitem resp "artists" ;;
  try artists <- sanitized_names resp_artists ;;
  try date <- getitem resp "release_date" ;;
  try release_date <- release_year_or_date date ;;
  try artist_names <- conv_artist_format (JArr artists) ;;
  try name <- getitem resp "name" ;;
  try total_tracks <- getitem resp "total_tracks" ;;
  Returns (JObj [("artists", JStr artist_names);
                 ("name", name);
                 ("total_tracks", total_tracks);
                 ("release_date", release_date)]).

(** The body of [get_artist_info] after the request. *)
Definition artist_info (info : json) : result json :=
  try name_raw <- getitem info "name" ;;
  try name <- sanitize_data name_raw ;;
  try genres_raw <- getitem info "genres" ;;
  try genres <- conv_artist_format genres_raw ;;
  Returns (JObj [("name", JStr name); ("genres", JStr genres)]).

(** The body of [get_show_info] after the request. *)
Definition show_info (resp : json) : result json :=
  try name_raw <- getitem resp "name" ;;
  try name <- sanitize_data name_raw ;;
  try publisher <- getitem resp "publisher" ;;
  try id <- getitem resp "id" ;;
  try total_episodes <- getitem resp "total_episodes" ;;
  Returns (JObj [("name", JStr name); ("publisher", publisher); ("id", id);
                 ("total_episodes", total_episodes)]).

(** ** class RespotAuth *)

Section Program.

Variable E : environment.

Definition set_session (x : option Session) (a : RespotAuth) : RespotAuth :=
  mkAuth (credentials a) (force_premium a) x (token a) (token_your_libary a) (quality a).
Definition set_token (x : option string) (a : RespotAuth) : RespotAuth :=
  mkAuth (credentials a) (force_premium a) (session a) x (token_your_libary a) (quality a).
Definition set_token_your_libary (x : option string) (a : RespotAuth) : RespotAuth :=
  mkAuth (credentials a) (force_premium a) (session a) (token a) x (quality a).
Definition set_quality (x : option AudioQuality) (a : RespotAuth) : RespotAuth :=
  mkAuth (credentials a) (force_premium a) (session a) (token a) (token_your_libary a) x.

(** [Path("credentials.json")] *)
Definition local_credentials : path := ["credentials.json"].

(** [Session.Builder().<method>.create()]: the call is recorded, librespot
    may leave its [credentials.json] behind, and the session or the
    exception comes back. *)
Definition Session_create (m : login_method) : M Session :=
  fun s =>
    let '(r, wrote) := create_session E (length (sessions_log s)) m in
    let s1 := with_sessions_log (sessions_log s ++ [m]) s in
    let s2 := if wrote
              then with_fs (mkFs (dirs (fs s1)) (files (fs s1) ∪ {[local_credentials]})) s1
              else s1 in
    lift r s2.

Definition _persist_credentials_file : M unit :=
  do s <- gets id ;;
  do f <- lift (rename_file (fs s) local_credentials (credentials (auth s))) ;;
  modify (with_fs f).

Definition _ensure_credentials_directory : M unit :=
  do s <- gets id ;;
  do f <- lift (mkdir_parents (fs s) (parent (credentials (auth s)))) ;;
  modify (with_fs f).

Definition _has_stored_credentials : M bool :=
  gets (fun s => is_file (fs s) (credentials (auth s))).

Definition refresh_token : M (option string * option string) :=
  do creds <- gets (fun s => credentials (auth s)) ;;
  do sess <- Session_create (stored_file creds) ;;
  run modify (fun s => with_auth (set_session (Some sess) (auth s)) s) ;;
  do present <- gets (fun s => path_exists (fs s) local_credentials) ;;
  run (if present : bool
       then
         do s <- gets id ;;
         do f <- lift (unlink_file (fs s) local_credentials) ;;
         modify (with_fs f)
       else ret tt) ;;
  do t <- lift (tokens_get sess "user-read-email") ;;
  run modify (fun s => with_auth (set_token (Some t) (auth s)) s) ;;
  do l <- lift (tokens_get sess "user-library-read") ;;
  run modify (fun s => with_auth (set_token_your_libary (Some l) (auth s)) s) ;;
  gets (fun s => (token (auth s), token_your_libary (auth s))).

(** The line feed that ends the two messages of [_check_premium]. *)
Definition line_feed : string := String (ascii_of_nat 10) EmptyString.

(** [... == "premium"] on what [get_user_attribute] returned. *)
Definition is_premium_type (o : option string) : bool :=
  match o with
  | Some t => String.eqb t "premium"
  | None => false
  end.

Definition _check_premium : M unit :=
  do a <- gets auth ;;
  match session a with
  | None => raise (RuntimeError "You must login first")
  | Some sess =>
      if is_premium_type (get_user_attribute sess "type") || force_premium a
      then
        run modify (fun s => with_auth (set_quality (Some VERY_HIGH) (auth s)) s) ;;
        print ("[ DETECTED PREMIUM ACCOUNT - USING VERY_HIGH QUALITY ]" +:+ line_feed)
      else
        run modify (fun s => with_auth (set_quality (Some HIGH) (auth s)) s) ;;
        print ("[ DETECTED FREE ACCOUNT - USING HIGH QUALITY ]" +:+ line_feed)
  end.

Definition _authenticate_with_stored_credentials : M bool :=
  try_except
    (run refresh_token ;; run _check_premium ;; ret true)
    is_RuntimeError
    (fun _ => ret false).

Definition _authenticate_with_user_pass (username password : string) : M bool :=
  try_except
    (do sess <- Session_create (user_pass username password) ;;
     run modify (fun s => with_auth (set_session (Some sess) (auth s)) s) ;;
     run _persist_credentials_file ;;
     run _check_premium ;;
     ret true)
    is_RuntimeError
    (fun _ => ret false).

(** The truth value of an optional string: [None] and the empty string are
    false. *)
Definition truthy (o : option string) : bool :=
  match o with
  | Some s => negb (String.eqb s "")
  | None => false
  end.

Definition login (username password : option string) : M bool :=
  run _ensure_credentials_directory ;;
  do stored <- _has_stored_credentials ;;
  if stored : bool then _authenticate_with_stored_credentials
  else
    match username, password with
    | Some u, Some p =>
        if truthy username && truthy password
        then _authenticate_with_user_pass u p
        else ret false
    | _, _ => ret false
    end.

(** [RespotAuth.__init__] *)
Definition RespotAuth_init (creds : path) (force : bool) : RespotAuth :=
  mkAuth creds force None None None None.

(** ** class RespotRequest *)

(** [RespotRequest.__init__] *)
Definition RespotRequest_init (a : RespotAuth) : RespotRequest :=
  mkReq (token a) (token_your_libary a).

(** [Respot.is_authenticated] *)
Definition is_authenticated (username password : option string) : M bool :=
  do ok <- login username password ;;
  if ok : bool
  then run modify (fun s => with_request (RespotRequest_init (auth s)) s) ;; ret true
  else ret false.

(** [f"Bearer {token_bearer}"] *)
Definition bearer (token_bearer : option string) : string :=
  "Bearer " +:+ match token_bearer with Some t => t | None => "None" end.

(** [requests.get(url, headers={"Authorization": ...}, **kwargs)] *)
Definition get (u : string) (header : string) (kw : list (string * json)) : M Response :=
  fun s =>
    let rq := mkRequest u header kw in
    lift (requests_get E (length (http_log s)) rq) (with_http_log (http_log s ++ [rq]) s).

Definition too_many_retries : exn := RuntimeError "Connection Error: Too many retries".

(** [authorized_get_request]; the recursion is on [retry_count], which the
    fuel bounds. *)
Fixpoint authorized_get_request_rec (fuel : nat) (u : string)
    (token_bearer : option string) (retry_count : Z) (kw : list (string * json))
    : M Response :=
  match fuel with
  | O => out_of_fuel
  | S fuel' =>
      if (3 <? retry_count)%Z then raise too_many_retries
      else
        do token_bearer <- match token_bearer with
                           | None => gets (fun s => req_token (request s))
                           | Some _ => ret token_bearer
                           end ;;
        try_except
          (do response <- get u (bearer token_bearer) kw ;;
           if (status_code response =? 401)%Z
           then
             run print "Token expired, refreshing..." ;;
             do tokens <- refresh_token ;;
             run modify (fun s => with_request (mkReq (fst tokens) (req_token_your_libary (request s))) s) ;;
             run modify (fun s => with_request (mkReq (req_token (request s)) (snd tokens)) s) ;;
             authorized_get_request_rec fuel' u token_bearer (retry_count + 1) kw
           else ret response)
          is_ConnectionError
          (fun _ => authorized_get_request_rec fuel' u token_bearer (retry_count + 1) kw)
  end.

(** Fuel for a call at [retry_count]: one level per value up to 4. *)
Definition retry_fuel (retry_count : Z) : nat := S (Z.to_nat (4 - retry_count)).

Definition authorized_get_request (u : string) (token_bearer : option string)
    (retry_count : Z) (kw : list (string * json)) : M Response :=
  authorized_get_request_rec (retry_fuel retry_count) u token_bearer retry_count kw.

(** The keyword arguments of a page request. *)
Definition page_params (limit offset : Z) (extra : list (string * json))
    : list (string * json) :=
  [("params", JObj (("limit", JNum limit) :: extra ++ [("offset", JNum offset)]))].

(** The [while True] loop of the listing methods: request the page at
    [offset], move [offset] on by [limit], append what [shape] makes of each
    item, and stop after a page of fewer than [limit] items.  [library]
    tells whether the request is made with [self.token_your_libary]. *)
Fixpoint paginate (fuel : nat) (u : string) (library : bool)
    (extra : list (string * json)) (limit : Z) (shape : json -> result (list json))
    (offset : Z) (acc : list json) : M (list json) :=
  match fuel with
  | O => out_of_fuel
  | S fuel' =>
      do tb <- gets (fun s => if library then req_token_your_libary (request s) else None) ;;
      do response <- authorized_get_request u tb 0 (page_params limit offset extra) ;;
      do resp <- lift (json_of response) ;;
      let offset := offset + limit in
      do shaped <- lift (try items <- getitem resp "items" ;;
                         try each <- iterate items ;;
                         for_each shape each) ;;
      let acc := acc ++ shaped in
      do n <- lift (try items <- getitem resp "items" ;; json_len items) ;;
      if (n <? limit)%Z then ret acc
      else paginate fuel' u library extra limit shape offset acc
  end.

(** The listing methods; [fuel] bounds the number of pages. *)
Definition get_all_user_playlists (fuel : nat) : M json :=
  do playlists <- paginate fuel "https://api.spotify.com/v1/me/playlists" false []
                    50 playlist_item 0 [] ;;
  ret (JObj [("playlists", JArr playlists)]).

Definition get_playlist_songs (fuel : nat) (playlist_id : string) : M (list json) :=
  paginate fuel ("https://api.spotify.com/v1/playlists/" +:+ playlist_id +:+ "/tracks")
    false [] 100 playlist_song 0 [].

Definition get_album_songs (fuel : nat) (album_id : string) : M (list json) :=
  paginate fuel ("https://api.spotify.com/v1/albums/" +:+ album_id +:+ "/tracks")
    false [("include_groups", JStr "album,compilation")] 50 album_song 0 [].

Definition get_liked_tracks (fuel : nat) : M (list json) :=
  paginate fuel "https://api.spotify.com/v1/me/tracks" true [] 50 liked_track 0 [].

Definition get_show_episodes (fuel : nat) (show_id_str : string) : M (list json) :=
  paginate fuel ("https://api.spotify.com/v1/shows/" +:+ show_id_str +:+ "/episodes")
    false [] 50 show_episode 0 [].

(** [get_artist_albums]: one request; the entries made of the albums are
    printed and dropped, and the items of the response are returned. *)
Definition get_artist_albums (artists_id : string) : M json :=
  let offset := 0 in
  let limit := 50 in
  do response <- authorized_get_request
                   ("https://api.spotify.com/v1/artists/" +:+ artists_id +:+ "/albums")
                   None 0
                   (page_params limit offset
                      [("include_groups", JStr "album,compilation,single")]) ;;
  do resp <- lift (json_of response) ;;
  run print "###   Albums###" ;;
  do items <- lift (getitem resp "items") ;;
  do each <- lift (iterate items) ;;
  run (fix albums (rest : list json) : M unit :=
         match rest with
         | [] => ret tt
         | album :: rest' =>
             do line <- lift (artist_album_line album) ;;
             run print line ;;
             run lift (artist_album_entry album) ;;
             albums rest'
         end) each ;;
  lift (getitem resp "items").

(** The lookups. *)
Definition metadata_failed (banner label id : string) (e : exn) : M (option json) :=
  run print banner ;;
  run print (label +:+ " " +:+ id) ;;
  run print (exn_str E e) ;;
  ret None.

Definition get_track_info (track_id : string) : M (option json) :=
  try_except
    (do response <- authorized_get_request
                      ("https://api.spotify.com/v1/tracks?ids=" +:+ track_id
                       +:+ "&market=from_token") None 0 [] ;;
     do info <- lift (json_of response) ;;
     do made <- lift (track_info track_id info) ;;
     ret (Some made))
    is_Exception
    (metadata_failed "###   get_track_info - FAILED TO QUERY METADATA   ###"
       "track_id:" track_id).

Definition get_artist_info (artist_id : string) : M (option json) :=
  try_except
    (do response <- authorized_get_request
                      ("https://api.spotify.com/v1/artists/" +:+ artist_id) None 0 [] ;;
     do info <- lift (json_of response) ;;
     do made <- lift (artist_info info) ;;
     ret (Some made))
    is_Exception
    (metadata_failed "###   get_artist_info - FAILED TO QUERY METADATA   ###"
       "artist_id:" artist_id).

Definition get_episode_info (episode_id_str : string) : M (option json) :=
  do response <- authorized_get_request
                   ("https://api.spotify.com/v1/episodes/" +:+ episode_id_str) None 0 [] ;;
  do info <- lift (json_of response) ;;
  if negb (json_truthy info) then ret None
  else
    do made <- lift (episode_info episode_id_str info) ;;
    ret (Some made).

Definition get_album_info (album_id : string) : M (option json) :=
  do response <- authorized_get_request
                   ("https://api.spotify.com/v1/albums/" +:+ album_id) None 0 [] ;;
  do resp <- lift (json_of response) ;;
  do made <- lift (album_info resp) ;;
  ret (Some made).

Definition get_show_info (show_id_str : string) : M (option json) :=
  do response <- authorized_get_request
                   ("https://api.spotify.com/v1/shows/" +:+ show_id_str) None 0 [] ;;
  do resp <- lift (json_of response) ;;
  do made <- lift (show_info resp) ;;
  ret (Some made).

(** ** class RespotTrackHandler *)

Definition CHUNK_SIZE : Z := 50000.
Definition RETRY_DOWNLOAD : Z := 30.

(** [Respot.set_progress_bar]: the attribute is overwritten; [observed]
    keeps every value it was given, in order. *)
Definition set_progress_bar (v : progress_value) : M unit :=
  modify (fun s => with_progress_bar v (with_observed (observed s ++ [v]) s)).

(** [self.auth.session.content_feeder().load(id, VorbisOnlyAudioQuality(self.quality), False, None)] *)
Definition content_feeder_load_for (h : RespotTrackHandler) (id : PlayableId)
    : M LoadedStream :=
  do a <- gets auth ;;
  match session a with
  | None => raise AttributeError
  | Some sess => lift (content_feeder_load sess id (handler_quality h))
  end.

(** The inner [try] of [download_audio]: the id is loaded as a track, and
    as an episode when that fails with a [StatusCodeException]. *)
Definition load_stream (h : RespotTrackHandler) (track_id : string) : M LoadedStream :=
  try_except
    (do _track_id <- lift (from_base62 E track_id) ;;
     content_feeder_load_for h (TrackId _track_id))
    is_Exception
    (fun e =>
       if is_StatusCodeException e
       then
         do _track_id <- lift (from_base62 E track_id) ;;
         content_feeder_load_for h (EpisodeId _track_id)
       else raise e).

(** [stream.input_stream.stream().read(chunk_size)]; the request and the
    number of bytes it delivered are recorded. *)
Definition stream_read (r : reader) (n : Z) : M (bytes * reader) :=
  fun s =>
    match read r n with
    | (Returns data, r') =>
        (Ok (data, r'), with_reads_log (reads_log s ++ [(n, len data)]) s)
    | (Raises e, r') =>
        (Raise e, with_reads_log (reads_log s ++ [(n, 0)]) s)
    end.

(** The [while downloaded <= total_size] loop. *)
Fixpoint download_loop (fuel : nat) (progress : progress_value -> M unit)
    (track_id : string) (total_size : Z) (v : loop_vars) : M loop_vars :=
  match fuel with
  | O => out_of_fuel
  | S fuel' =>
      if (downloaded v <=? total_size)%Z
      then
        do got <- stream_read (input_stream v) (chunk_size v) ;;
        let data := fst got in
        let downloaded' := downloaded v + len data in
        let segments' := (segments v ++ [data])%list in
        run progress (Progress track_id total_size downloaded') ;;
        let chunk_size' :=
          if (total_size - downloaded' <? chunk_size v)%Z
          then total_size - downloaded' else chunk_size v in
        let failCount' :=
          if (len data =? 0)%Z then failCount v + 1 else failCount v in
        let v' := mkVars downloaded' chunk_size' failCount' segments' (snd got) in
        if (RETRY_DOWNLOAD <? failCount')%Z
        then ret v'
        else download_loop fuel' progress track_id total_size v'
      else ret v
  end.

(** Iterations the loop can take from [v]: every iteration but the last
    either adds a byte or counts an empty read. *)
Definition loop_fuel (total_size : Z) (v : loop_vars) : nat :=
  S (Z.to_nat (total_size - downloaded v + 1) + Z.to_nat (RETRY_DOWNLOAD + 1 - failCount v)).

(** [str(path)] *)
Definition path_str (p : path) : string := String.concat "/" p.

(** [time.sleep(seconds)] *)
Definition sleep (seconds : Z) : M unit :=
  if (seconds <? 0)%Z then raise ValueError
  else modify (fun s => with_sleeps_log (sleeps_log s ++ [seconds]) s).

Definition _convert_audio_format (h : RespotTrackHandler) (audio_bytes : bytes)
    (output_path : path) : M unit :=
  let bitrate := "160k" in
  let bitrate :=
    match handler_quality h with
    | Some VERY_HIGH => "320k"
    | _ => bitrate
    end in
  run modify (fun s => with_exports_log
                         (exports_log s ++ [mkExport audio_bytes output_path (format h) bitrate]) s) ;;
  run lift (export_audio E audio_bytes output_path (format h) bitrate) ;;
  modify (fun s => with_fs (mkFs (dirs (fs s)) (files (fs s) ∪ {[output_path]})) s).

(** The output directory of [download_audio]. *)
Definition make_output_dirs (output_path : path) (make_dirs : bool) : M unit :=
  let _dirs_path := parent output_path in
  if make_dirs
  then
    do s <- gets id ;;
    do f <- lift (mkdir_parents (fs s) _dirs_path) ;;
    modify (with_fs f)
  else
    do there <- gets (fun s => path_exists (fs s) _dirs_path) ;;
    if there : bool then ret tt
    else raise (FileNotFoundError
                  (Some ("Directory " +:+ path_str _dirs_path +:+ " does not exist"))).

Definition download_audio (h : RespotTrackHandler)
    (progress : progress_value -> M unit) (track_id : string)
    (output_path : path) (make_dirs : bool) : M bool :=
  try_except
    (do stream <- load_stream h track_id ;;
     let total_size := size stream in
     let v := mkVars 0 CHUNK_SIZE 0 [] (source stream) in
     run progress (Progress track_id total_size (downloaded v)) ;;
     do v <- download_loop (loop_fuel total_size v) progress track_id total_size v ;;
     run progress NoTransfer ;;
     run make_output_dirs output_path make_dirs ;;
     run _convert_audio_format h (concat (segments v)) output_path ;;
     run sleep (anti_ban_wait_time h) ;;
     ret true)
    is_Exception
    (fun e =>
       run print "###   download_track - FAILED TO DOWNLOAD   ###" ;;
       run print (exn_str E e) ;;
       run print (track_id +:+ " " +:+ path_str output_path) ;;
       ret false).

(** ** class Respot *)

Record Respot : Type := mkRespot {
  output_format : string;
  antiban_wait_time : Z
}.

(** [Respot.download]; it returns nothing. *)
Definition download (r : Respot) (track_id : string) (output_path : path)
    (make_dirs : bool) : M unit :=
  do a <- gets auth ;;
  let handler := mkHandler (output_format r) (antiban_wait_time r) (quality a) in
  run download_audio handler set_progress_bar track_id output_path make_dirs ;;
  ret tt.

End Program.

(** * Scenarios *)

(** Concrete environments and states, used to run the program. *)

(** The texts of the exceptions in the scenarios: the message where there
    is one, the key in quotes for a [KeyError], and the name of the class
    otherwise. *)
Definition shown_as (e : exn) : string :=
  match e with
  | RuntimeError m => m
  | RequestsConnectionError => "ConnectionError"
  | StatusCodeException => "StatusCodeException"
  | FileNotFoundError (Some m) => m
  | FileNotFoundError None => "FileNotFoundError"
  | FileExistsError => "FileExistsError"
  | NotADirectoryError => "NotADirectoryError"
  | IsADirectoryError => "IsADirectoryError"
  | OSError errno => errno
  | KeyError k => "'" +:+ k +:+ "'"
  | IndexError => "list index out of range"
  | TypeError => "TypeError"
  | ValueError => "ValueError"
  | AttributeError => "AttributeError"
  | OtherException c => c
  | BaseException c => c
  end.

Definition config_credentials : path := ["home"; "user"; ".zspotify"; "credentials.json"].

Definition fs_with_credentials : filesystem :=
  mkFs {[ ["home"]; ["home"; "user"]; ["home"; "user"; ".zspotify"] ]}
       {[ config_credentials ]}.

Definition fs_without_credentials : filesystem :=
  mkFs {[ ["home"]; ["home"; "user"] ]} ∅.

(** A session of an account of type [kind] that mints the tokens [t] and
    [l] and feeds no audio. *)
Definition session_of (kind t l : string) : Session :=
  mkSession
    (fun attribute => if String.eqb attribute "type" then Some kind else None)
    (fun scope =>
       if String.eqb scope "user-read-email" then Returns t
       else if String.eqb scope "user-library-read" then Returns l
       else Raises (KeyError scope))
    (fun _ _ => Raises StatusCodeException).

(** The state of a program whose [auth] object is [a]. *)
Definition boot (a : RespotAuth) (f : filesystem) : state :=
  mkState a (RespotRequest_init a) NoTransfer f [] [] [] [] [] [] [].

Definition ok_response : Response :=
  mkResponse 200 (Some (JObj [("items", JArr [])])).

Definition unauthorized : Response := mkResponse 401 None.

Definition playlists_url : string := "https://api.spotify.com/v1/me/playlists".

(** The catalog rejects the token [stale] and accepts every other one; a
    refresh mints [fresh]. *)
Definition env_expired : environment :=
  mkEnv
    (fun _ _ => (Returns (session_of "free" "fresh" "fresh-library"), true))
    (fun _ rq =>
       if String.eqb (authorization rq) "Bearer stale"
       then Returns unauthorized else Returns ok_response)
    (fun s => Returns s)
    (fun _ _ _ _ => Returns tt)
    shown_as.

Definition st_stale : state :=
  boot (mkAuth config_credentials false
          (Some (session_of "free" "stale" "stale-library"))
          (Some "stale") (Some "stale-library") (Some HIGH))
       fs_with_credentials.


(** librespot rejects the stored credentials with its own exception
    class. *)
Definition env_rejected : environment :=
  mkEnv
    (fun _ _ => (Raises (OtherException "SpotifyAuthenticationException"), false))
    (fun _ _ => Returns ok_response)
    (fun s => Returns s)
    (fun _ _ _ _ => Returns tt)
    shown_as.

(** librespot fails with a [RuntimeError]. *)
Definition env_broken : environment :=
  mkEnv
    (fun _ _ => (Raises (RuntimeError "Failed reading packet!"), false))
    (fun _ _ => Returns ok_response)
    (fun s => Returns s)
    (fun _ _ _ _ => Returns tt)
    shown_as.

(** A program that has not logged in yet, with and without a stored
    credential file. *)
Definition st_returning : state :=
  boot (RespotAuth_init config_credentials false) fs_with_credentials.

Definition st_first_run : state :=
  boot (RespotAuth_init config_credentials false) fs_without_credentials.

(** The catalog knows no entity: every request is answered 404 with the
    error object of the API. *)
Definition not_found_response : Response :=
  mkResponse 404
    (Some (JObj [("error", JObj [("status", JNum 404);
                                 ("message", JStr "Non existing id")])])).

Definition env_not_found : environment :=
  mkEnv
    (fun _ _ => (Returns (session_of "free" "fresh" "fresh-library"), false))
    (fun _ _ => Returns not_found_response)
    (fun s => Returns s)
    (fun _ _ _ _ => Returns tt)
    shown_as.

(** The catalog's answer for one track, with two cover images. *)
Definition track_response : Response :=
  mkResponse 200
    (Some (JObj [("tracks", JArr [JObj [
       ("album", JObj [
          ("artists", JArr [JObj [("name", JStr "AC/DC")]]);
          ("images", JArr [JObj [("height", JNum 64); ("width", JNum 64);
                                 ("url", JStr "small")];
                           JObj [("height", JNum 640); ("width", JNum 640);
                                 ("url", JStr "large")]]);
          ("name", JStr "Who Made Who?");
          ("release_date", JStr "1986-05-24")]);
       ("artists", JArr [JObj [("id", JStr "a1"); ("name", JStr "AC/DC")];
                         JObj [("id", JStr "a2"); ("name", JStr "Guest|One")]]);
       ("disc_number", JNum 1);
       ("id", JStr "t1");
       ("is_playable", JBool true);
       ("name", JStr "Who Made Who");
       ("track_number", JNum 3)]])])).

Definition env_track : environment :=
  mkEnv
    (fun _ _ => (Returns (session_of "free" "fresh" "fresh-library"), false))
    (fun _ _ => Returns track_response)
    (fun s => Returns s)
    (fun _ _ _ _ => Returns tt)
    shown_as.

(** An integer parameter of a page request. *)
Definition param_int (rq : http_request) (name : string) : Z :=
  match assoc "params" (kwargs rq) with
  | Some (JObj params) =>
      match assoc name params with
      | Some (JNum n) => n
      | _ => 0
      end
  | _ => 0
  end.

(** A catalog that holds [collection] and serves the slice a request asks
    for with its [limit] and [offset]. *)
Definition catalog (collection : list json) : environment :=
  mkEnv
    (fun _ _ => (Returns (session_of "free" "fresh" "fresh-library"), false))
    (fun _ rq =>
       Returns (mkResponse 200
                  (Some (JObj [("items",
                                JArr (take (Z.to_nat (param_int rq "limit"))
                                        (drop (Z.to_nat (param_int rq "offset"))
                                           collection)))]))))
    (fun s => Returns s)
    (fun _ _ _ _ => Returns tt)
    shown_as.

Definition numbered {A} (f : Z -> A) (n : nat) : list A :=
  map (fun i => f (Z.of_nat i)) (seq 0 n).

Definition song_item (i : Z) : json :=
  JObj [("id", JNum i); ("name", JStr "song"); ("track_number", JNum i);
        ("disc_number", JNum 1)].

(** An item of a playlist; the seventh has no track. *)
Definition playlist_entry (i : Z) : json :=
  if (i =? 7)%Z then JObj [("track", JNull)]
  else JObj [("track", JObj [("id", JNum i); ("name", JStr "song");
                             ("artists", JArr [JObj [("name", JStr "artist")]])])].

Definition album_item (i : Z) : json :=
  JObj [("id", JNum i); ("name", JStr "album"); ("release_date", JStr "2020-05-01");
        ("total_tracks", JNum 10)].

(** A session that feeds [stream] for every track id and knows no
    episode. *)
Definition feeding_session (stream : LoadedStream) : Session :=
  mkSession
    (fun attribute => if String.eqb attribute "type" then Some "free" else None)
    (fun scope => Returns scope)
    (fun id _ =>
       match id with
       | TrackId _ => Returns stream
       | EpisodeId _ => Raises StatusCodeException
       end).

(** [n] bytes of audio. *)
Definition audio (n : Z) : bytes := replicate (Z.to_nat n) Byte.x2a.

(** An environment in which every outside call succeeds. *)
Definition env_plain : environment :=
  mkEnv
    (fun _ _ => (Returns (session_of "free" "fresh" "fresh-library"), false))
    (fun _ _ => Returns ok_response)
    (fun s => Returns s)
    (fun _ _ _ _ => Returns tt)
    shown_as.

Definition fs_music : filesystem := mkFs {[ ["music"] ]} ∅.

(** A logged-in free account whose session feeds [stream]. *)
Definition st_feeding (stream : LoadedStream) : state :=
  boot (mkAuth config_credentials false (Some (feeding_session stream))
          (Some "t") (Some "l") (Some HIGH))
       fs_music.

Definition handler_free : RespotTrackHandler := mkHandler "mp3" 5 (Some HIGH).

(** A stream that delivers everything it is asked for. *)
Definition whole_stream (n : Z) : LoadedStream := mkStream n (mkReader (audio n) []).

(** A stream announced as [n] bytes that delivers [m] and then nothing. *)
Definition short_stream (n m : Z) : LoadedStream := mkStream n (mkReader (audio m) []).

(** A stream of 10 bytes that stalls 15 times, delivers 5 bytes, and stalls
    again. *)
Definition stalling_stream : LoadedStream :=
  mkStream 10
    (mkReader (audio 10)
       (replicate 15 (Deliver 0) ++ [Deliver 5] ++ replicate 16 (Deliver 0))).

Definition song_path : path := ["music"; "album"; "X.mp3"].

(** A logged-in premium account whose session feeds ten bytes. *)
Definition st_premium : state :=
  boot (mkAuth config_credentials false (Some (feeding_session (whole_stream 10)))
          (Some "t") (Some "l") (Some VERY_HIGH))
       fs_music.

(** * Vocabulary of the properties *)

(** What a run yields, and the state it ends in. *)
Definition value {A} (r : outcome A * state) : outcome A := fst r.
Definition final {A} (r : outcome A * state) : state := snd r.


(** Every session creation succeeds and the session mints the two tokens
    [refresh_token] asks for. *)
Definition refresh_ok (E : environment) : Prop :=
  forall n m, exists sess w t l,
    create_session E n m = (Returns sess, w) /\
    tokens_get sess "user-read-email" = Returns t /\
    tokens_get sess "user-library-read" = Returns l.


(** The [n]-th [requests.get] is answered by [resp]. *)
Definition answered (E : environment) (n : nat) (resp : Response) : Prop :=
  forall rq, requests_get E n rq = Returns resp.

(** The token an attempt puts in its header. *)
Definition resolved (token_bearer : option string) (s : state) : option string :=
  match token_bearer with
  | None => req_token (request s)
  | Some _ => token_bearer
  end.

(** The state after the request of an attempt has been sent. *)
Definition sent (u : string) (token_bearer : option string)
    (kw : list (string * json)) (s : state) : state :=
  with_http_log (http_log s ++ [mkRequest u (bearer (resolved token_bearer s)) kw]) s.

(** The state after a 401 was answered by a successful refresh. *)
Definition adopted (tk : option string * option string) (s : state) : state :=
  with_request (mkReq (req_token (request (with_request (mkReq (fst tk) (req_token_your_libary (request s))) s))) (snd tk))
    (with_request (mkReq (fst tk) (req_token_your_libary (request s))) s).

Definition refreshing_line : string := "Token expired, refreshing...".


(** A state that differs from [s] in the progress attribute and in the
    records of reads and of progress calls only. *)
Definition download_frame (s : state) (reads : list (Z * Z))
    (shown : list progress_value) (bar : progress_value) : state :=
  mkState (auth s) (request s) bar (fs s) (sessions_log s) (http_log s)
          (reads_log s ++ reads) (observed s ++ shown)
          (exports_log s) (sleeps_log s) (console s).

(** The state of a run that went from [s] through the loop: everything but
    the progress attribute and the two records is as in [s]. *)
Definition framed (s s' : state) : Prop :=
  exists reads shown bar, s' = download_frame s reads shown bar.

(** The reads of the loop on a stream that delivers all it is asked for,
    as (requested, delivered): chunks while [remaining] bytes are left, each
    shrunk to what is left, and then the 31 reads that deliver nothing. *)
Fixpoint whole_reads (n : nat) (remaining chunk : Z) : list (Z * Z) :=
  match n with
  | O => (chunk, 0) :: replicate 30 (0, 0)
  | S n' =>
      if (remaining <=? 0)%Z then (chunk, 0) :: replicate 30 (0, 0)
      else
        let d := Z.min chunk remaining in
        (chunk, d) ::
        whole_reads n' (remaining - d)
          (if (remaining - d <? chunk)%Z then remaining - d else chunk)
  end.

(** The [downloaded] counter after each read. *)
Fixpoint running (acc : Z) (reads : list (Z * Z)) : list Z :=
  match reads with
  | [] => []
  | (_, d) :: rest => (acc + d) :: running (acc + d) rest
  end.

(** The bytes a list of reads delivered, and how many of them delivered
    nothing. *)
Definition delivered (reads : list (Z * Z)) : Z :=
  foldr (fun rd acc => snd rd + acc) 0 reads.

Definition empty_reads (reads : list (Z * Z)) : Z :=
  len (filter (fun rd => snd rd = 0) reads).

(** The [except Exception] clause of [download_audio]. *)
Definition failed (E : environment) (track_id : string) (output_path : path) (e : exn)
    : M bool :=
  if is_Exception e
  then
    run print "###   download_track - FAILED TO DOWNLOAD   ###" ;;
    run print (exn_str E e) ;;
    run print (track_id +:+ " " +:+ path_str output_path) ;;
    ret false
  else raise e.

(** What [download_audio] does once the loop has ended with the variables
    [v]. *)
Definition finish (E : environment) (h : RespotTrackHandler) (track_id : string)
    (output_path : path) (make_dirs : bool) (v : loop_vars) : M bool :=
  try_except
    (run set_progress_bar NoTransfer ;;
     run make_output_dirs output_path make_dirs ;;
     run _convert_audio_format E h (concat (segments v)) output_path ;;
     run sleep (anti_ban_wait_time h) ;;
     ret true)
    is_Exception
    (failed E track_id output_path).

(** The state after [set_progress_bar p]. *)
Definition shown (p : progress_value) (s : state) : state :=
  with_progress_bar p (with_observed (observed s ++ [p]) s).

(** The variables the loop starts with. *)
Definition loop_start (stream : LoadedStream) : loop_vars :=
  mkVars 0 CHUNK_SIZE 0 [] (source stream).

(** The bitrate [_convert_audio_format] asks the encoder for. *)
Definition bitrate_of (h : RespotTrackHandler) : string :=
  match handler_quality h with
  | Some VERY_HIGH => "320k"
  | _ => "160k"
  end.

(** The directory step of [download_audio] on the file system [f]: the
    file system it leaves, or the exception it raises. *)
Definition directory_step (f : filesystem) (output_path : path) (make_dirs : bool)
    : result filesystem :=
  if make_dirs then mkdir_parents f (parent output_path)
  else if path_exists f (parent output_path) then Returns f
  else Raises (FileNotFoundError
                 (Some ("Directory " +:+ path_str (parent output_path)
                        +:+ " does not exist"))).

Definition failure_lines (E : environment) (track_id : string) (output_path : path)
    (e : exn) : list string :=
  [ "###   download_track - FAILED TO DOWNLOAD   ###";
    exn_str E e;
    track_id +:+ " " +:+ path_str output_path ].

(** The stream holds exactly [size] bytes and delivers all it is asked
    for. *)
Definition delivers_all (stream : LoadedStream) : Prop :=
  script (source stream) = [] /\ len (pending (source stream)) = size stream.

(** The reads of a whole download of [total] bytes. *)
Definition download_reads (total : Z) : list (Z * Z) :=
  whole_reads (Z.to_nat total) total CHUNK_SIZE.

(** The tier [_check_premium] selects for a session. *)
Definition tier_of (sess : Session) (force : bool) : AudioQuality :=
  if is_premium_type (get_user_attribute sess "type") || force then VERY_HIGH else HIGH.

(** The bitrate that goes with a tier. *)
Definition bitrate_for (q : option AudioQuality) : string :=
  match q with
  | Some VERY_HIGH => "320k"
  | _ => "160k"
  end.

(** A page as the catalog serves it: the response, the items in it, and
    what the listing makes of them. *)
Record page : Type := mkPage {
  answer : Response;
  items_of : list json;
  made : list json
}.

(** The response carries [items] and is not a 401. *)
Definition page_of (resp : Response) (items : list json) : Prop :=
  status_code resp <> 401 /\
  exists body, parsed resp = Some body /\ getitem body "items" = Returns (JArr items).

(** From the [n]-th request on, the catalog answers with [pages], one per
    request, and [shape] accepts every item. *)
Fixpoint served (E : environment) (shape : json -> result (list json)) (n : nat)
    (pages : list page) : Prop :=
  match pages with
  | [] => True
  | pg :: rest =>
      answered E n (answer pg) /\
      page_of (answer pg) (items_of pg) /\
      for_each shape (items_of pg) = Returns (made pg) /\
      served E shape (S n) rest
  end.

(** [k] page requests from [offset] on. *)
Fixpoint page_requests (u header : string) (extra : list (string * json)) (limit : Z)
    (k : nat) (offset : Z) : list http_request :=
  match k with
  | O => []
  | S k' =>
      mkRequest u header (page_params limit offset extra)
      :: page_requests u header extra limit k' (offset + limit)
  end.

(** The token a listing passes to [authorized_get_request]. *)
Definition listing_token (library : bool) (s : state) : option string :=
  if library then req_token_your_libary (request s) else None.

(** A listing follows the page protocol: over pages of which all but the
    last hold at least [limit] items and the last holds fewer, it returns
    what it makes of every item, in order, after one request per page, at
    the offsets 0, [limit], 2 [limit], ... *)
Definition follows_page_protocol (E : environment) (op : nat -> M (list json))
    (u : string) (library : bool) (extra : list (string * json)) (limit : Z)
    (shape : json -> result (list json)) : Prop :=
  forall fuel s full last_,
    (length full < fuel)%nat ->
    served E shape (length (http_log s)) (full ++ [last_]) ->
    Forall (fun pg => limit <= len (items_of pg)) full ->
    len (items_of last_) < limit ->
    op fuel s =
    (Ok (concat (map made (full ++ [last_]))),
     with_http_log
       (http_log s
        ++ page_requests u (bearer (resolved (listing_token library s) s)) extra limit
             (S (length full)) 0) s).

(** The item of a playlist has a track. *)
Definition has_track (song : json) : bool :=
  match getitem song "track" with
  | Returns JNull => false
  | _ => true
  end.

(** A lookup that settles every [Exception] itself: it returns the record,
    or it returns [None] after printing its banner, the id and the
    exception, which is of a subclass of [Exception]; what it raises is of
    no such class. *)
Definition settles (E : environment) (label id : string)
    (r : outcome (option json) * state) : Prop :=
  (exists made_, value r = Ok (Some made_)) \/
  (value r = Ok None /\
   exists before banner e,
     is_Exception e = true /\
     console (final r) = before ++ [banner; label +:+ " " +:+ id; exn_str E e]) \/
  (exists e, value r = Raise e /\ is_Exception e = false).

(** ** Pages of an album *)

Definition songs_page (from : Z) (count : nat) : list json :=
  map (fun i => song_item (from + Z.of_nat i)) (seq 0 count).

Definition page_response (items : list json) : Response :=
  mkResponse 200 (Some (JObj [("items", JArr items)])).

Definition album_page (from : Z) (count : nat) : page :=
  mkPage (page_response (songs_page from count)) (songs_page from count)
    (match for_each album_song (songs_page from count) with
     | Returns entries => entries
     | Raises _ => []
     end).

(** The catalog answers the requests, in order, with pages of 50, 50, 50
    and 20 tracks. *)
Definition env_paged : environment :=
  mkEnv
    (fun _ _ => (Returns (session_of "free" "fresh" "fresh-library"), false))
    (fun n _ =>
       Returns (nth n [answer (album_page 0 50); answer (album_page 50 50);
                       answer (album_page 100 50)]
                  (answer (album_page 150 20))))
    (fun s => Returns s)
    (fun _ _ _ _ => Returns tt)
    shown_as.

(** The loop one empty read away from giving up. *)
Definition nearly_given_up : loop_vars :=
  mkVars 10 0 30 [audio 10] (mkReader [] []).

(** * The rest of the module *)

(** ** Regular expressions, as [re] matches them *)

(** The constructs the patterns of [parse_url] are written with.  [re] is a
    backtracking matcher: where a construct can match in several ways it
    tries them in a fixed order, and the first way that lets the rest of the
    pattern match is the match. *)
Inductive regex : Type :=
| Start                                    (* ^ *)
| Finish                                   (* $ *)
| Text (literal : string)                  (* the characters themselves *)
| Times (n : nat) (set : ascii -> bool)    (* [set]{n} *)
| More (set : ascii -> bool)               (* [set]+ , as many as possible first *)
| Few (set : ascii -> bool)                (* [set]+? , as few as possible first *)
| Maybe (r : regex)                        (* (r)? , with r first *)
| Then (r1 r2 : regex)                     (* r1 r2 *)
| Named (name : string) (r : regex).       (* (?P<name>r) *)

(** What a way of matching leaves: the text matched, the text after it, and
    the named groups. *)
Definition attempt : Type := string * string * list (string * string).

(** The text after [literal], when [s] starts with it. *)
Fixpoint after_text (literal s : string) : option string :=
  match literal, s with
  | EmptyString, _ => Some s
  | String a literal', String b s' =>
      if Ascii.eqb a b then after_text literal' s' else None
  | String _ _, EmptyString => None
  end.

(** The first [n] characters of [s] and the text after them, when they all
    are in [set]. *)
Fixpoint exactly (n : nat) (set : ascii -> bool) (s : string) : option (string * string) :=
  match n with
  | O => Some (EmptyString, s)
  | S n' =>
      match s with
      | String c s' =>
          if set c
          then match exactly n' set s' with
               | Some (m, rest) => Some (String c m, rest)
               | None => None
               end
          else None
      | EmptyString => None
      end
  end.

(** The ways of taking one or more characters of [set] off the front of
    [s], the shortest first. *)
Fixpoint runs (set : ascii -> bool) (s : string) : list (string * string) :=
  match s with
  | String c s' =>
      if set c
      then (String c EmptyString, s')
           :: map (fun way => (String c (fst way), snd way)) (runs set s')
      else []
  | EmptyString => []
  end.

Definition line_feed_char : ascii := ascii_of_nat 10.

(** [$] without [re.MULTILINE]: the end of the text, or the line feed that
    ends it. *)
Definition at_finish (s : string) : bool :=
  match s with
  | EmptyString => true
  | String c EmptyString => Ascii.eqb c line_feed_char
  | _ => false
  end.

(** The ways [r] matches at the front of [s], in the order [re] tries them;
    [at_start] tells whether [s] is the whole text. *)
Fixpoint match_at (r : regex) (at_start : bool) (s : string) : list attempt :=
  match r with
  | Start => if at_start then [(EmptyString, s, [])] else []
  | Finish => if at_finish s then [(EmptyString, s, [])] else []
  | Text literal =>
      match after_text literal s with
      | Some rest => [(literal, rest, [])]
      | None => []
      end
  | Times n set =>
      match exactly n set s with
      | Some (m, rest) => [(m, rest, [])]
      | None => []
      end
  | More set => map (fun way => (fst way, snd way, [])) (rev (runs set s))
  | Few set => map (fun way => (fst way, snd way, [])) (runs set s)
  | Maybe r' => match_at r' at_start s ++ [(EmptyString, s, [])]
  | Then r1 r2 =>
      flat_map
        (fun first =>
           let '(m1, rest1, groups1) := first in
           map (fun second =>
                  let '(m2, rest2, groups2) := second in
                  (m1 +:+ m2, rest2, groups1 ++ groups2))
               (match_at r2 (at_start && String.eqb m1 EmptyString) rest1))
        (match_at r1 at_start s)
  | Named name r' =>
      map (fun way =>
             let '(m, rest, groups) := way in
             (m, rest, groups ++ [(name, m)]))
          (match_at r' at_start s)
  end.

(** [re.search(r, s)]: the first way of matching at the first place where
    the pattern matches. *)
Fixpoint search_from (r : regex) (at_start : bool) (s : string) : option attempt :=
  match match_at r at_start s with
  | way :: _ => Some way
  | [] =>
      match s with
      | String _ s' => search_from r false s'
      | EmptyString => None
      end
  end.

Definition re_search (r : regex) (s : string) : option attempt := search_from r true s.

(** [m.group(name)]: [None] for a group that took no part in the match. *)
Fixpoint group (name : string) (groups : list (string * string)) : option string :=
  match groups with
  | [] => None
  | (name', text) :: rest =>
      if String.eqb name name' then Some text else group name rest
  end.

(** [re.sub(r, '', s)]: the matches, found from left to right and not
    overlapping, are taken out.  [skip] counts the characters of the current
    match still to pass.  (A match of no characters would change nothing;
    the pattern of [parse_url] has none.) *)
Fixpoint sub_from (r : regex) (at_start : bool) (skip : nat) (s : string) : string :=
  match s with
  | EmptyString => EmptyString
  | String c s' =>
      match skip with
      | S skip' => sub_from r false skip' s'
      | O =>
          match match_at r at_start s with
          | (m, _, _) :: _ =>
              match String.length m with
              | S skip' => sub_from r false skip' s'
              | O => String c (sub_from r false 0 s')
              end
          | [] => String c (sub_from r false 0 s')
          end
      end
  end.

Definition re_sub_delete (r : regex) (s : string) : string := sub_from r true 0 s.

(** ** [RespotUtils.parse_url] *)

(** [[0-9a-zA-Z]] *)
Definition alnum (c : ascii) : bool :=
  let n := nat_of_ascii c in
  ((48 <=? n) && (n <=? 57) || (97 <=? n) && (n <=? 122) || (65 <=? n) && (n <=? 90))%nat.

(** [[^/]] and [.] *)
Definition not_slash (c : ascii) : bool := negb (Ascii.eqb c "/"%char).
Definition not_line_feed (c : ascii) : bool := negb (Ascii.eqb c line_feed_char).

(** [r'intl-[^/]+/'] *)
Definition intl_pattern : regex :=
  Then (Text "intl-") (Then (More not_slash) (Text "/")).

(** [r"^spotify:<kind>:(?P<Name>[0-9a-zA-Z]{22})$"] *)
Definition uri_pattern (kind name : string) : regex :=
  Then Start
    (Then (Text ("spotify:" +:+ kind +:+ ":"))
       (Then (Named name (Times 22 alnum)) Finish)).

(** [r"^(https?://)?open\.spotify\.com/<kind>/(?P<Name>[0-9a-zA-Z]{22})(\?si=.+?)?$"] *)
Definition url_pattern (kind name : string) : regex :=
  Then Start
    (Then (Maybe (Then (Text "http") (Then (Maybe (Text "s")) (Text "://"))))
       (Then (Text ("open.spotify.com/" +:+ kind +:+ "/"))
          (Then (Named name (Times 22 alnum))
             (Then (Maybe (Then (Text "?si=") (Few not_line_feed))) Finish)))).

(** The dictionary [parse_url] returns. *)
Record parsed_url : Type := mkParsed {
  track : option string;
  album : option string;
  playlist : option string;
  episode : option string;
  show : option string;
  artist : option string
}.

(** One of the six [if ... else ...] of [parse_url]: the group of the URI
    match if there is one, else of the URL match, else [None]. *)
Definition id_str (uri_search url_search : option attempt) (name : string) : option string :=
  match uri_search, url_search with
  | None, None => None
  | Some m, _ => group name (snd m)
  | None, Some m => group name (snd m)
  end.

Definition parse_url (search_input : string) : parsed_url :=
  let search_input := re_sub_delete intl_pattern search_input in
  let track_uri_search := re_search (uri_pattern "track" "TrackID") search_input in
  let track_url_search := re_search (url_pattern "track" "TrackID") search_input in
  let album_uri_search := re_search (uri_pattern "album" "AlbumID") search_input in
  let album_url_search := re_search (url_pattern "album" "AlbumID") search_input in
  let playlist_uri_search := re_search (uri_pattern "playlist" "PlaylistID") search_input in
  let playlist_url_search := re_search (url_pattern "playlist" "PlaylistID") search_input in
  let episode_uri_search := re_search (uri_pattern "episode" "EpisodeID") search_input in
  let episode_url_search := re_search (url_pattern "episode" "EpisodeID") search_input in
  let show_uri_search := re_search (uri_pattern "show" "ShowID") search_input in
  let show_url_search := re_search (url_pattern "show" "ShowID") search_input in
  let artist_uri_search := re_search (uri_pattern "artist" "ArtistID") search_input in
  let artist_url_search := re_search (url_pattern "artist" "ArtistID") search_input in
  mkParsed
    (id_str track_uri_search track_url_search "TrackID")
    (id_str album_uri_search album_url_search "AlbumID")
    (id_str playlist_uri_search playlist_url_search "PlaylistID")
    (id_str episode_uri_search episode_url_search "EpisodeID")
    (id_str show_uri_search show_url_search "ShowID")
    (id_str artist_uri_search artist_url_search "ArtistID").

(** ** What [parse_url] is asked and what it answers *)

(** Every character of [s] is in [set]. *)
Fixpoint all_in (set : ascii -> bool) (s : string) : bool :=
  match s with
  | EmptyString => true
  | String c s' => set c && all_in set s'
  end.

(** An id as the patterns want it: 22 characters, each a digit or a letter. *)
Definition is_id (s : string) : bool :=
  (String.length s =? 22)%nat && all_in alnum s.

(** The kinds of entity [parse_url] tells apart, with their key in the
    dictionary. *)
Inductive entity : Type :=
| a_track | an_album | a_playlist | an_episode | a_show | an_artist.

Definition key (k : entity) : string :=
  match k with
  | a_track => "track"
  | an_album => "album"
  | a_playlist => "playlist"
  | an_episode => "episode"
  | a_show => "show"
  | an_artist => "artist"
  end.

Definition field (k : entity) (p : parsed_url) : option string :=
  match k with
  | a_track => track p
  | an_album => album p
  | a_playlist => playlist p
  | an_episode => episode p
  | a_show => show p
  | an_artist => artist p
  end.

(** The dictionary with [id] under the key of [k] and [None] elsewhere. *)
Definition only (k : entity) (id : string) : parsed_url :=
  match k with
  | a_track => mkParsed (Some id) None None None None None
  | an_album => mkParsed None (Some id) None None None None
  | a_playlist => mkParsed None None (Some id) None None None
  | an_episode => mkParsed None None None (Some id) None None
  | a_show => mkParsed None None None None (Some id) None
  | an_artist => mkParsed None None None None None (Some id)
  end.

Definition nothing : parsed_url := mkParsed None None None None None None.

(** The text the URL pattern accepts between the id and the end: nothing,
    or [?si=] and one or more characters of one line. *)
Definition is_query (q : string) : Prop :=
  q = "" \/ exists x, q = "?si=" +:+ x /\ x <> "" /\ all_in not_line_feed x = true.

(** The two forms of text that name the entity [id] of kind [kind]. *)
Definition uri_form (kind id s : string) : Prop :=
  exists rest,
    s = ("spotify:" +:+ kind +:+ ":") +:+ id +:+ rest /\ at_finish rest = true.

Definition url_form (kind id s : string) : Prop :=
  exists scheme q rest,
    In scheme ["https://"; "http://"; ""] /\ is_query q /\
    s = scheme +:+ ("open.spotify.com/" +:+ kind +:+ "/") +:+ id +:+ q +:+ rest /\
    at_finish rest = true.

Definition not_dash (c : ascii) : bool := negb (Ascii.eqb c "-"%char).

(** Somewhere in [s] a [-] is followed, at once or later, by a [/]. *)
Fixpoint slash_after_dash (s : string) : bool :=
  match s with
  | EmptyString => false
  | String c s' =>
      if Ascii.eqb c "-"%char then negb (all_in not_slash s') else slash_after_dash s'
  end.

(** ** The loops of [sanitize_data] and [conv_artist_format] *)

(** [value.replace(old, new)] for an [old] of one character. *)
Fixpoint replace_char (old : ascii) (new : string) (value : string) : string :=
  match value with
  | EmptyString => EmptyString
  | String c rest =>
      if Ascii.eqb c old then new +:+ replace_char old new rest
      else String c (replace_char old new rest)
  end.

Definition SANITIZE_CHARS : list ascii :=
  [backslash_char; "/"%char; ":"%char; "*"%char; "?"%char; "'"%char;
   "<"%char; ">"%char; quote_char; "|"%char].

(** The loop of [sanitize_data], one replacement after the other. *)
Definition sanitize_loop (value : string) : string :=
  fold_left
    (fun value char =>
       replace_char char (if Ascii.eqb char "|"%char then "-" else "") value)
    SANITIZE_CHARS value.

(** [formatted[:-2]] *)
Definition drop_last_two (formatted : string) : string :=
  String.substring 0 (String.length formatted - 2) formatted.

(** The loop of [conv_artist_format]: every artist is appended with a
    separator after it, and the last separator is cut off at the end. *)
Definition conv_artist_loop (artists : json) : result string :=
  try items <- iterate artists ;;
  try formatted <-
    fold_left
      (fun so_far artist =>
         try formatted <- so_far ;;
         match artist with
         | JStr a => Returns (formatted +:+ a +:+ ", ")
         | _ => Raises TypeError
         end)
      items (Returns "") ;;
  Returns (drop_last_two formatted).

(** ** The dictionaries of [search] *)

(** [sep.join(v)]: [v] is iterated and every item must be a string. *)
Definition str_join (sep : string) (v : json) : result string :=
  try items <- iterate v ;;
  try names <- for_each (fun x => match x with
                                  | JStr s => Returns [s]
                                  | _ => Raises TypeError
                                  end) items ;;
  Returns (String.concat sep names).

(** [[artist['name'] for artist in artists]] *)
Definition names_of (artists : json) : result json :=
  try items <- iterate artists ;;
  try names <- for_each (fun a => try name <- getitem a "name" ;; Returns [name]) items ;;
  Returns (JArr names).

(** The entry [search] appends for a track. *)
Definition search_track (track : json) : result (list json) :=
  try flag <- getitem track "explicit" ;;
  let explicit := if json_truthy flag then "[E]" else "" in
  try id <- getitem track "id" ;;
  try name <- getitem track "name" ;;
  try marked <- py_add (JStr explicit) name ;;
  try artists <- getitem track "artists" ;;
  try names <- names_of artists ;;
  try joined <- str_join "," names ;;
  Returns [JObj [("id", id); ("name", marked); ("artists", JStr joined)]].

(** [re.search("(\d{4})", date).group(1)]: [re.search] takes a string, and
    [None] has no [group]. *)
Definition year_of (date : json) : result string :=
  match date with
  | JStr d =>
      match search_year d with
      | Some year => Returns year
      | None => Raises AttributeError
      end
  | _ => Raises TypeError
  end.

(** The entry [search] appends for an album. *)
Definition search_album (album : json) : result (list json) :=
  try date <- getitem album "release_date" ;;
  try _year <- year_of date ;;
  try name <- getitem album "name" ;;
  try artists <- getitem album "artists" ;;
  try names <- names_of artists ;;
  try joined <- str_join "," names ;;
  try total_tracks <- getitem album "total_tracks" ;;
  try id <- getitem album "id" ;;
  Returns [JObj [("name", name); ("year", JStr _year); ("artists", JStr joined);
                 ("total_tracks", total_tracks); ("id", id)]].

(** The entry [search] appends for a playlist. *)
Definition search_playlist (playlist : json) : result (list json) :=
  try name <- getitem playlist "name" ;;
  try owner <- getitem playlist "owner" ;;
  try display_name <- getitem owner "display_name" ;;
  try tracks <- getitem playlist "tracks" ;;
  try total <- getitem tracks "total" ;;
  try id <- getitem playlist "id" ;;
  Returns [JObj [("name", name); ("owner", display_name); ("total_tracks", total);
                 ("id", id)]].

(** The entry [search] appends for an artist. *)
Definition search_artist (artist : json) : result (list json) :=
  try name <- getitem artist "name" ;;
  try genres <- getitem artist "genres" ;;
  try joined <- str_join "/" genres ;;
  try id <- getitem artist "id" ;;
  Returns [JObj [("name", name); ("genres", JStr joined); ("id", id)]].

(** [resp.json()[kind]["items"]] *)
Definition items_under (body : json) (kind : string) : result json :=
  try part <- getitem body kind ;;
  getitem part "items".

(** One of the four blocks of [search]: the loop over the items, which for
    tracks and albums is inside [if len(items) > 0]. *)
Definition found_in (guarded : bool) (shape : json -> result (list json)) (items : json)
    : result (list json) :=
  if guarded
  then
    try n <- json_len items ;;
    if (0 <? n)%Z
    then try each <- iterate items ;; for_each shape each
    else Returns []
  else try each <- iterate items ;; for_each shape each.

(** The body of [search] after the request. *)
Definition search_results (body : json) : result (option json) :=
  try tracks <- items_under body "tracks" ;;
  try ret_tracks <- found_in true search_track tracks ;;
  try albums <- items_under body "albums" ;;
  try ret_albums <- found_in true search_album albums ;;
  try playlists <- items_under body "playlists" ;;
  try ret_playlists <- found_in false search_playlist playlists ;;
  try artists <- items_under body "artists" ;;
  try ret_artists <- found_in false search_artist artists ;;
  if (len ret_tracks + len ret_albums + len ret_playlists + len ret_artists =? 0)%Z
  then Returns None
  else Returns (Some (JObj [("tracks", JArr ret_tracks);
                            ("albums", JArr ret_albums);
                            ("playlists", JArr ret_playlists);
                            ("artists", JArr ret_artists)])).

Section SearchProgram.

Variable E : environment.

(** The parameters of the search request. *)
Definition search_params (search_term : string) (search_limit : json)
    : list (string * json) :=
  [("params", JObj [("limit", search_limit);
                    ("offset", JStr "0");
                    ("q", JStr search_term);
                    ("type", JStr "track,album,playlist,artist")])].

Definition search (search_term : string) (search_limit : json) : M (option json) :=
  do resp <- authorized_get_request E "https://api.spotify.com/v1/search" None 0
               (search_params search_term search_limit) ;;
  do body <- lift (json_of resp) ;;
  lift (search_results body).

End SearchProgram.

(** ** Searches: vocabulary and scenarios *)

(** The items of a kind in the body of a search response, as the loop of
    [search] goes through them. *)
Definition hits (body : json) (kind : string) : result (list json) :=
  try items <- items_under body kind ;;
  iterate items.

(** A text of ASCII characters only; in such a text the digits are the
    ten ASCII digits. *)
Definition ascii_text (s : string) : bool :=
  forallb (fun c => (nat_of_ascii c <? 128)%nat) (list_ascii_of_string s).

(** The results of a search as a dictionary. *)
Definition results_of (ret_tracks ret_albums ret_playlists ret_artists : list json) : json :=
  JObj [("tracks", JArr ret_tracks); ("albums", JArr ret_albums);
        ("playlists", JArr ret_playlists); ("artists", JArr ret_artists)].

(** The body of a search response with one explicit track by two artists,
    no album, no playlist and one artist. *)
Definition search_body : json :=
  JObj [("tracks", JObj [("items", JArr [JObj [
           ("explicit", JBool true); ("id", JStr "t1"); ("name", JStr "Song");
           ("artists", JArr [JObj [("name", JStr "A")]; JObj [("name", JStr "B")]])]])]);
        ("albums", JObj [("items", JArr [])]);
        ("playlists", JObj [("items", JArr [])]);
        ("artists", JObj [("items", JArr [JObj [
           ("name", JStr "A"); ("genres", JArr [JStr "rock"; JStr "pop"]);
           ("id", JStr "a1")]])])].

Definition env_search : environment :=
  mkEnv
    (fun _ _ => (Returns (session_of "free" "fresh" "fresh-library"), false))
    (fun _ _ => Returns (mkResponse 200 (Some search_body)))
    (fun s => Returns s)
    (fun _ _ _ _ => Returns tt)
    shown_as.

(** An album as a search response lists it, released at [date]. *)
Definition found_album (date : string) : json :=
  JObj [("release_date", JStr date); ("name", JStr "Album");
        ("artists", JArr [JObj [("name", JStr "A")]]);
        ("total_tracks", JNum 9); ("id", JStr "b1")].

(** The body of a search response with the albums [albums] and nothing
    else. *)
Definition albums_body (albums : list json) : json :=
  JObj [("tracks", JObj [("items", JArr [])]);
        ("albums", JObj [("items", JArr albums)]);
        ("playlists", JObj [("items", JArr [])]);
        ("artists", JObj [("items", JArr [])])].

(** ** Requests, listings and lookups: vocabulary and scenarios *)

(** How many of the requests [reqs], sent as the [n]-th and following ones,
    the catalog rejects with 401. *)
Fixpoint rejections (E : environment) (n : nat) (reqs : list http_request) : nat :=
  match reqs with
  | [] => 0
  | rq :: rest =>
      (match requests_get E n rq with
       | Returns resp => if (status_code resp =? 401)%Z then 1 else 0
       | Raises _ => 0
       end + rejections E (S n) rest)%nat
  end.

(** The request object and the [auth] object hold the same tokens. *)
Definition tokens_agree (s : state) : Prop :=
  req_token (request s) = token (auth s) /\
  req_token_your_libary (request s) = token_your_libary (auth s).

(** A session that mints the first token and fails at the second. *)
Definition half_session : Session :=
  mkSession
    (fun attribute => if String.eqb attribute "type" then Some "free" else None)
    (fun scope =>
       if String.eqb scope "user-read-email" then Returns "fresh"
       else Raises (RuntimeError "Failed reading packet!"))
    (fun _ _ => Raises StatusCodeException).

(** The catalog rejects every request, and a refresh gets [half_session]. *)
Definition env_half_refresh : environment :=
  mkEnv
    (fun _ _ => (Returns half_session, false))
    (fun _ _ => Returns unauthorized)
    (fun s => Returns s)
    (fun _ _ _ _ => Returns tt)
    shown_as.

(** The response is not a 401 and its body is an object without [items],
    as the error object of the API is. *)
Definition without_items (resp : Response) : Prop :=
  status_code resp <> 401 /\
  exists members, parsed resp = Some (JObj members) /\ assoc "items" members = None.

(** A listing returns all or nothing: when full pages are followed by a
    response without [items], it raises [KeyError] after the request for
    that page, and what the pages before held is not returned. *)
Definition all_or_nothing {A} (E : environment) (op : nat -> M A)
    (u : string) (library : bool) (extra : list (string * json)) (limit : Z)
    (shape : json -> result (list json)) : Prop :=
  forall fuel s full bad,
    (length full < fuel)%nat ->
    served E shape (length (http_log s)) full ->
    Forall (fun pg => limit <= len (items_of pg)) full ->
    answered E (length (http_log s) + length full) bad ->
    without_items bad ->
    op fuel s =
    (Raise (KeyError "items"),
     with_http_log
       (http_log s
        ++ page_requests u (bearer (resolved (listing_token library s) s)) extra limit
             (S (length full)) 0) s).

(** The lines [get_artist_albums] prints for the albums. *)
Definition album_lines (albums : list json) : result (list string) :=
  for_each (fun album => try line <- artist_album_line album ;; Returns [line]) albums.

(** The catalog serves one full page of an album and then knows nothing. *)
Definition env_cut : environment :=
  mkEnv
    (fun _ _ => (Returns (session_of "free" "fresh" "fresh-library"), false))
    (fun n _ =>
       match n with
       | O => Returns (answer (album_page 0 50))
       | _ => Returns not_found_response
       end)
    (fun s => Returns s)
    (fun _ _ _ _ => Returns tt)
    shown_as.

(** The catalog answers every request with the same two albums. *)
Definition env_two_albums : environment :=
  mkEnv
    (fun _ _ => (Returns (session_of "free" "fresh" "fresh-library"), false))
    (fun _ _ => Returns (page_response (numbered album_item 2)))
    (fun s => Returns s)
    (fun _ _ _ _ => Returns tt)
    shown_as.

(** [i] is the place of the first of the greatest numbers of [sizes]. *)
Definition is_first_max (sizes : list Z) (i : nat) : Prop :=
  exists m,
    nth_error sizes i = Some m /\
    Forall (fun x => x <= m) sizes /\
    forall j x, (j < i)%nat -> nth_error sizes j = Some x -> x < m.

(** An image as the catalog describes it. *)
Definition image (picture : Z * Z * json) : json :=
  let '(height, width, url) := picture in
  JObj [("height", JNum height); ("width", JNum width); ("url", url)].

(** The three steps by which [get_track_info] and [get_episode_info] choose
    the [image_url] among the images. *)
Definition cover_url (images : json) : result json :=
  try sum_total <- image_sizes images ;;
  try img_index <- largest_image sum_total ;;
  image_url_at images img_index.

(** The text holds none of the characters [sanitize_data] is there to
    remove. *)
Definition is_clean (text : string) : Prop :=
  forall c, In c (list_ascii_of_string text) -> ~ In c SANITIZE_CHARS.

(** The catalog's answer for one episode. *)
Definition episode_response : Response :=
  mkResponse 200
    (Some (JObj [("images", JArr []);
                 ("show", JObj [("id", JStr "s1"); ("publisher", JStr "Pub");
                                ("name", JStr "Show: One")]);
                 ("name", JStr "Episode 1?");
                 ("release_date", JStr "2021-03-04");
                 ("id", JStr "e1");
                 ("is_playable", JBool true)])).

Definition env_episode : environment :=
  mkEnv
    (fun _ _ => (Returns (session_of "free" "fresh" "fresh-library"), false))
    (fun _ _ => Returns episode_response)
    (fun s => Returns s)
    (fun _ _ _ _ => Returns tt)
    shown_as.

(** ** Downloads: vocabulary *)

(** A read, as (requested, delivered), that asks for no more than a chunk
    and delivers no more than it was asked for. *)
Definition within_chunk (rd : Z * Z) : Prop :=
  0 <= fst rd <= CHUNK_SIZE /\ 0 <= snd rd <= fst rd.

(** Each count is at least the one before it, starting from [from]. *)
Fixpoint climbs (from : Z) (counts : list Z) : Prop :=
  match counts with
  | [] => True
  | c :: rest => from <= c /\ climbs c rest
  end.

(** The reads of the script that raise. *)
Definition read_raises (ev : read_event) : bool :=
  match ev with
  | ReadError _ => true
  | Deliver _ => false
  end.

(** The variables of the loop as the progress of a download of [total]
    bytes: nothing is asked for beyond a chunk, and while the loop goes on
    the next read is not negative. *)
Definition loop_bounds (total : Z) (v : loop_vars) : Prop :=
  downloaded v <= Z.max total CHUNK_SIZE /\
  chunk_size v <= CHUNK_SIZE /\
  (downloaded v <= total ->
   0 <= chunk_size v /\ downloaded v + chunk_size v <= Z.max total CHUNK_SIZE).

(** The exception a download meets when there is no session: what the
    decoding of the id raises, and the [AttributeError] of the missing
    session when the id decodes. *)
Definition without_session (E : environment) (track_id : string) : exn :=
  match from_base62 E track_id with
  | Returns _ => AttributeError
  | Raises e => e
  end.

(** * Properties *)

(** ** [refresh_token] and [authorized_get_request] *)

Section RequestProperties.

Variable E : environment.

Ltac crush_refresh :=
  repeat (cbn;
    match goal with
    | |- context [create_session ?e ?n ?m] =>
        destruct (create_session e n m) as [[?|?] []]
    | |- context [if path_exists ?f ?p then _ else _] => destruct (path_exists f p)
    | |- context [unlink_file ?f ?p] => destruct (unlink_file f p)
    | |- context [tokens_get ?a ?b] => destruct (tokens_get a b)
    end).


(** A file that is not a directory can be removed. *)
Lemma unlink_file_removes f p :
  is_dir f p = false -> path_exists f p = true ->
  unlink_file f p = Returns (mkFs (dirs f) (files f ∖ {[p]})).
Proof.
  unfold unlink_file, path_exists. intros ->. cbn. intros ->. reflexivity.
Qed.


Lemma refresh_token_http_log s :
  http_log (final (refresh_token E s)) = http_log s.
Proof.
  unfold refresh_token, Session_create, final, bind, gets, modify, lift, ret.
  crush_refresh; reflexivity.
Qed.

Lemma refresh_token_terminates s s' :
  refresh_token E s <> (OutOfFuel, s').
Proof.
  unfold refresh_token, Session_create, bind, gets, modify, lift, ret.
  crush_refresh; discriminate.
Qed.



Local Arguments refresh_token : simpl never.

Lemma try_except_bind {A B} (c : M A) (k : A -> M B) catches h s :
  try_except (bind c k) catches h s =
  match c s with
  | (Ok a, s1) => try_except (k a) catches h s1
  | (Raise e, s1) => if catches e then h e s1 else (Raise e, s1)
  | (OutOfFuel, s1) => (OutOfFuel, s1)
  end.
Proof. unfold try_except, bind. destruct (c s) as [[a|e|] s1]; reflexivity. Qed.

Lemma try_except_handler {A} (c : M A) catches h h' s :
  (forall e s', catches e = true -> h e s' = h' e s') ->
  try_except c catches h s = try_except c catches h' s.
Proof.
  intros H. unfold try_except. destruct (c s) as [[a|e|] s1]; try reflexivity.
  destruct (catches e) eqn:He; [apply H; exact He | reflexivity].
Qed.

Lemma try_except_pass {A} (c : M A) catches h s :
  (forall e, value (c s) = Raise e -> catches e = false) ->
  try_except c catches h s = c s.
Proof.
  unfold try_except, value. destruct (c s) as [[a|e|] s']; cbn; auto.
  intros H. rewrite (H e eq_refl). reflexivity.
Qed.

Lemma authorized_get_request_rec_not_connection_error fuel u tb rc kw s e :
  value (authorized_get_request_rec E fuel u tb rc kw s) = Raise e ->
  is_ConnectionError e = false.
Proof.
  revert tb rc s e. induction fuel as [|fuel IH]; intros tb rc s e; cbn.
  - discriminate.
  - destruct (3 <? rc)%Z; cbn.
    + intros [= <-]. reflexivity.
    + unfold bind at 1.
      assert (Hres : forall tb0 s0,
                 (match tb0 with
                  | None => gets (fun s => req_token (request s))
                  | Some _ => ret tb0
                  end) s0 = (Ok (resolved tb0 s0), s0)) by (intros [t|] s0; reflexivity).
      rewrite Hres. unfold try_except, bind, get, lift.
      destruct (requests_get E _ _) as [resp|e0]; cbn.
      * destruct (status_code resp =? 401)%Z; cbn; [|discriminate].
        destruct (refresh_token E _) as [[tk|e1|] s1]; cbn.
        -- match goal with
           | |- context [authorized_get_request_rec E fuel ?a ?b ?c ?d ?s] =>
               destruct (authorized_get_request_rec E fuel a b c d s) as [[r|e2|] s2] eqn:Hrec
           end; cbn; try discriminate.
           destruct (is_ConnectionError e2) eqn:He2; cbn.
           ++ apply IH.
           ++ intros [= <-]. exact He2.
        -- destruct (is_ConnectionError e1) eqn:He1; cbn.
           ++ apply IH.
           ++ intros [= <-]. exact He1.
        -- discriminate.
      * destruct (is_ConnectionError e0) eqn:He0; cbn.
        -- apply IH.
        -- intros [= <-]. exact He0.
Qed.

(** One level of [authorized_get_request], read off its definition. *)
Lemma authorized_get_request_rec_step fuel u tb rc kw s :
  authorized_get_request_rec E (S fuel) u tb rc kw s =
  if (3 <? rc)%Z then (Raise too_many_retries, s)
  else
    let tb' := resolved tb s in
    let s1 := sent u tb kw s in
    match requests_get E (length (http_log s)) (mkRequest u (bearer tb') kw) with
    | Raises e =>
        if is_ConnectionError e
        then authorized_get_request_rec E fuel u tb' (rc + 1) kw s1
        else (Raise e, s1)
    | Returns resp =>
        if (status_code resp =? 401)%Z
        then
          match refresh_token E (with_console (console s1 ++ [refreshing_line]) s1) with
          | (Ok tk, s3) =>
              authorized_get_request_rec E fuel u tb' (rc + 1) kw (adopted tk s3)
          | (Raise e, s3) =>
              if is_ConnectionError e
              then authorized_get_request_rec E fuel u tb' (rc + 1) kw s3
              else (Raise e, s3)
          | (OutOfFuel, s3) => (OutOfFuel, s3)
          end
        else (Ok resp, s1)
    end.
Proof.
  cbn. destruct (3 <? rc)%Z; [reflexivity|].
  unfold bind at 1.
  assert (Hres : (match tb with
                  | None => gets (fun s => req_token (request s))
                  | Some _ => ret tb
                  end) s = (Ok (resolved tb s), s)) by (destruct tb; reflexivity).
  rewrite Hres. cbn.
  unfold try_except, bind, get, lift, sent.
  destruct (requests_get E _ _) as [resp|e0]; cbn; [|reflexivity].
  destruct (status_code resp =? 401)%Z; cbn; [|reflexivity].
  unfold refreshing_line.
  destruct (refresh_token E _) as [[tk|e1|] s1]; cbn; try reflexivity.
  unfold adopted. cbn.
  match goal with
  | |- context [authorized_get_request_rec E fuel ?a ?b ?c ?d ?x] =>
      pose proof (authorized_get_request_rec_not_connection_error fuel a b c d x) as Hn;
      destruct (authorized_get_request_rec E fuel a b c d x) as [[r|e2|] s2]
  end; cbn in *; try reflexivity.
  rewrite (Hn e2 eq_refl). reflexivity.
Qed.

Lemma http_log_sent u tb kw s :
  http_log (sent u tb kw s) = (http_log s ++ [mkRequest u (bearer (resolved tb s)) kw])%list.
Proof. reflexivity. Qed.

Lemma http_log_adopted tk s : http_log (adopted tk s) = http_log s.
Proof. reflexivity. Qed.

Lemma refresh_token_http_log_eq s o s' :
  refresh_token E s = (o, s') -> http_log s' = http_log s.
Proof.
  intros H. pose proof (refresh_token_http_log s) as Hl.
  rewrite H in Hl. exact Hl.
Qed.

(** With the fuel of its definition the recursion never runs dry, and it
    sends at most one request per remaining value of [retry_count]. *)
Lemma authorized_get_request_rec_bound fuel u tb rc kw s :
  (Z.to_nat (4 - rc) < fuel)%nat ->
  value (authorized_get_request_rec E fuel u tb rc kw s) <> OutOfFuel /\
  (length (http_log (final (authorized_get_request_rec E fuel u tb rc kw s)))
   <= length (http_log s) + Z.to_nat (4 - rc))%nat.
Proof.
  revert tb rc s. induction fuel as [|fuel IH]; intros tb rc s Hf; [lia|].
  rewrite authorized_get_request_rec_step.
  destruct (3 <? rc)%Z eqn:Hrc.
  { cbn. split; [discriminate | lia]. }
  apply Z.ltb_ge in Hrc.
  assert (Hf' : (Z.to_nat (4 - (rc + 1)) < fuel)%nat) by lia.
  assert (Hn : (S (Z.to_nat (4 - (rc + 1))) = Z.to_nat (4 - rc))%nat) by lia.
  cbv zeta.
  destruct (requests_get E _ _) as [resp|e0].
  - destruct (status_code resp =? 401)%Z.
    + destruct (refresh_token E _) as [[tk|e1|] s3] eqn:Href.
      * apply refresh_token_http_log_eq in Href. cbn in Href.
        destruct (IH (resolved tb s) (rc + 1) (adopted tk s3) Hf') as [H1 H2].
        split; [exact H1|].
        rewrite http_log_adopted, Href, length_app in H2. cbn in H2. lia.
      * apply refresh_token_http_log_eq in Href. cbn in Href.
        destruct (is_ConnectionError e1).
        -- destruct (IH (resolved tb s) (rc + 1) s3 Hf') as [H1 H2].
           split; [exact H1|].
           rewrite Href, length_app in H2. cbn in H2. lia.
        -- cbn. split; [discriminate|].
           rewrite Href, length_app. cbn. lia.
      * exfalso. apply (refresh_token_terminates _ _ Href).
    + cbn. split; [discriminate|]. rewrite length_app. cbn. lia.
  - destruct (is_ConnectionError e0).
    + destruct (IH (resolved tb s) (rc + 1) (sent u tb kw s) Hf') as [H1 H2].
      split; [exact H1|].
      rewrite http_log_sent, length_app in H2. cbn in H2. lia.
    + cbn. split; [discriminate|]. rewrite length_app. cbn. lia.
Qed.




End RequestProperties.




(** Every request of one call carries the token the call resolved at its
    start, whatever the refreshes in between minted. *)
Lemma authorized_get_request_rec_same_header E fuel :
  forall u tb rc kw s t,
    resolved tb s = Some t ->
    exists suffix,
      http_log (final (authorized_get_request_rec E fuel u tb rc kw s))
      = http_log s ++ suffix /\
      Forall (fun rq => authorization rq = bearer (Some t)) suffix.
Proof.
  induction fuel as [|fuel IH]; intros u tb rc kw s t Ht.
  { exists []. rewrite app_nil_r. split; [reflexivity | constructor]. }
  rewrite authorized_get_request_rec_step.
  destruct (3 <? rc)%Z.
  { exists []. rewrite app_nil_r. split; [reflexivity | constructor]. }
  cbv zeta. rewrite Ht.
  assert (Hnext : forall s1,
            http_log s1 = http_log s ++ [mkRequest u (bearer (Some t)) kw] ->
            exists suffix,
              http_log (final (authorized_get_request_rec E fuel u (Some t) (rc + 1) kw s1))
              = http_log s ++ suffix /\
              Forall (fun rq => authorization rq = bearer (Some t)) suffix).
  { intros s1 Hl. destruct (IH u (Some t) (rc + 1) kw s1 t eq_refl) as (suffix & Hs & Hall).
    exists (mkRequest u (bearer (Some t)) kw :: suffix).
    split; [rewrite Hs, Hl, <- app_assoc; reflexivity|].
    constructor; [reflexivity | exact Hall]. }
  assert (Hone : forall (o : outcome Response) s1,
            http_log s1 = http_log s ++ [mkRequest u (bearer (Some t)) kw] ->
            exists suffix,
              http_log (final (o, s1)) = http_log s ++ suffix /\
              Forall (fun rq => authorization rq = bearer (Some t)) suffix).
  { intros o s1 Hl. exists [mkRequest u (bearer (Some t)) kw].
    split; [exact Hl|]. repeat constructor. }
  assert (Hsent : http_log (sent u tb kw s)
                  = http_log s ++ [mkRequest u (bearer (Some t)) kw])
    by (rewrite http_log_sent, Ht; reflexivity).
  destruct (requests_get E _ _) as [resp|e].
  - destruct (status_code resp =? 401)%Z; [|apply Hone; exact Hsent].
    destruct (refresh_token E _) as [[tk|e|] s3] eqn:Href;
      apply refresh_token_http_log_eq in Href; cbn [http_log with_console] in Href.
    + apply Hnext. rewrite http_log_adopted, Href. exact Hsent.
    + destruct (is_ConnectionError e); [apply Hnext | apply Hone];
        rewrite Href; exact Hsent.
    + apply Hone. rewrite Href. exact Hsent.
  - destruct (is_ConnectionError e); [apply Hnext | apply Hone]; exact Hsent.
Qed.

(** C1.  The retry after a 401 does not carry the refreshed token: every
    request of a call carries the token resolved at its start.  At work:
    the catalog rejects the token [stale]; every 401 triggers a refresh that
    mints [fresh], which the catalog would accept, and the request object
    adopts it; yet all four requests of the call carry [stale], and the call
    ends in the too-many-retries error. *)
Theorem rejected_token_is_sent_again :
  (forall E u tb rc kw s t,
     resolved tb s = Some t ->
     exists suffix,
       http_log (final (authorized_get_request E u tb rc kw s)) = http_log s ++ suffix /\
       Forall (fun rq => authorization rq = bearer (Some t)) suffix) /\
  (let r := authorized_get_request env_expired playlists_url None 0 [] st_stale in
   value r = Raise too_many_retries /\
   map authorization (http_log (final r))
   = ["Bearer stale"; "Bearer stale"; "Bearer stale"; "Bearer stale"] /\
   length (sessions_log (final r)) = 4%nat /\
   req_token (request (final r)) = Some "fresh" /\
   token (auth (final r)) = Some "fresh" /\
   requests_get env_expired 1 (mkRequest playlists_url (bearer (Some "fresh")) [])
   = Returns ok_response).
Proof.
  split.
  - intros E u tb rc kw s t Ht. apply authorized_get_request_rec_same_header. exact Ht.
  - vm_compute. repeat split.
Qed.


(** ** The download loop *)

Lemma framed_refl s : framed s s.
Proof.
  exists [], [], (progress_bar s). unfold download_frame.
  rewrite !app_nil_r. destruct s; reflexivity.
Qed.

Lemma framed_trans s1 s2 s3 : framed s1 s2 -> framed s2 s3 -> framed s1 s3.
Proof.
  intros (r1 & o1 & b1 & ->) (r2 & o2 & b2 & ->).
  exists (r1 ++ r2), (o1 ++ o2), b2. unfold download_frame. cbn.
  rewrite !app_assoc. reflexivity.
Qed.

Lemma len_nonneg {A} (l : list A) : 0 <= len l.
Proof. unfold len. lia. Qed.

Lemma len_nil_inv {A} (l : list A) : len l = 0 -> l = [].
Proof. unfold len. destruct l; cbn; [reflexivity | lia]. Qed.

(** One pass through the body of the loop, read off its definition. *)
Lemma download_loop_step fuel track_id total_size v s :
  download_loop (S fuel) set_progress_bar track_id total_size v s =
  if (downloaded v <=? total_size)%Z
  then
    match read (input_stream v) (chunk_size v) with
    | (Raises e, _) =>
        (Raise e, with_reads_log (reads_log s ++ [(chunk_size v, 0)]) s)
    | (Returns data, r') =>
        let downloaded' := downloaded v + len data in
        let v' :=
          mkVars downloaded'
            (if (total_size - downloaded' <? chunk_size v)%Z
             then total_size - downloaded' else chunk_size v)
            (if (len data =? 0)%Z then failCount v + 1 else failCount v)
            (segments v ++ [data]) r' in
        let s' :=
          download_frame s [(chunk_size v, len data)]
            [Progress track_id total_size downloaded']
            (Progress track_id total_size downloaded') in
        if (RETRY_DOWNLOAD <? failCount v')%Z
        then (Ok v', s')
        else download_loop fuel set_progress_bar track_id total_size v' s'
    end
  else (Ok v, s).
Proof.
  cbn [download_loop].
  destruct (downloaded v <=? total_size)%Z; [|reflexivity].
  unfold bind, stream_read.
  destruct (read (input_stream v) (chunk_size v)) as [[data|e] r']; [|reflexivity].
  cbn. destruct (RETRY_DOWNLOAD <? _)%Z; reflexivity.
Qed.

(** The loop ends: with the fuel of [loop_fuel] it never runs dry, whatever
    the stream does. *)
Lemma download_loop_terminates fuel track_id total_size v s :
  (Z.to_nat (total_size - downloaded v + 1)
   + Z.to_nat (RETRY_DOWNLOAD + 1 - failCount v) < fuel)%nat ->
  value (download_loop fuel set_progress_bar track_id total_size v s) <> OutOfFuel.
Proof.
  revert v s. induction fuel as [|fuel IH]; intros v s Hf; [lia|].
  rewrite download_loop_step.
  destruct (downloaded v <=? total_size)%Z eqn:Hd; [|discriminate].
  apply Z.leb_le in Hd.
  destruct (read (input_stream v) (chunk_size v)) as [[data|e] r']; [|discriminate].
  cbv zeta. cbn [failCount].
  pose proof (len_nonneg data) as Hlen.
  destruct (RETRY_DOWNLOAD <? _)%Z eqn:Hbreak; [discriminate|].
  apply Z.ltb_ge in Hbreak. apply IH. cbn [downloaded failCount].
  unfold RETRY_DOWNLOAD in *.
  destruct (len data =? 0)%Z eqn:H0.
  - apply Z.eqb_eq in H0. lia.
  - apply Z.eqb_neq in H0. lia.
Qed.

(** The loop touches nothing but the progress attribute and the records of
    reads and progress calls. *)
Lemma download_loop_framed fuel track_id total_size v s :
  framed s (final (download_loop fuel set_progress_bar track_id total_size v s)).
Proof.
  revert v s. induction fuel as [|fuel IH]; intros v s.
  - apply framed_refl.
  - rewrite download_loop_step.
    destruct (downloaded v <=? total_size)%Z; [|apply framed_refl].
    destruct (read (input_stream v) (chunk_size v)) as [[data|e] r'].
    + cbv zeta.
      assert (Hs : framed s (download_frame s [(chunk_size v, len data)]
                    [Progress track_id total_size (downloaded v + len data)]
                    (Progress track_id total_size (downloaded v + len data))))
        by (eexists _, _, _; reflexivity).
      destruct (RETRY_DOWNLOAD <? _)%Z; [exact Hs|].
      eapply framed_trans; [exact Hs | apply IH].
    + exists [(chunk_size v, 0)], [], (progress_bar s).
      cbn. unfold download_frame. rewrite app_nil_r. destruct s; reflexivity.
Qed.

(** *** A stream that delivers all it is asked for *)

Lemma download_frame_compose s r1 o1 b1 r2 o2 b2 :
  download_frame (download_frame s r1 o1 b1) r2 o2 b2
  = download_frame s (r1 ++ r2) (o1 ++ o2) b2.
Proof. unfold download_frame. cbn. rewrite !app_assoc. reflexivity. Qed.

Lemma read_unscripted bs n :
  read (mkReader bs []) n
  = (Returns (take (Z.to_nat n) bs), mkReader (drop (Z.to_nat n) bs) []).
Proof. reflexivity. Qed.

Lemma running_replicate_zero acc k :
  running acc (replicate k (0, 0)) = replicate k acc.
Proof.
  induction k as [|k IH]; cbn; [reflexivity|].
  rewrite Z.add_0_r, IH. reflexivity.
Qed.

(** An empty read: the counter goes up by one, and the loop is left when
    that makes it exceed [RETRY_DOWNLOAD]. *)
Lemma download_loop_step_empty fuel track_id total v s r' :
  downloaded v <= total ->
  read (input_stream v) (chunk_size v) = (Returns [], r') ->
  download_loop (S fuel) set_progress_bar track_id total v s =
  let v' :=
    mkVars (downloaded v)
      (if (total - downloaded v <? chunk_size v)%Z
       then total - downloaded v else chunk_size v)
      (failCount v + 1) (segments v ++ [[]]) r' in
  let s' :=
    download_frame s [(chunk_size v, 0)]
      [Progress track_id total (downloaded v)]
      (Progress track_id total (downloaded v)) in
  if (RETRY_DOWNLOAD <? failCount v + 1)%Z
  then (Ok v', s')
  else download_loop fuel set_progress_bar track_id total v' s'.
Proof.
  intros Hd Hread. rewrite download_loop_step, Hread.
  apply Z.leb_le in Hd. rewrite Hd. cbv zeta.
  change (len (@nil Byte.byte)) with 0.
  rewrite Z.add_0_r. cbn [failCount]. rewrite Z.eqb_refl. reflexivity.
Qed.

(** A read that delivers bytes: the counter stays as it is. *)
Lemma download_loop_step_data fuel track_id total v s data r' :
  downloaded v <= total ->
  read (input_stream v) (chunk_size v) = (Returns data, r') ->
  data <> [] ->
  download_loop (S fuel) set_progress_bar track_id total v s =
  let downloaded' := downloaded v + len data in
  let v' :=
    mkVars downloaded'
      (if (total - downloaded' <? chunk_size v)%Z
       then total - downloaded' else chunk_size v)
      (failCount v) (segments v ++ [data]) r' in
  let s' :=
    download_frame s [(chunk_size v, len data)]
      [Progress track_id total downloaded']
      (Progress track_id total downloaded') in
  if (RETRY_DOWNLOAD <? failCount v)%Z
  then (Ok v', s')
  else download_loop fuel set_progress_bar track_id total v' s'.
Proof.
  intros Hd Hread Hne. rewrite download_loop_step, Hread.
  apply Z.leb_le in Hd. rewrite Hd. cbv zeta. cbn [failCount].
  destruct (len data =? 0)%Z eqn:H0; [|reflexivity].
  apply Z.eqb_eq, len_nil_inv in H0. contradiction.
Qed.

(** The stream is drained and [k + 1] more empty reads are needed to push
    the counter past [RETRY_DOWNLOAD]. *)
Lemma download_loop_drained k :
  forall fuel track_id total v s,
    input_stream v = mkReader [] [] ->
    downloaded v = total ->
    chunk_size v = 0 ->
    failCount v = 30 - Z.of_nat k ->
    (k < fuel)%nat ->
    download_loop fuel set_progress_bar track_id total v s =
    (Ok (mkVars total 0 31 (segments v ++ replicate (S k) []) (mkReader [] [])),
     download_frame s (replicate (S k) (0, 0))
       (replicate (S k) (Progress track_id total total))
       (Progress track_id total total)).
Proof.
  induction k as [|k IH]; intros fuel track_id total v s Hin Hd Hc Hf Hfuel;
    (destruct fuel as [|fuel]; [lia|]);
    rewrite (download_loop_step_empty fuel track_id total v s (mkReader [] []))
      by (try lia; rewrite Hin, Hc; reflexivity);
    cbv zeta; rewrite Hd, Hc, Hf, Z.sub_diag, Z.ltb_irrefl.
  - reflexivity.
  - replace (RETRY_DOWNLOAD <? 30 - Z.of_nat (S k) + 1)%Z with false
      by (symmetry; apply Z.ltb_ge; unfold RETRY_DOWNLOAD; lia).
    rewrite (IH fuel track_id total); cbn [input_stream downloaded chunk_size failCount segments];
      try reflexivity; try lia.
    rewrite download_frame_compose, <- app_assoc. reflexivity.
Qed.

Lemma map_replicate {A B} (f : A -> B) k x :
  map f (replicate k x) = replicate k (f x).
Proof. induction k as [|k IH]; cbn; [reflexivity | rewrite IH; reflexivity]. Qed.

Lemma concat_replicate_nil {A} k : concat (replicate k (@nil A)) = [].
Proof. induction k as [|k IH]; cbn; [reflexivity | exact IH]. Qed.

Lemma whole_reads_drained n chunk :
  whole_reads n 0 chunk = (chunk, 0) :: replicate 30 (0, 0).
Proof. destruct n; reflexivity. Qed.

Lemma whole_reads_chunk n remaining chunk :
  0 < remaining ->
  whole_reads (S n) remaining chunk
  = (chunk, Z.min chunk remaining) ::
    whole_reads n (remaining - Z.min chunk remaining)
      (if (remaining - Z.min chunk remaining <? chunk)%Z
       then remaining - Z.min chunk remaining else chunk).
Proof.
  intros H. cbn [whole_reads].
  destruct (remaining <=? 0)%Z eqn:Hle; [apply Z.leb_le in Hle; lia | reflexivity].
Qed.

Lemma len_take_to_nat (bs : bytes) c :
  0 <= c -> len (take (Z.to_nat c) bs) = Z.min c (len bs).
Proof. intros H. unfold len. rewrite length_take. lia. Qed.

Lemma len_drop_to_nat (bs : bytes) c :
  0 <= c -> len (drop (Z.to_nat c) bs) = len bs - Z.min c (len bs).
Proof. intros H. unfold len. rewrite length_drop. lia. Qed.

(** The stream has nothing to deliver and the counter is at zero: 31 empty
    reads, the first of the size the loop happened to be at. *)
Lemma download_loop_nothing_left fuel track_id total v s :
  input_stream v = mkReader [] [] ->
  downloaded v = total ->
  0 <= chunk_size v ->
  failCount v = 0 ->
  (30 < fuel)%nat ->
  download_loop fuel set_progress_bar track_id total v s =
  (Ok (mkVars total 0 31 (segments v ++ replicate 31 []) (mkReader [] [])),
   download_frame s ((chunk_size v, 0) :: replicate 30 (0, 0))
     (replicate 31 (Progress track_id total total))
     (Progress track_id total total)).
Proof.
  intros Hin Hd Hc Hf Hfuel. destruct fuel as [|fuel]; [lia|].
  rewrite (download_loop_step_empty fuel track_id total v s (mkReader [] [])).
  - cbv zeta. rewrite Hf, Hd, Z.sub_diag.
    change (RETRY_DOWNLOAD <? 0 + 1)%Z with false. cbv iota.
    rewrite (download_loop_drained 29 fuel track_id total).
    + rewrite download_frame_compose.
      cbn [segments]. rewrite <- app_assoc. reflexivity.
    + reflexivity.
    + reflexivity.
    + cbn [chunk_size].
      destruct (0 <? chunk_size v)%Z eqn:H0; [reflexivity | apply Z.ltb_ge in H0; lia].
    + reflexivity.
    + lia.
  - lia.
  - rewrite Hin, read_unscripted, take_nil, drop_nil. reflexivity.
Qed.

(** The loop on a stream that holds exactly the bytes still missing and
    delivers all it is asked for. *)
Lemma download_loop_whole n :
  forall fuel track_id total v s bs,
    input_stream v = mkReader bs [] ->
    len bs = total - downloaded v ->
    (Z.to_nat (len bs) <= n)%nat ->
    0 <= chunk_size v ->
    (bs <> [] -> 0 < chunk_size v) ->
    failCount v = 0 ->
    (n + 31 < fuel)%nat ->
    exists v',
      download_loop fuel set_progress_bar track_id total v s =
      (Ok v',
       download_frame s (whole_reads n (len bs) (chunk_size v))
         (map (Progress track_id total)
              (running (downloaded v) (whole_reads n (len bs) (chunk_size v))))
         (Progress track_id total total)) /\
      downloaded v' = total /\
      failCount v' = 31 /\
      concat (segments v') = concat (segments v) ++ bs.
Proof.
  induction n as [|n IH]; intros fuel track_id total v s bs Hin Hlen Hn Hc Hpos Hf Hfuel.
  all: destruct fuel as [|fuel]; [lia|].
  all: destruct (decide (bs = [])) as [-> | Hne].
  1,3: (* the stream is drained from the start *)
    change (len (@nil Byte.byte)) with 0 in *;
    assert (Hd : downloaded v = total) by lia;
    rewrite whole_reads_drained;
    rewrite (download_loop_nothing_left (S fuel) track_id total v s Hin Hd Hc Hf)
      by lia;
    eexists; split;
      [ cbn [running map]; rewrite Z.add_0_r, running_replicate_zero, Hd;
        cbn [map]; rewrite map_replicate; reflexivity
      | cbn [downloaded failCount segments];
        rewrite concat_app, concat_replicate_nil, !app_nil_r; auto ].
  - (* no fuel for a chunk: impossible *)
    exfalso. destruct bs; [congruence|]. unfold len in Hn. cbn in Hn. lia.
  - (* a chunk is read *)
    specialize (Hpos Hne).
    assert (Hbs : 0 < len bs) by (destruct bs; [congruence | unfold len; cbn; lia]).
    set (data := take (Z.to_nat (chunk_size v)) bs).
    assert (Hdata : len data = Z.min (chunk_size v) (len bs))
      by (apply len_take_to_nat; lia).
    assert (Hdne : data <> []).
    { intros Heq. rewrite Heq in Hdata. change (len (@nil Byte.byte)) with 0 in Hdata. lia. }
    rewrite (download_loop_step_data fuel track_id total v s data
               (mkReader (drop (Z.to_nat (chunk_size v)) bs) []))
      by (try lia; try exact Hdne; rewrite Hin; reflexivity).
    cbv zeta. rewrite Hf. change (RETRY_DOWNLOAD <? 0)%Z with false. cbv iota.
    rewrite whole_reads_chunk by lia.
    edestruct (IH fuel track_id total
                 (mkVars (downloaded v + len data)
                    (if (total - (downloaded v + len data) <? chunk_size v)%Z
                     then total - (downloaded v + len data) else chunk_size v)
                    0 (segments v ++ [data])
                    (mkReader (drop (Z.to_nat (chunk_size v)) bs) [])))
      as (v' & Hrun & Hd' & Hf' & Hseg).
    + reflexivity.
    + cbn [downloaded]. rewrite len_drop_to_nat by lia. lia.
    + rewrite len_drop_to_nat by lia. lia.
    + cbn [chunk_size]. destruct (_ <? _)%Z eqn:Hlt; lia.
    + cbn [chunk_size]. intros Hrest.
      assert (0 < len (drop (Z.to_nat (chunk_size v)) bs)).
      { destruct (drop (Z.to_nat (chunk_size v)) bs); [congruence | unfold len; cbn; lia]. }
      rewrite len_drop_to_nat in * by lia.
      destruct (_ <? _)%Z eqn:Hlt; lia.
    + reflexivity.
    + lia.
    + exists v'. rewrite Hrun. cbn [downloaded chunk_size segments] in *.
      split; [|split; [exact Hd' | split; [exact Hf'|]]].
      * rewrite download_frame_compose.
        rewrite len_drop_to_nat by lia.
        replace (total - (downloaded v + len data))
          with (len bs - Z.min (chunk_size v) (len bs)) by lia.
        rewrite Hdata. cbn [running map app]. reflexivity.
      * rewrite Hseg, concat_app. cbn. rewrite app_nil_r, <- app_assoc.
        unfold data. rewrite take_drop. reflexivity.
Qed.





(** ** [download_audio] *)

Section DownloadProperties.

Variable E : environment.

Ltac crush_load :=
  unfold load_stream, try_except, content_feeder_load_for, bind, lift, gets, raise,
    final, value;
  cbn;
  repeat match goal with
         | |- context [from_base62 ?e ?t] => destruct (from_base62 e t); cbn
         | |- context [session ?a] => destruct (session a); cbn
         | |- context [content_feeder_load ?a ?b ?c] =>
             destruct (content_feeder_load a b c); cbn
         | |- context [is_StatusCodeException ?e] =>
             destruct (is_StatusCodeException e); cbn
         | |- context [is_Exception ?e] => destruct (is_Exception e); cbn
         end.

Lemma load_stream_state h track_id s :
  final (load_stream E h track_id s) = s.
Proof. crush_load; reflexivity. Qed.

Lemma load_stream_terminates h track_id s :
  value (load_stream E h track_id s) <> OutOfFuel.
Proof. crush_load; discriminate. Qed.

(** [download_audio] in three stages: load, loop, finish E. *)
Lemma download_audio_stages h track_id output_path make_dirs s :
  download_audio E h set_progress_bar track_id output_path make_dirs s =
  match load_stream E h track_id s with
  | (Ok stream, s1) =>
      match download_loop (loop_fuel (size stream) (loop_start stream)) set_progress_bar
              track_id (size stream) (loop_start stream)
              (shown (Progress track_id (size stream) 0) s1) with
      | (Ok v, s2) => finish E h track_id output_path make_dirs v s2
      | (Raise e, s2) => failed E track_id output_path e s2
      | (OutOfFuel, s2) => (OutOfFuel, s2)
      end
  | (Raise e, s1) => failed E track_id output_path e s1
  | (OutOfFuel, s1) => (OutOfFuel, s1)
  end.
Proof.
  unfold download_audio. rewrite try_except_bind.
  destruct (load_stream E h track_id s) as [[stream|e|] s1];
    [|unfold failed; destruct (is_Exception e); reflexivity | reflexivity].
  cbv beta zeta. rewrite try_except_bind.
  change (set_progress_bar (Progress track_id (size stream)
                              (downloaded (mkVars 0 CHUNK_SIZE 0 [] (source stream)))) s1)
    with (Ok tt, shown (Progress track_id (size stream) 0) s1).
  cbv beta iota. rewrite try_except_bind.
  change (mkVars 0 CHUNK_SIZE 0 [] (source stream)) with (loop_start stream).
  destruct (download_loop _ _ _ _ _ _) as [[v|e|] s2];
    [|unfold failed; destruct (is_Exception e); reflexivity | reflexivity].
  unfold finish. apply try_except_handler.
  intros e s' He. unfold failed. rewrite He. reflexivity.
Qed.

Lemma failed_run track_id output_path e s :
  failed E track_id output_path e s
  = if is_Exception e
    then (Ok false, with_console (console s ++ failure_lines E track_id output_path e) s)
    else (Raise e, s).
Proof.
  unfold failed, failure_lines, print, bind, modify, ret, raise, with_console.
  destruct (is_Exception e); [|reflexivity]. cbn.
  rewrite <- !app_assoc. reflexivity.
Qed.

(** The clause adds lines to the console and touches nothing else. *)
Lemma failed_state track_id output_path e s :
  exists lines,
    final (failed E track_id output_path e s) = with_console (console s ++ lines) s.
Proof.
  rewrite failed_run. destruct (is_Exception e).
  - eexists. reflexivity.
  - exists []. cbn. rewrite app_nil_r. destruct s; reflexivity.
Qed.

(** The clause returns [False], or lets through what is no [Exception]. *)
Lemma failed_value track_id output_path e s :
  value (failed E track_id output_path e s) = Ok false \/
  value (failed E track_id output_path e s) = Raise e /\ is_Exception e = false.
Proof.
  rewrite failed_run. destruct (is_Exception e); cbn; auto.
Qed.

(** [finish E], by the outcome of each of its steps. *)
Lemma finish_run h track_id output_path make_dirs v s :
  finish E h track_id output_path make_dirs v s =
  let s1 := shown NoTransfer s in
  match directory_step (fs s) output_path make_dirs with
  | Raises e => failed E track_id output_path e s1
  | Returns f =>
      let call := mkExport (concat (segments v)) output_path (format h) (bitrate_of h) in
      let s2 := with_exports_log (exports_log s ++ [call]) (with_fs f s1) in
      match export_audio E (concat (segments v)) output_path (format h) (bitrate_of h) with
      | Raises e => failed E track_id output_path e s2
      | Returns _ =>
          let s3 := with_fs (mkFs (dirs f) (files f ∪ {[output_path]})) s2 in
          if (anti_ban_wait_time h <? 0)%Z
          then failed E track_id output_path ValueError s3
          else (Ok true, with_sleeps_log (sleeps_log s ++ [anti_ban_wait_time h]) s3)
      end
  end.
Proof.
  assert (Hcaught : forall e s', (if is_Exception e then failed E track_id output_path e s'
                                  else (Raise e, s')) = failed E track_id output_path e s').
  { intros e s'. unfold failed. destruct (is_Exception e); reflexivity. }
  unfold finish, try_except, bind, set_progress_bar, make_output_dirs, directory_step,
    _convert_audio_format, sleep, bitrate_of, modify, gets, lift, ret, raise.
  cbn -[failed].
  destruct make_dirs; cbn -[failed].
  - destruct (mkdir_parents (fs s) (parent output_path)) as [f|e]; cbn -[failed];
      [|apply Hcaught].
    destruct (export_audio E _ _ _ _) as [[]|e]; cbn -[failed]; [|apply Hcaught].
    destruct (anti_ban_wait_time h <? 0)%Z; reflexivity.
  - destruct (path_exists (fs s) (parent output_path)); cbn -[failed]; [|reflexivity].
    destruct (export_audio E _ _ _ _) as [[]|e]; cbn -[failed]; [|apply Hcaught].
    destruct (anti_ban_wait_time h <? 0)%Z; reflexivity.
Qed.

Lemma loop_fuel_enough stream track_id s :
  value (download_loop (loop_fuel (size stream) (loop_start stream)) set_progress_bar
           track_id (size stream) (loop_start stream) s) <> OutOfFuel.
Proof. apply download_loop_terminates. unfold loop_fuel. lia. Qed.

(** [finish E] returns a boolean, or raises what is no [Exception]; it
    leaves the records of reads alone, and the observer sees the terminal
    signal. *)
Lemma finish_returns h track_id output_path make_dirs v s :
  (value (finish E h track_id output_path make_dirs v s) = Ok true \/
   value (finish E h track_id output_path make_dirs v s) = Ok false \/
   exists e, value (finish E h track_id output_path make_dirs v s) = Raise e /\
             is_Exception e = false) /\
  reads_log (final (finish E h track_id output_path make_dirs v s)) = reads_log s /\
  observed (final (finish E h track_id output_path make_dirs v s))
  = observed s ++ [NoTransfer] /\
  progress_bar (final (finish E h track_id output_path make_dirs v s)) = NoTransfer.
Proof.
  rewrite finish_run. cbv zeta.
  destruct (directory_step (fs s) output_path make_dirs) as [f|e];
    [|rewrite failed_run; destruct (is_Exception e) eqn:He; cbn; eauto 10].
  destruct (export_audio E _ _ _ _) as [[]|e];
    [|rewrite failed_run; destruct (is_Exception e) eqn:He; cbn; eauto 10].
  destruct (anti_ban_wait_time h <? 0)%Z; [rewrite failed_run|]; cbn; auto.
Qed.

(** [download_audio] always returns: a boolean, or an exception that is no
    [Exception]. *)
Lemma download_audio_returns h track_id output_path make_dirs s :
  value (download_audio E h set_progress_bar track_id output_path make_dirs s) = Ok true \/
  value (download_audio E h set_progress_bar track_id output_path make_dirs s) = Ok false \/
  exists e,
    value (download_audio E h set_progress_bar track_id output_path make_dirs s) = Raise e /\
    is_Exception e = false.
Proof.
  rewrite download_audio_stages.
  pose proof (load_stream_terminates h track_id s) as Hl.
  destruct (load_stream E h track_id s) as [[stream|e|] s1]; cbn in Hl.
  - pose proof (loop_fuel_enough stream track_id
                  (shown (Progress track_id (size stream) 0) s1)) as Hloop.
    destruct (download_loop _ _ _ _ _ _) as [[v|e|] s2]; cbn in Hloop.
    + apply finish_returns.
    + rewrite failed_run. destruct (is_Exception e) eqn:He; cbn; eauto.
    + congruence.
  - rewrite failed_run. destruct (is_Exception e) eqn:He; cbn; eauto.
  - congruence.
Qed.

(** A download from a stream that delivers all it is asked for: the reads,
    the progress calls, and the bytes that reach the encoder. *)
Lemma download_audio_whole h track_id output_path make_dirs s stream :
  value (load_stream E h track_id s) = Ok stream ->
  delivers_all stream ->
  let r := download_audio E h set_progress_bar track_id output_path make_dirs s in
  reads_log (final r) = reads_log s ++ download_reads (size stream) /\
  observed (final r)
  = observed s
    ++ Progress track_id (size stream) 0
       :: map (Progress track_id (size stream)) (running 0 (download_reads (size stream)))
    ++ [NoTransfer] /\
  (exports_log (final r) = exports_log s \/
   exports_log (final r)
   = exports_log s
     ++ [mkExport (pending (source stream)) output_path (format h) (bitrate_of h)]).
Proof.
  intros Hload [Hscript Hsize] r. subst r.
  rewrite download_audio_stages.
  pose proof (load_stream_state h track_id s) as Hst.
  destruct (load_stream E h track_id s) as [[stream'|e|] s1]; cbn in Hload, Hst;
    try discriminate.
  injection Hload as ->. subst s1.
  pose proof (len_nonneg (pending (source stream))) as Hnn.
  destruct (download_loop_whole (Z.to_nat (size stream))
              (loop_fuel (size stream) (loop_start stream)) track_id (size stream)
              (loop_start stream) (shown (Progress track_id (size stream) 0) s)
              (pending (source stream)))
    as (v' & Hrun & Hd & Hf & Hseg).
  - cbn. destruct (source stream) as [bs sc]. cbn in *. subst sc. reflexivity.
  - cbn. lia.
  - lia.
  - cbn. unfold CHUNK_SIZE. lia.
  - intros _. cbn. unfold CHUNK_SIZE. lia.
  - reflexivity.
  - unfold loop_fuel. cbn [downloaded failCount loop_start]. unfold RETRY_DOWNLOAD. lia.
  - rewrite Hrun. rewrite Hsize. cbn [chunk_size downloaded loop_start] in *.
    fold (download_reads (size stream)).
    destruct (finish_returns h track_id output_path make_dirs v'
                (download_frame (shown (Progress track_id (size stream) 0) s)
                   (download_reads (size stream))
                   (map (Progress track_id (size stream))
                      (running 0 (download_reads (size stream))))
                   (Progress track_id (size stream) (size stream))))
      as (_ & Hreads & Hobs & _).
    split; [rewrite Hreads; reflexivity|].
    split.
    + rewrite Hobs. cbn. rewrite <- !app_assoc. reflexivity.
    + rewrite finish_run. cbv zeta. cbn [segments loop_start] in Hseg. cbn in Hseg.
      rewrite Hseg.
      destruct (directory_step _ _ _) as [f|e];
        [|rewrite failed_run; destruct (is_Exception e); left; reflexivity].
      destruct (export_audio E _ _ _ _) as [[]|e];
        [|rewrite failed_run; destruct (is_Exception e); right; reflexivity].
      destruct (anti_ban_wait_time h <? 0)%Z; [rewrite failed_run|]; right; reflexivity.
Qed.

Lemma is_dir_true f p : is_dir f p = true <-> p = [] \/ p ∈ dirs f.
Proof.
  unfold is_dir. rewrite orb_true_iff, !bool_decide_eq_true. reflexivity.
Qed.

Lemma lineage_self p : p <> [] -> p ∈ lineage p.
Proof.
  intros Hne. unfold lineage. apply list_elem_of_In, in_map_iff.
  exists (length p). split; [apply firstn_all|].
  apply in_seq. destruct p; [congruence | cbn; lia].
Qed.

(** [mkdir(parents=True, exist_ok=True)], when it returns: the directory
    exists, with every ancestor if it had to be made, and nothing that was
    there is lost. *)
Lemma mkdir_parents_spec f p f' :
  mkdir_parents f p = Returns f' ->
  is_dir f' p = true /\
  (is_dir f p = false -> forall d, d ∈ lineage p -> is_dir f' d = true) /\
  (forall d, is_dir f d = true -> is_dir f' d = true) /\
  files f' = files f.
Proof.
  unfold mkdir_parents. destruct (is_dir f p) eqn:Hd.
  - intros [= <-]. repeat split; auto. discriminate.
  - destruct (is_file f p); [discriminate|].
    destruct (existsb (is_file f) (lineage p)); [discriminate|].
    intros [= <-].
    assert (Hlin : forall d, d ∈ lineage p ->
               is_dir (mkFs (dirs f ∪ list_to_set (lineage p)) (files f)) d = true).
    { intros d Hin. apply is_dir_true. right. cbn.
      apply elem_of_union_r, elem_of_list_to_set. exact Hin. }
    repeat split.
    + apply Hlin, lineage_self. intros ->. discriminate.
    + intros _. exact Hlin.
    + intros d Hdir. apply is_dir_true in Hdir. apply is_dir_true.
      destruct Hdir as [-> | Hin]; [left; reflexivity | right; cbn; set_solver].
Qed.

(** [mkdir] succeeds when no file is in the way. *)
Lemma mkdir_parents_returns f p :
  existsb (is_file f) (lineage p) = false -> exists f', mkdir_parents f p = Returns f'.
Proof.
  intros Hfree. unfold mkdir_parents. rewrite Hfree.
  destruct (is_dir f p) eqn:Hd; [eauto|].
  destruct (is_file f p) eqn:Hf; [|eauto].
  assert (Hin : existsb (is_file f) (lineage p) = true).
  { apply existsb_exists. exists p. split; [|exact Hf].
    apply list_elem_of_In, lineage_self. intros ->. discriminate. }
  congruence.
Qed.

(** [mkdir] raises an [Exception] when it raises. *)
Lemma directory_step_raises f output_path make_dirs e :
  directory_step f output_path make_dirs = Raises e -> is_Exception e = true.
Proof.
  unfold directory_step, mkdir_parents.
  repeat match goal with
         | |- context [if ?b then _ else _] => destruct b
         end; intros [= <-]; reflexivity.
Qed.

(** A download whose stream was loaded and read, from the end of the loop
    on. *)
Lemma download_audio_finished h track_id output_path make_dirs s stream v s2 :
  value (load_stream E h track_id s) = Ok stream ->
  download_loop (loop_fuel (size stream) (loop_start stream)) set_progress_bar
    track_id (size stream) (loop_start stream)
    (shown (Progress track_id (size stream) 0) s) = (Ok v, s2) ->
  download_audio E h set_progress_bar track_id output_path make_dirs s
  = finish E h track_id output_path make_dirs v s2 /\
  framed s s2.
Proof.
  intros Hload Hloop. rewrite download_audio_stages.
  pose proof (load_stream_state h track_id s) as Hst.
  destruct (load_stream E h track_id s) as [[stream'|e|] s1]; cbn in Hload, Hst;
    try discriminate.
  injection Hload as ->. subst s1. rewrite Hloop. split; [reflexivity|].
  pose proof (download_loop_framed (loop_fuel (size stream) (loop_start stream))
                track_id (size stream) (loop_start stream)
                (shown (Progress track_id (size stream) 0) s)) as Hfr.
  rewrite Hloop in Hfr. eapply framed_trans; [|exact Hfr].
  exists [], [Progress track_id (size stream) 0], (Progress track_id (size stream) 0).
  unfold download_frame, shown, with_progress_bar, with_observed. cbn.
  rewrite app_nil_r. reflexivity.
Qed.

End DownloadProperties.



(** The counter is not a count of consecutive empty reads: 15 stalls, a
    read of 5 bytes and 16 more stalls end the loop, with 5 of the 10 bytes
    downloaded. *)
Example stalls_add_up :
  let r := download_audio env_plain handler_free set_progress_bar "X" song_path true
             (st_feeding stalling_stream) in
  map snd (reads_log (final r)) = replicate 15 0 ++ [5] ++ replicate 16 0 /\
  map (fun c => len (exp_audio c)) (exports_log (final r)) = [5] /\
  value r = Ok true.
Proof. vm_compute. repeat split. Qed.

(** C5 (amended).  For a stream of 120000 bytes that delivers all it is
    asked for, with the chunk size of 50000, the reads are 50000, 50000 and
    a read shrunk to 20000, followed by 31 reads of size 0 that deliver
    nothing; the counter reported to the observer goes 0, 50000, 100000 and
    then stays at 120000, the total, until the terminal signal; and the
    encoder, if it is reached, is handed exactly the bytes of the stream. *)
Theorem download_audio_reads_120000 (E : environment) (h : RespotTrackHandler)
    (track_id : string) (output_path : path) (make_dirs : bool) (s : state)
    (stream : LoadedStream) :
  value (load_stream E h track_id s) = Ok stream ->
  delivers_all stream ->
  size stream = 120000 ->
  let r := download_audio E h set_progress_bar track_id output_path make_dirs s in
  CHUNK_SIZE = 50000 /\
  reads_log (final r)
  = reads_log s ++ [(50000, 50000); (50000, 50000); (20000, 20000)]
    ++ replicate 31 (0, 0) /\
  observed (final r)
  = observed s
    ++ [Progress track_id 120000 0; Progress track_id 120000 50000;
        Progress track_id 120000 100000]
    ++ replicate 32 (Progress track_id 120000 120000) ++ [NoTransfer] /\
  (exports_log (final r) = exports_log s \/
   exports_log (final r)
   = exports_log s
     ++ [mkExport (pending (source stream)) output_path (format h) (bitrate_of h)]).
Proof.
  intros Hload Hall Hsize r.
  destruct (download_audio_whole E h track_id output_path make_dirs s stream Hload Hall)
    as (Hreads & Hobs & Hexp).
  fold r in Hreads, Hobs, Hexp. rewrite Hsize in Hreads, Hobs.
  assert (Hplan : download_reads 120000
                  = [(50000, 50000); (50000, 50000); (20000, 20000)] ++ replicate 31 (0, 0))
    by (vm_compute; reflexivity).
  rewrite Hplan in Hreads, Hobs.
  split; [reflexivity|]. split; [exact Hreads|]. split; [|exact Hexp].
  rewrite Hobs. f_equal.
Qed.

(** The theorem at a concrete stream of 120000 bytes. *)
Lemma download_audio_reads_120000_witness :
  value (load_stream env_plain handler_free "X" (st_feeding (whole_stream 120000)))
  = Ok (whole_stream 120000) /\
  delivers_all (whole_stream 120000) /\
  size (whole_stream 120000) = 120000 /\
  reads_log (final (download_audio env_plain handler_free set_progress_bar "X"
                      song_path true (st_feeding (whole_stream 120000))))
  = [] ++ [(50000, 50000); (50000, 50000); (20000, 20000)] ++ replicate 31 (0, 0).
Proof.
  assert (Hload : value (load_stream env_plain handler_free "X"
                           (st_feeding (whole_stream 120000)))
                  = Ok (whole_stream 120000)) by reflexivity.
  assert (Hall : delivers_all (whole_stream 120000)) by (split; vm_compute; reflexivity).
  split; [exact Hload|]. split; [exact Hall|]. split; [reflexivity|].
  exact (proj1 (proj2 (download_audio_reads_120000 env_plain handler_free "X" song_path true
                         (st_feeding (whole_stream 120000)) (whole_stream 120000)
                         Hload Hall eq_refl))).
Defined.

(** C5 as stated fails: the read of 20000 is not the last read, and the
    reads are not the three chunks. *)
Lemma reads_go_on_after_last_chunk :
  let r := download_audio env_plain handler_free set_progress_bar "X" song_path true
             (st_feeding (whole_stream 120000)) in
  map fst (reads_log (final r)) <> [50000; 50000; 20000] /\
  length (reads_log (final r)) = 34%nat /\
  last (reads_log (final r)) = Some (0, 0).
Proof. vm_compute. repeat split. discriminate. Qed.

(** C3 (amended).  A read that returns zero bytes adds one to the
    empty-read counter, and the loop is left as soon as the counter exceeds
    30; the loop, and the whole download, always end: the download returns
    a boolean, or it raises an exception that is no [Exception].  Leaving
    the loop this way is not a failure: whatever the counter, the download
    goes on to the output directory and the encoder with the bytes it has,
    and it returns [True] exactly when the directory step, the encoder and
    the wait all succeed; otherwise it returns [False], unless the encoder
    raised what is no [Exception], which it lets through. *)
Theorem empty_reads_end_the_loop (E : environment) (h : RespotTrackHandler)
    (track_id : string) (output_path : path) (make_dirs : bool) (s : state) :
  let r := download_audio E h set_progress_bar track_id output_path make_dirs s in
  (value r = Ok true \/ value r = Ok false \/
   exists e, value r = Raise e /\ is_Exception e = false) /\
  (forall fuel total v s0 r',
     downloaded v <= total ->
     read (input_stream v) (chunk_size v) = (Returns [], r') ->
     let pass := download_loop (S fuel) set_progress_bar track_id total v s0 in
     (RETRY_DOWNLOAD < failCount v + 1 ->
      exists v', value pass = Ok v' /\ failCount v' = failCount v + 1 /\
                 reads_log (final pass) = reads_log s0 ++ [(chunk_size v, 0)]) /\
     (failCount v + 1 <= RETRY_DOWNLOAD ->
      exists v' s', pass = download_loop fuel set_progress_bar track_id total v' s' /\
                    failCount v' = failCount v + 1)) /\
  (forall stream v s2,
     value (load_stream E h track_id s) = Ok stream ->
     download_loop (loop_fuel (size stream) (loop_start stream)) set_progress_bar
       track_id (size stream) (loop_start stream)
       (shown (Progress track_id (size stream) 0) s) = (Ok v, s2) ->
     (value r = Ok true <->
      (exists f, directory_step (fs s) output_path make_dirs = Returns f) /\
      export_audio E (concat (segments v)) output_path (format h) (bitrate_of h)
      = Returns tt /\
      0 <= anti_ban_wait_time h) /\
     (value r = Ok true \/ value r = Ok false \/
      exists e,
        export_audio E (concat (segments v)) output_path (format h) (bitrate_of h)
        = Raises e /\
        is_Exception e = false /\ value r = Raise e)).
Proof.
  intros r. split; [apply download_audio_returns|]. split.
  - intros fuel total v s0 r' Hd Hread pass. subst pass.
    rewrite (download_loop_step_empty fuel track_id total v s0 r' Hd Hread). cbv zeta.
    split; intros Hc.
    + apply Z.ltb_lt in Hc. rewrite Hc. eexists. cbn. repeat split.
    + apply Z.ltb_ge in Hc. rewrite Hc. eexists _, _. split; reflexivity.
  - intros stream v s2 Hload Hloop. subst r.
    rewrite download_audio_stages.
    pose proof (load_stream_state E h track_id s) as Hst.
    destruct (load_stream E h track_id s) as [[stream'|e|] s1]; cbn in Hload, Hst;
      try discriminate.
    injection Hload as ->. subst s1. rewrite Hloop.
    pose proof (download_loop_framed (loop_fuel (size stream) (loop_start stream))
                  track_id (size stream) (loop_start stream)
                  (shown (Progress track_id (size stream) 0) s)) as Hfr.
    rewrite Hloop in Hfr. destruct Hfr as (rd & sh & bar & Hs2).
    cbn in Hs2. subst s2.
    rewrite finish_run. cbv zeta. cbn [fs download_frame shown with_progress_bar with_observed].
    destruct (directory_step (fs s) output_path make_dirs) as [f|e] eqn:Hstep.
    + destruct (export_audio E _ _ _ _) as [[]|e].
      * destruct (anti_ban_wait_time h <? 0)%Z eqn:Hw.
        -- rewrite failed_run. cbn. apply Z.ltb_lt in Hw.
           split; [|auto].
           split; [discriminate | intros (_ & _ & ?); lia].
        -- apply Z.ltb_ge in Hw. cbn. split; [|auto]. split; [|reflexivity].
           intros _. repeat split; eauto.
      * rewrite failed_run. destruct (is_Exception e) eqn:He; cbn.
        -- split; [|auto].
           split; [discriminate | intros (_ & ? & _); discriminate].
        -- split; [|eauto 10].
           split; [discriminate | intros (_ & ? & _); discriminate].
    + assert (He : is_Exception e = true).
      { revert Hstep. unfold directory_step, mkdir_parents.
        repeat match goal with
               | |- context [if ?b then _ else _] => destruct b
               end; intros [= <-]; reflexivity. }
      rewrite failed_run, He. cbn. split; [|auto].
      split; [discriminate | intros ([f Hf] & _); discriminate].
Qed.

(** C3 as stated fails: the counter exceeds 30 in a download that delivers
    every byte, and in one that is cut short, and both report success. *)
Lemma abandoned_loop_reports_success :
  (let r := download_audio env_plain handler_free set_progress_bar "X" song_path true
              (st_feeding (whole_stream 10)) in
   empty_reads (reads_log (final r)) = 31 /\
   value r = Ok true /\ value r <> Ok false) /\
  (let r := download_audio env_plain handler_free set_progress_bar "X" song_path true
              (st_feeding (short_stream 100 40)) in
   empty_reads (reads_log (final r)) = 31 /\
   map (fun c => len (exp_audio c)) (exports_log (final r)) = [40] /\
   value r = Ok true /\ value r <> Ok false).
Proof. vm_compute. repeat split; discriminate. Qed.

(** C9.  The output directory, in a download whose stream was loaded and
    read.  With [make_dirs] set and no file in the way, the directory of
    the output path is there after the download, together with every
    ancestor when it had to be made, the directories of before are kept,
    and the encoder is called; with a file in the way the download returns
    [False] and the encoder is not called.  With [make_dirs] not set and
    the directory missing, the download returns [False] (it does not
    raise), the encoder is not called, the file system is left as it was,
    and what is printed is the missing-directory error; with the directory
    there, no directory is made and the encoder is called. *)
Theorem output_directory_is_resolved (E : environment) (h : RespotTrackHandler)
    (track_id : string) (output_path : path) (s : state)
    (stream : LoadedStream) (v : loop_vars) (s2 : state) :
  value (load_stream E h track_id s) = Ok stream ->
  download_loop (loop_fuel (size stream) (loop_start stream)) set_progress_bar
    track_id (size stream) (loop_start stream)
    (shown (Progress track_id (size stream) 0) s) = (Ok v, s2) ->
  let call := mkExport (concat (segments v)) output_path (format h) (bitrate_of h) in
  let missing :=
    FileNotFoundError
      (Some ("Directory " +:+ path_str (parent output_path) +:+ " does not exist")) in
  (let r := download_audio E h set_progress_bar track_id output_path true s in
   (existsb (is_file (fs s)) (lineage (parent output_path)) = false ->
    is_dir (fs (final r)) (parent output_path) = true /\
    (is_dir (fs s) (parent output_path) = false ->
     forall d, d ∈ lineage (parent output_path) -> is_dir (fs (final r)) d = true) /\
    (forall d, is_dir (fs s) d = true -> is_dir (fs (final r)) d = true) /\
    exports_log (final r) = exports_log s ++ [call]) /\
   (is_dir (fs s) (parent output_path) = false ->
    existsb (is_file (fs s)) (lineage (parent output_path)) = true ->
    value r = Ok false /\ fs (final r) = fs s /\ exports_log (final r) = exports_log s)) /\
  (let r := download_audio E h set_progress_bar track_id output_path false s in
   (path_exists (fs s) (parent output_path) = false ->
    value r = Ok false /\
    fs (final r) = fs s /\
    exports_log (final r) = exports_log s /\
    console (final r) = console s ++ failure_lines E track_id output_path missing /\
    exn_str E missing
    = "Directory " +:+ path_str (parent output_path) +:+ " does not exist") /\
   (path_exists (fs s) (parent output_path) = true ->
    dirs (fs (final r)) = dirs (fs s) /\
    exports_log (final r) = exports_log s ++ [call])).
Proof.
  intros Hload Hloop call missing. subst call missing.
  assert (Hfin : forall make_dirs,
            download_audio E h set_progress_bar track_id output_path make_dirs s
            = finish E h track_id output_path make_dirs v s2)
    by (intros make_dirs;
        apply (download_audio_finished E h track_id output_path make_dirs s stream v s2
                 Hload Hloop)).
  destruct (download_audio_finished E h track_id output_path true s stream v s2 Hload Hloop)
    as (_ & rd & sh & bar & ->).
  split.
  - cbv zeta. rewrite Hfin, finish_run. cbv zeta.
    cbn [fs download_frame shown with_progress_bar with_observed exports_log].
    unfold directory_step. split.
    + intros Hfree.
      destruct (mkdir_parents_returns (fs s) (parent output_path) Hfree) as [f Hmk].
      rewrite Hmk.
      destruct (mkdir_parents_spec _ _ _ Hmk) as (Hdir & Hlin & Hkeep & _).
      destruct (export_audio E _ _ _ _) as [[]|e].
      * destruct (anti_ban_wait_time h <? 0)%Z; [rewrite failed_run|]; cbn; auto.
      * rewrite failed_run. destruct (is_Exception e); cbn; auto.
    + intros Hnone Hfile. unfold mkdir_parents. rewrite Hnone, Hfile.
      destruct (is_file (fs s) (parent output_path)); rewrite failed_run; cbn; auto.
  - cbv zeta. rewrite Hfin, finish_run. cbv zeta.
    cbn [fs download_frame shown with_progress_bar with_observed exports_log].
    unfold directory_step. split.
    + intros Hmissing. rewrite Hmissing, failed_run. cbn. auto.
    + intros Hthere. rewrite Hthere.
      destruct (export_audio E _ _ _ _) as [[]|e].
      * destruct (anti_ban_wait_time h <? 0)%Z; [rewrite failed_run|]; cbn; auto.
      * rewrite failed_run. destruct (is_Exception e); cbn; auto.
Qed.

(** Both cases of the directory step at work. *)
Example output_directory_runs :
  (let r := download_audio env_plain handler_free set_progress_bar "X" song_path true
              (st_feeding (whole_stream 10)) in
   value r = Ok true /\
   is_dir (fs (final r)) ["music"; "album"] = true /\
   is_file (fs (final r)) song_path = true) /\
  (let r := download_audio env_plain handler_free set_progress_bar "X" song_path false
              (st_feeding (whole_stream 10)) in
   value r = Ok false /\
   is_dir (fs (final r)) ["music"; "album"] = false /\
   exports_log (final r) = [] /\
   console (final r)
   = [ "###   download_track - FAILED TO DOWNLOAD   ###";
       "Directory music/album does not exist";
       "X music/album/X.mp3" ]).
Proof. vm_compute. repeat split. Qed.

(** ** Login *)

Ltac crush_auth :=
  repeat (cbn;
    match goal with
    | |- context [mkdir_parents ?f ?p] => destruct (mkdir_parents f p) eqn:?
    | |- context [create_session ?e ?n ?m] => destruct (create_session e n m) as [[?|?] []] eqn:?
    | |- context [rename_file ?f ?a ?b] => destruct (rename_file f a b) eqn:?
    | |- context [unlink_file ?f ?p] => destruct (unlink_file f p) eqn:?
    | |- context [tokens_get ?a ?b] => destruct (tokens_get a b) eqn:?
    | |- context [is_RuntimeError ?e] => destruct (is_RuntimeError e) eqn:?
    | |- context [if path_exists ?f ?p then _ else _] => destruct (path_exists f p) eqn:?
    | |- context [if is_file ?f ?p then _ else _] => destruct (is_file f p) eqn:?
    | |- context [if (?a || ?b)%bool then _ else _] => destruct (a || b)%bool eqn:?
    end).

Lemma check_premium_selects s sess :
  session (auth s) = Some sess ->
  value (_check_premium s) = Ok tt /\
  quality (auth (final (_check_premium s))) = Some (tier_of sess (force_premium (auth s))) /\
  session (auth (final (_check_premium s))) = Some sess /\
  force_premium (auth (final (_check_premium s))) = force_premium (auth s).
Proof.
  intros Hs. unfold _check_premium, tier_of, bind, gets, modify, print, value, final.
  cbn. rewrite Hs.
  destruct (is_premium_type _ || force_premium (auth s))%bool; cbn; rewrite ?Hs; auto.
Qed.

Lemma refresh_token_keeps_quality E s :
  quality (auth (final (refresh_token E s))) = quality (auth s) /\
  force_premium (auth (final (refresh_token E s))) = force_premium (auth s).
Proof.
  unfold refresh_token, Session_create, final, bind, gets, modify, lift, ret.
  crush_auth; auto.
Qed.

Lemma mkdir_parents_files f p f' :
  mkdir_parents f p = Returns f' -> forall q, is_file f' q = is_file f q.
Proof.
  intros H q. destruct (mkdir_parents_spec f p f' H) as (_ & _ & _ & Hf).
  unfold is_file. rewrite Hf. reflexivity.
Qed.

(** C8.  [login()] with no arguments, where the directory of the
    credential file is there or can be made.  When the credential file
    exists, [login] creates a session from that file; if the session
    creation fails with a [RuntimeError], [login] returns [False], and if it
    fails with an exception of another class, [login] raises that exception.
    Where [credentials.json] in the working directory is no directory, so
    that it can be removed, the same goes for a failure of the minting of a
    token, and [login] returns [True] if nothing fails.  When no credential
    file exists and username and password are not both given, [login]
    returns [False] without any authentication attempt.  At work: librespot
    rejects the stored credentials with its own exception class, and
    [login()] raises it. *)
Theorem login_reauthenticates_silently (E : environment) (s : state) (f : filesystem) :
  mkdir_parents (fs s) (parent (credentials (auth s))) = Returns f ->
  let creds := credentials (auth s) in
  let n := length (sessions_log s) in
  (is_file (fs s) creds = true ->
   let r := login E None None s in
   sessions_log (final r) = sessions_log s ++ [stored_file creds] /\
   (forall e w,
      create_session E n (stored_file creds) = (Raises e, w) ->
      value r = if is_RuntimeError e then Ok false else Raise e) /\
   (is_dir f local_credentials = false ->
    (forall sess w e,
       create_session E n (stored_file creds) = (Returns sess, w) ->
       tokens_get sess "user-read-email" = Raises e \/
       (exists t, tokens_get sess "user-read-email" = Returns t /\
                  tokens_get sess "user-library-read" = Raises e) ->
       value r = if is_RuntimeError e then Ok false else Raise e) /\
    (forall sess w t l,
       create_session E n (stored_file creds) = (Returns sess, w) ->
       tokens_get sess "user-read-email" = Returns t ->
       tokens_get sess "user-library-read" = Returns l ->
       value r = Ok true))) /\
  (is_file (fs s) creds = false ->
   forall username password,
     truthy username && truthy password = false ->
     login E username password s = (Ok false, with_fs f s)) /\
  (is_file (fs st_returning) (credentials (auth st_returning)) = true /\
   create_session env_rejected 0 (stored_file (credentials (auth st_returning)))
   = (Raises (OtherException "SpotifyAuthenticationException"), false) /\
   is_Exception (OtherException "SpotifyAuthenticationException") = true /\
   value (login env_rejected None None st_returning)
   = Raise (OtherException "SpotifyAuthenticationException")).
Proof.
  intros Hmk creds n. subst creds n.
  pose proof (mkdir_parents_files _ _ _ Hmk (credentials (auth s))) as Hfile.
  split; [|split].
  - intros Hstored r. subst r.
    unfold login, _ensure_credentials_directory, _has_stored_credentials,
      _authenticate_with_stored_credentials, try_except, refresh_token, Session_create,
      _check_premium, print, bind, gets, modify, lift, ret, raise, value, final.
    cbn. rewrite Hmk. cbn. rewrite Hfile, Hstored. cbn.
    split; [|split].
    + crush_auth; reflexivity.
    + intros e w Hc. rewrite Hc. destruct w; cbn; destruct (is_RuntimeError e); reflexivity.
    + intros Hdir. split.
      * intros sess w e Hc [Ht | (t & Ht & Hl)]; rewrite Hc; destruct w; cbn;
          (destruct (path_exists _ _) eqn:Hex; cbn;
           [rewrite unlink_file_removes by (exact Hdir || exact Hex); cbn|]);
          rewrite Ht; cbn; rewrite ?Hl; cbn;
          destruct (is_RuntimeError e); reflexivity.
      * intros sess w t l Hc Ht Hl. rewrite Hc. destruct w; cbn;
          (destruct (path_exists _ _) eqn:Hex; cbn;
           [rewrite unlink_file_removes by (exact Hdir || exact Hex); cbn|]);
          rewrite Ht; cbn; rewrite Hl; cbn;
          destruct (is_premium_type _ || _)%bool; reflexivity.
  - intros Hnone username password Hcred.
    unfold login, _ensure_credentials_directory, _has_stored_credentials,
      bind, gets, modify, lift, ret.
    cbn. rewrite Hmk. cbn. rewrite Hfile, Hnone.
    destruct username, password; try reflexivity.
    rewrite Hcred. reflexivity.
  - vm_compute. repeat split.
Qed.

(** The theorem at a [RuntimeError] of librespot: [login()] is [False]. *)
Lemma login_reauthenticates_silently_witness :
  mkdir_parents (fs st_returning) (parent (credentials (auth st_returning)))
  = Returns fs_with_credentials /\
  is_file (fs st_returning) (credentials (auth st_returning)) = true /\
  value (login env_broken None None st_returning) = Ok false.
Proof.
  assert (Hmk : mkdir_parents (fs st_returning) (parent (credentials (auth st_returning)))
                = Returns fs_with_credentials) by (vm_compute; reflexivity).
  assert (Hfile : is_file (fs st_returning) (credentials (auth st_returning)) = true)
    by (vm_compute; reflexivity).
  split; [exact Hmk|]. split; [exact Hfile|].
  destruct (login_reauthenticates_silently env_broken st_returning fs_with_credentials Hmk)
    as [Hstored _].
  destruct (Hstored Hfile) as (_ & Hfail & _).
  exact (Hfail (RuntimeError "Failed reading packet!") false eq_refl).
Defined.

(** ** Tier and bitrate *)

Lemma login_selects_tier E username password s :
  value (login E username password s) = Ok true ->
  exists sess,
    session (auth (final (login E username password s))) = Some sess /\
    quality (auth (final (login E username password s)))
    = Some (tier_of sess (force_premium (auth s))).
Proof.
  unfold login, _ensure_credentials_directory, _has_stored_credentials,
    _authenticate_with_stored_credentials, _authenticate_with_user_pass,
    _persist_credentials_file, try_except, refresh_token, Session_create,
    _check_premium, print, bind, gets, modify, lift, ret, raise, value, final, tier_of.
  destruct username as [u|], password as [p|];
    try destruct (truthy (Some u) && truthy (Some p))%bool;
    crush_auth; try discriminate; intros _;
    eexists; (split; [reflexivity|]); cbn;
    repeat match goal with H : (_ || _)%bool = _ |- _ => rewrite H end;
    reflexivity.
Qed.

Lemma authorized_get_request_rec_keeps_quality E fuel :
  forall u tb rc kw s,
    quality (auth (final (authorized_get_request_rec E fuel u tb rc kw s)))
    = quality (auth s).
Proof.
  induction fuel as [|fuel IH]; intros u tb rc kw s; [reflexivity|].
  rewrite authorized_get_request_rec_step.
  destruct (3 <? rc)%Z; [reflexivity|]. cbv zeta.
  destruct (requests_get E _ _) as [resp|e].
  - destruct (status_code resp =? 401)%Z; [|reflexivity].
    pose proof (refresh_token_keeps_quality E
                  (with_console (console (sent u tb kw s) ++ [refreshing_line])
                     (sent u tb kw s))) as [Hq _].
    destruct (refresh_token E _) as [[tk|e|] s3]; cbn in Hq.
    + rewrite IH. exact Hq.
    + destruct (is_ConnectionError e); [rewrite IH|]; exact Hq.
    + exact Hq.
  - destruct (is_ConnectionError e); [rewrite IH|]; reflexivity.
Qed.

(** What a download leaves of the [auth] object and of the encoder's
    record. *)
Lemma download_audio_effects E h track_id output_path make_dirs s :
  let r := download_audio E h set_progress_bar track_id output_path make_dirs s in
  auth (final r) = auth s /\
  (exports_log (final r) = exports_log s \/
   exists audio_bytes,
     exports_log (final r)
     = exports_log s ++ [mkExport audio_bytes output_path (format h) (bitrate_of h)]).
Proof.
  intros r. subst r. rewrite download_audio_stages.
  pose proof (load_stream_state E h track_id s) as Hst.
  destruct (load_stream E h track_id s) as [[stream|e|] s1]; cbn in Hst; subst s1.
  - pose proof (download_loop_framed (loop_fuel (size stream) (loop_start stream))
                  track_id (size stream) (loop_start stream)
                  (shown (Progress track_id (size stream) 0) s)) as Hfr.
    destruct (download_loop _ _ _ _ _ _) as [[v|e|] s2];
      destruct Hfr as (rd & sh & bar & Hs2); cbn in Hs2; subst s2.
    + rewrite finish_run. cbv zeta.
      cbn [fs download_frame shown with_progress_bar with_observed].
      destruct (directory_step _ _ _) as [f|e];
        [|rewrite failed_run; destruct (is_Exception e); cbn; auto].
      destruct (export_audio E _ _ _ _) as [[]|e];
        [|rewrite failed_run; destruct (is_Exception e); cbn; eauto].
      destruct (anti_ban_wait_time h <? 0)%Z; [rewrite failed_run|]; cbn; eauto.
    + rewrite failed_run. destruct (is_Exception e); cbn; auto.
    + cbn. auto.
  - rewrite failed_run. destruct (is_Exception e); cbn; auto.
  - cbn. auto.
Qed.

(** A download that gets as far as the encoder calls it once, with the
    bytes read, the format of the handler and the bitrate of its quality. *)
Lemma download_audio_exports E h track_id output_path make_dirs s stream v s2 f :
  value (load_stream E h track_id s) = Ok stream ->
  download_loop (loop_fuel (size stream) (loop_start stream)) set_progress_bar
    track_id (size stream) (loop_start stream)
    (shown (Progress track_id (size stream) 0) s) = (Ok v, s2) ->
  directory_step (fs s) output_path make_dirs = Returns f ->
  exports_log (final (download_audio E h set_progress_bar track_id output_path make_dirs s))
  = exports_log s
    ++ [mkExport (concat (segments v)) output_path (format h) (bitrate_of h)].
Proof.
  intros Hload Hloop Hstep.
  destruct (download_audio_finished E h track_id output_path make_dirs s stream v s2
              Hload Hloop) as (-> & rd & sh & bar & ->).
  rewrite finish_run. cbv zeta.
  cbn [fs download_frame shown with_progress_bar with_observed exports_log].
  rewrite Hstep.
  destruct (export_audio E _ _ _ _) as [[]|e];
    [|rewrite failed_run; destruct (is_Exception e); reflexivity].
  destruct (anti_ban_wait_time h <? 0)%Z; [rewrite failed_run|]; reflexivity.
Qed.

(** C10.  The tier is selected by the login: after a login that returns
    [True] the quality is [VERY_HIGH] exactly when the account type is
    premium or the force-premium override is set, and [HIGH] otherwise;
    refreshing the tokens, authorized requests and downloads leave it as it
    is.  A download that gets as far as the encoder, that is with the
    stream loaded and read and the output directory there, calls it exactly
    once, with the bytes read, the output format, and 320k when the tier is
    [VERY_HIGH] and 160k otherwise; a download that does not get that far
    does not call it. *)
Theorem quality_tier_and_bitrate (E : environment) :
  (forall username password s,
     value (login E username password s) = Ok true ->
     exists sess,
       session (auth (final (login E username password s))) = Some sess /\
       quality (auth (final (login E username password s)))
       = Some (if is_premium_type (get_user_attribute sess "type")
                  || force_premium (auth s)
               then VERY_HIGH else HIGH)) /\
  (forall s, quality (auth (final (refresh_token E s))) = quality (auth s)) /\
  (forall u tb rc kw s,
     quality (auth (final (authorized_get_request E u tb rc kw s))) = quality (auth s)) /\
  (forall r track_id output_path make_dirs s,
     let fin := final (download E r track_id output_path make_dirs s) in
     let h := mkHandler (output_format r) (antiban_wait_time r) (quality (auth s)) in
     let bitrate := match quality (auth s) with
                    | Some VERY_HIGH => "320k"
                    | _ => "160k"
                    end in
     quality (auth fin) = quality (auth s) /\
     (forall stream v s2 f,
        value (load_stream E h track_id s) = Ok stream ->
        download_loop (loop_fuel (size stream) (loop_start stream)) set_progress_bar
          track_id (size stream) (loop_start stream)
          (shown (Progress track_id (size stream) 0) s) = (Ok v, s2) ->
        directory_step (fs s) output_path make_dirs = Returns f ->
        exports_log fin
        = exports_log s
          ++ [mkExport (concat (segments v)) output_path (output_format r) bitrate]) /\
     (exports_log fin = exports_log s \/
      exists audio_bytes,
        exports_log fin
        = exports_log s ++ [mkExport audio_bytes output_path (output_format r) bitrate])).
Proof.
  split; [|split; [|split]].
  - intros username password s H. apply login_selects_tier. exact H.
  - intros s. apply refresh_token_keeps_quality.
  - intros u tb rc kw s. apply authorized_get_request_rec_keeps_quality.
  - intros r track_id output_path make_dirs s fin h bitrate. subst fin bitrate.
    assert (Hfin : final (download E r track_id output_path make_dirs s)
                   = final (download_audio E h set_progress_bar track_id output_path
                              make_dirs s)).
    { unfold download, bind, gets, ret. cbn. fold h.
      destruct (download_audio E h set_progress_bar track_id output_path make_dirs s)
        as [[b|e|] s']; reflexivity. }
    rewrite Hfin.
    pose proof (download_audio_effects E h track_id output_path make_dirs s) as [Ha Hexp].
    cbv zeta in Ha, Hexp.
    split; [rewrite Ha; reflexivity|]. split; [|exact Hexp].
    intros stream v s2 f Hload Hloop Hstep.
    exact (download_audio_exports E h track_id output_path make_dirs s stream v s2 f
             Hload Hloop Hstep).
Qed.

(** The tiers at work: a free account, a premium account and a forced one. *)
Example tiers_and_bitrates :
  quality (auth (final (login env_plain None None st_returning))) = Some HIGH /\
  quality (auth (final (login
     (mkEnv (fun _ _ => (Returns (session_of "premium" "t" "l"), false))
            (requests_get env_plain) (from_base62 env_plain) (export_audio env_plain)
            shown_as)
     None None st_returning))) = Some VERY_HIGH /\
  quality (auth (final (login env_plain None None
     (boot (RespotAuth_init config_credentials true) fs_with_credentials)))) = Some VERY_HIGH /\
  bitrate_for (Some VERY_HIGH) = "320k" /\ bitrate_for (Some HIGH) = "160k" /\
  map exp_bitrate
    (exports_log (final (download env_plain (mkRespot "mp3" 5) "X" song_path true
                           (st_feeding (whole_stream 10))))) = ["160k"] /\
  map exp_bitrate
    (exports_log (final (download env_plain (mkRespot "mp3" 5) "X" song_path true
                           st_premium))) = ["320k"].
Proof. vm_compute. repeat split. Qed.

(** ** Paginated listings *)

Lemma authorized_get_request_answered E u tb kw s resp :
  answered E (length (http_log s)) resp ->
  status_code resp <> 401 ->
  authorized_get_request E u tb 0 kw s = (Ok resp, sent u tb kw s).
Proof.
  intros Hans Hst. unfold authorized_get_request.
  change (retry_fuel 0) with 5%nat.
  rewrite authorized_get_request_rec_step.
  change (3 <? 0)%Z with false. cbv iota zeta.
  rewrite Hans. apply Z.eqb_neq in Hst. rewrite Hst. reflexivity.
Qed.

(** One pass of the listing loop over a served page. *)
Lemma paginate_step E fuel u library extra limit shape offset acc s pg :
  answered E (length (http_log s)) (answer pg) ->
  page_of (answer pg) (items_of pg) ->
  for_each shape (items_of pg) = Returns (made pg) ->
  paginate E (S fuel) u library extra limit shape offset acc s =
  let s' := sent u (listing_token library s) (page_params limit offset extra) s in
  if (len (items_of pg) <? limit)%Z
  then (Ok (acc ++ made pg), s')
  else paginate E fuel u library extra limit shape (offset + limit) (acc ++ made pg) s'.
Proof.
  intros Hans (Hst & body & Hbody & Hitems) Hshape.
  cbn [paginate]. unfold bind at 1. unfold gets at 1. cbv beta iota.
  fold (listing_token library s).
  unfold bind at 1.
  rewrite (authorized_get_request_answered E u _ _ s (answer pg) Hans Hst).
  unfold bind, lift, json_of, ret. rewrite Hbody. cbn [rbind].
  rewrite Hitems. cbn [rbind iterate]. rewrite Hshape. cbn [json_len].
  cbv zeta. destruct (len (items_of pg) <? limit)%Z; reflexivity.
Qed.

Lemma with_http_log_sent l u tb kw s :
  with_http_log l (sent u tb kw s) = with_http_log l s.
Proof. reflexivity. Qed.

(** The listing loop over pages of which all but the last are full. *)
Lemma paginate_pages E u library extra limit shape :
  forall full last_ fuel offset acc s,
    (length full < fuel)%nat ->
    served E shape (length (http_log s)) (full ++ [last_]) ->
    Forall (fun pg => limit <= len (items_of pg)) full ->
    len (items_of last_) < limit ->
    paginate E fuel u library extra limit shape offset acc s =
    (Ok (acc ++ concat (map made (full ++ [last_]))),
     with_http_log
       (http_log s
        ++ page_requests u (bearer (resolved (listing_token library s) s)) extra limit
             (S (length full)) offset) s).
Proof.
  induction full as [|pg full IH]; intros last_ fuel offset acc s Hfuel Hserved Hfull Hlast;
    (destruct fuel as [|fuel]; [cbn in Hfuel; lia|]);
    cbn [app served] in Hserved; destruct Hserved as (Hans & Hpage & Hshape & Hrest).
  - rewrite (paginate_step E fuel u library extra limit shape offset acc s last_ Hans Hpage Hshape).
    cbv zeta. apply Z.ltb_lt in Hlast. rewrite Hlast.
    cbn. rewrite app_nil_r. reflexivity.
  - rewrite (paginate_step E fuel u library extra limit shape offset acc s pg Hans Hpage Hshape).
    cbv zeta. inversion Hfull as [|? ? Hpg Hfull']; subst.
    apply Z.ltb_ge in Hpg. rewrite Hpg.
    rewrite (IH last_ fuel (offset + limit) (acc ++ made pg)).
    + cbn [app map concat length page_requests].
      rewrite <- !app_assoc. rewrite with_http_log_sent. rewrite http_log_sent.
      rewrite <- app_assoc. reflexivity.
    + cbn in Hfuel. lia.
    + rewrite http_log_sent, length_app. cbn [length].
      replace (length (http_log s) + 1)%nat with (S (length (http_log s))) by lia.
      exact Hrest.
    + exact Hfull'.
    + exact Hlast.
Qed.

Lemma for_each_one_each {A B} (shape : A -> result (list B)) :
  (forall x out, shape x = Returns out -> length out = 1%nat) ->
  forall items made_, for_each shape items = Returns made_ -> len made_ = len items.
Proof.
  intros Hone. induction items as [|x items IH]; intros made_ H; cbn in H.
  - injection H as <-. reflexivity.
  - destruct (shape x) as [out|e] eqn:Hx; cbn in H; [|discriminate].
    destruct (for_each shape items) as [outs|e] eqn:Hrest; cbn in H; [|discriminate].
    injection H as <-. specialize (IH outs eq_refl). apply Hone in Hx.
    unfold len in *. rewrite length_app. cbn [length]. lia.
Qed.

Ltac one_entry :=
  let x := fresh "x" in
  let out := fresh "out" in
  intros x out;
  repeat match goal with
         | |- context [rbind ?r _] =>
             let H := fresh in destruct r eqn:H; cbn [rbind]; try discriminate
         end;
  intros [= <-]; reflexivity.

Lemma album_song_one x out : album_song x = Returns out -> length out = 1%nat.
Proof. revert x out. unfold album_song. one_entry. Qed.

Lemma liked_track_one x out : liked_track x = Returns out -> length out = 1%nat.
Proof. revert x out. unfold liked_track. one_entry. Qed.

Lemma show_episode_one x out : show_episode x = Returns out -> length out = 1%nat.
Proof. revert x out. unfold show_episode. one_entry. Qed.

Lemma playlist_item_one x out : playlist_item x = Returns out -> length out = 1%nat.
Proof. unfold playlist_item. intros [= <-]. reflexivity. Qed.

Lemma playlist_song_tracks items :
  forall made_,
    for_each playlist_song items = Returns made_ ->
    len made_ = len (filter (fun song => has_track song = true) items).
Proof.
  induction items as [|x items IH]; intros made_ H; cbn in H.
  - injection H as <-. reflexivity.
  - destruct (playlist_song x) as [out|e] eqn:Hx; cbn in H; [|discriminate].
    destruct (for_each playlist_song items) as [outs|e] eqn:Hrest; cbn in H; [|discriminate].
    injection H as <-. specialize (IH outs eq_refl).
    rewrite filter_cons. unfold len in *. rewrite length_app.
    unfold playlist_song in Hx.
    destruct (getitem x "track") as [track|e] eqn:Ht; cbn [rbind] in Hx; [|discriminate].
    assert (Hh : has_track x = match track with JNull => false | _ => true end)
      by (unfold has_track; rewrite Ht; reflexivity).
    destruct track;
      try (injection Hx as <-; rewrite decide_False by (rewrite Hh; discriminate);
           cbn [length]; lia).
    all: rewrite decide_True by (rewrite Hh; reflexivity); cbn [length];
      repeat match type of Hx with
             | context [rbind ?r _] =>
                 let H := fresh in destruct r eqn:H; cbn [rbind] in Hx; try discriminate
             end;
      injection Hx as <-; cbn [length]; lia.
Qed.

(** C4 (amended).  The listings of playlist tracks, album tracks, saved
    tracks, show episodes and user playlists request a page of [limit] items
    at [offset], append what they make of the items, move [offset] on by
    [limit] and stop exactly after a page of fewer than [limit] items.
    Album tracks, saved tracks, show episodes and user playlists make one
    entry of every item; playlist tracks make one of every item that has a
    track.  Over pages of [limit], [limit], [limit] and [k < limit] items a
    listing that makes one entry of every item returns [3 * limit + k]
    entries after exactly 4 requests. *)
Theorem listings_follow_the_page_protocol (E : environment) :
  (forall playlist_id,
     follows_page_protocol E (fun fuel => get_playlist_songs E fuel playlist_id)
       ("https://api.spotify.com/v1/playlists/" +:+ playlist_id +:+ "/tracks")
       false [] 100 playlist_song) /\
  (forall album_id,
     follows_page_protocol E (fun fuel => get_album_songs E fuel album_id)
       ("https://api.spotify.com/v1/albums/" +:+ album_id +:+ "/tracks")
       false [("include_groups", JStr "album,compilation")] 50 album_song) /\
  follows_page_protocol E (get_liked_tracks E)
    "https://api.spotify.com/v1/me/tracks" true [] 50 liked_track /\
  (forall show_id_str,
     follows_page_protocol E (fun fuel => get_show_episodes E fuel show_id_str)
       ("https://api.spotify.com/v1/shows/" +:+ show_id_str +:+ "/episodes")
       false [] 50 show_episode) /\
  (forall fuel s full last_,
     (length full < fuel)%nat ->
     served E playlist_item (length (http_log s)) (full ++ [last_]) ->
     Forall (fun pg => 50 <= len (items_of pg)) full ->
     len (items_of last_) < 50 ->
     get_all_user_playlists E fuel s =
     (Ok (JObj [("playlists", JArr (concat (map made (full ++ [last_]))))]),
      with_http_log
        (http_log s
         ++ page_requests "https://api.spotify.com/v1/me/playlists"
              (bearer (resolved None s)) [] 50 (S (length full)) 0) s)) /\
  (forall items made_,
     (for_each album_song items = Returns made_ -> len made_ = len items) /\
     (for_each liked_track items = Returns made_ -> len made_ = len items) /\
     (for_each show_episode items = Returns made_ -> len made_ = len items) /\
     (for_each playlist_item items = Returns made_ -> made_ = items) /\
     (for_each playlist_song items = Returns made_ ->
      len made_ = len (filter (fun song => has_track song = true) items))) /\
  (forall op u library extra limit shape,
     follows_page_protocol E op u library extra limit shape ->
     (forall items made_, for_each shape items = Returns made_ -> len made_ = len items) ->
     forall fuel s p0 p1 p2 p3,
       (3 < fuel)%nat ->
       served E shape (length (http_log s)) [p0; p1; p2; p3] ->
       len (items_of p0) = limit ->
       len (items_of p1) = limit ->
       len (items_of p2) = limit ->
       len (items_of p3) < limit ->
       exists entries s',
         op fuel s = (Ok entries, s') /\
         len entries = 3 * limit + len (items_of p3) /\
         length (http_log s') = (length (http_log s) + 4)%nat).
Proof.
  split; [|split; [|split; [|split; [|split; [|split]]]]].
  - intros playlist_id fuel s full last_. apply paginate_pages.
  - intros album_id fuel s full last_. apply paginate_pages.
  - intros fuel s full last_. apply paginate_pages.
  - intros show_id_str fuel s full last_. apply paginate_pages.
  - intros fuel s full last_ Hfuel Hserved Hfull Hlast.
    unfold get_all_user_playlists, bind.
    rewrite (paginate_pages E _ false [] 50 playlist_item full last_ fuel 0 [] s
               Hfuel Hserved Hfull Hlast).
    reflexivity.
  - intros items made_. repeat split.
    + apply for_each_one_each. exact album_song_one.
    + apply for_each_one_each. exact liked_track_one.
    + apply for_each_one_each. exact show_episode_one.
    + revert made_. induction items as [|x items IH]; intros made_ H; cbn in H.
      * injection H as <-. reflexivity.
      * destruct (for_each playlist_item items) as [outs|e]; cbn in H; [|discriminate].
        injection H as <-. rewrite (IH outs eq_refl). reflexivity.
    + apply playlist_song_tracks.
  - intros op u library extra limit shape Hprot Hone fuel s p0 p1 p2 p3
      Hfuel Hserved H0 H1 H2 H3.
    pose proof (Hprot fuel s [p0; p1; p2] p3 ltac:(cbn; lia) Hserved) as Hrun.
    rewrite Hrun.
    2: { repeat constructor; lia. }
    2: { exact H3. }
    cbn in Hserved.
    destruct Hserved as (_ & _ & S0 & _ & _ & S1 & _ & _ & S2 & _ & _ & S3 & _).
    apply Hone in S0, S1, S2, S3.
    eexists _, _. split; [reflexivity|]. split.
    + change (concat (map made ([p0; p1; p2] ++ [p3])))
        with (made p0 ++ made p1 ++ made p2 ++ made p3 ++ []).
      rewrite app_nil_r. unfold len in *. rewrite !length_app. lia.
    + cbn. rewrite length_app. reflexivity.
Qed.

(** The protocol at work: an album of 170 tracks is listed in 4 requests. *)
Example album_listing_runs :
  let r := get_album_songs (catalog (numbered song_item 170)) 10 "A" st_stale in
  match value r with
  | Ok entries => len entries = 170
  | _ => False
  end /\
  map (fun rq => (param_int rq "limit", param_int rq "offset")) (http_log (final r))
  = [(50, 0); (50, 50); (50, 100); (50, 150)].
Proof. vm_compute. split; reflexivity. Qed.

(** C4 as stated fails.  A playlist served as pages of 100, 100, 100 and 20
    items, one of which has no track, is listed in 4 requests as 319
    entries, not 320.  (The artist's albums are asked for once: of 170
    albums the first 50 items come back, after 1 request.) *)
Lemma listing_is_not_always_every_item :
  (let r := get_playlist_songs (catalog (numbered playlist_entry 320)) 10 "P" st_stale in
   match value r with
   | Ok entries => len entries = 319 /\ len entries <> 3 * 100 + 20
   | _ => False
   end /\
   map (fun rq => (param_int rq "limit", param_int rq "offset")) (http_log (final r))
   = [(100, 0); (100, 100); (100, 200); (100, 300)]) /\
  (let r := get_artist_albums (catalog (numbered album_item 170)) "A" st_stale in
   value r = Ok (JArr (numbered album_item 50)) /\
   length (http_log (final r)) = 1%nat).
Proof. vm_compute. repeat split. discriminate. Qed.

(** ** Lookups *)

Lemma authorized_get_request_returns E u tb kw s :
  value (authorized_get_request E u tb 0 kw s) <> OutOfFuel.
Proof.
  unfold authorized_get_request.
  apply authorized_get_request_rec_bound. unfold retry_fuel. lia.
Qed.

Lemma metadata_failed_run E banner label id e s :
  metadata_failed E banner label id e s
  = (Ok None, with_console (console s ++ [banner; label +:+ " " +:+ id; exn_str E e]) s).
Proof.
  unfold metadata_failed, print, bind, modify, ret, with_console. cbn.
  rewrite <- !app_assoc. reflexivity.
Qed.

Lemma guarded_lookup_settles E u banner label id (shape : json -> result json) s :
  settles E label id
    (try_except
       (do response <- authorized_get_request E u None 0 [] ;;
        do info <- lift (json_of response) ;;
        do made_ <- lift (shape info) ;;
        ret (Some made_))
       is_Exception
       (metadata_failed E banner label id) s).
Proof.
  assert (Hcaught : forall e s1,
            settles E label id
              (if is_Exception e then metadata_failed E banner label id e s1
               else (Raise e, s1))).
  { intros e s1. unfold settles. destruct (is_Exception e) eqn:He.
    - right. left. rewrite metadata_failed_run. cbn. split; [reflexivity|]. eauto.
    - right. right. eauto. }
  unfold try_except, bind, lift, ret.
  pose proof (authorized_get_request_returns E u None [] s) as Hret.
  destruct (authorized_get_request E u None 0 [] s) as [[resp|e|] s1]; cbn in Hret.
  - destruct (json_of resp) as [info|e]; cbn -[metadata_failed]; [|apply Hcaught].
    destruct (shape info) as [made_|e]; cbn -[metadata_failed]; [|apply Hcaught].
    left. eexists. reflexivity.
  - cbn -[metadata_failed]. apply Hcaught.
  - congruence.
Qed.

(** C6.  The lookups of a track and of an artist settle every exception
    of a subclass of [Exception]: they return the record, or [None] after
    printing the id and the exception; an exception of [requests.get] that
    is of no such class, as [KeyboardInterrupt] is, they let through.  The
    lookups of an album, an episode and a show settle nothing: on the error
    object the catalog sends for an unknown id they raise [KeyError], an
    [Exception], where the track lookup returns [None]. *)
Theorem lookups_and_exceptions :
  (forall E track_id s, settles E "track_id:" track_id (get_track_info E track_id s)) /\
  (forall E artist_id s, settles E "artist_id:" artist_id (get_artist_info E artist_id s)) /\
  (forall E track_id s e,
     requests_get E (length (http_log s))
       (mkRequest ("https://api.spotify.com/v1/tracks?ids=" +:+ track_id
                   +:+ "&market=from_token")
          (bearer (req_token (request s))) []) = Raises e ->
     is_Exception e = false ->
     value (get_track_info E track_id s) = Raise e) /\
  value (get_track_info env_not_found "X" st_stale) = Ok None /\
  value (get_album_info env_not_found "X" st_stale) = Raise (KeyError "artists") /\
  value (get_episode_info env_not_found "X" st_stale) = Raise (KeyError "images") /\
  value (get_show_info env_not_found "X" st_stale) = Raise (KeyError "name") /\
  is_Exception (KeyError "artists") = true.
Proof.
  split; [|split; [|split]].
  - intros E track_id s. apply guarded_lookup_settles.
  - intros E artist_id s. apply guarded_lookup_settles.
  - intros E track_id s e Hget He.
    assert (Hconn : is_ConnectionError e = false) by (destruct e; try reflexivity; discriminate).
    unfold get_track_info. rewrite try_except_bind.
    unfold authorized_get_request. change (retry_fuel 0) with 5%nat.
    rewrite authorized_get_request_rec_step.
    change (3 <? 0)%Z with false. cbv iota zeta.
    change (resolved None s) with (req_token (request s)).
    rewrite Hget, Hconn, He. reflexivity.
  - vm_compute. repeat split.
Qed.

(** The track lookup on a well-formed answer. *)
Example track_lookup_runs :
  value (get_track_info env_track "t1" st_stale)
  = Ok (Some (JObj [("id", JStr "t1");
                    ("artist_id", JStr "a1");
                    ("artist_name", JStr "ACDC, Guest-One");
                    ("album_artist", JStr "ACDC");
                    ("album_name", JStr "Who Made Who");
                    ("audio_name", JStr "Who Made Who");
                    ("image_url", JStr "large");
                    ("release_year", JStr "1986");
                    ("disc_number", JNum 1);
                    ("audio_number", JNum 3);
                    ("scraped_song_id", JStr "t1");
                    ("is_playable", JBool true);
                    ("release_date", JStr "1986-05-24")])).
Proof. vm_compute. reflexivity. Qed.

(** A first run: no credential file and no username or password. *)
Example login_without_credentials :
  value (login env_plain None None st_first_run) = Ok false /\
  sessions_log (final (login env_plain None None st_first_run)) = [] /\
  value (login env_plain (Some "") (Some "secret") st_first_run) = Ok false.
Proof. vm_compute. repeat split. Qed.

(** The counter at 30 and one more empty read: the loop is left. *)
Lemma empty_reads_end_the_loop_witness :
  downloaded nearly_given_up <= 10 /\
  read (input_stream nearly_given_up) (chunk_size nearly_given_up)
  = (Returns [], mkReader [] []) /\
  RETRY_DOWNLOAD < failCount nearly_given_up + 1 /\
  exists v',
    value (download_loop 1 set_progress_bar "X" 10 nearly_given_up
             (st_feeding (whole_stream 10))) = Ok v' /\
    failCount v' = failCount nearly_given_up + 1 /\
    reads_log (final (download_loop 1 set_progress_bar "X" 10 nearly_given_up
                        (st_feeding (whole_stream 10))))
    = reads_log (st_feeding (whole_stream 10)) ++ [(chunk_size nearly_given_up, 0)].
Proof.
  assert (Hd : downloaded nearly_given_up <= 10) by (cbn; lia).
  assert (Hread : read (input_stream nearly_given_up) (chunk_size nearly_given_up)
                  = (Returns [], mkReader [] [])) by reflexivity.
  assert (Hc : RETRY_DOWNLOAD < failCount nearly_given_up + 1)
    by (unfold RETRY_DOWNLOAD; cbn; lia).
  split; [exact Hd|]. split; [exact Hread|]. split; [exact Hc|].
  destruct (empty_reads_end_the_loop env_plain handler_free "X" song_path true
              (st_feeding (whole_stream 10))) as (_ & Hstep & _).
  exact (proj1 (Hstep 0%nat 10 nearly_given_up (st_feeding (whole_stream 10))
                  (mkReader [] []) Hd Hread) Hc).
Defined.

(** The directory step at a missing directory. *)
Lemma output_directory_is_resolved_witness :
  is_dir (fs (st_feeding (whole_stream 10))) (parent song_path) = false /\
  is_dir (fs (final (download_audio env_plain handler_free set_progress_bar "X" song_path
                       true (st_feeding (whole_stream 10))))) (parent song_path) = true /\
  value (download_audio env_plain handler_free set_progress_bar "X" song_path false
           (st_feeding (whole_stream 10))) = Ok false.
Proof.
  destruct (download_loop (loop_fuel (size (whole_stream 10)) (loop_start (whole_stream 10)))
              set_progress_bar "X" (size (whole_stream 10)) (loop_start (whole_stream 10))
              (shown (Progress "X" (size (whole_stream 10)) 0) (st_feeding (whole_stream 10))))
    as [[v|e|] s2] eqn:Hloop;
    [|vm_compute in Hloop; discriminate|vm_compute in Hloop; discriminate].
  destruct (output_directory_is_resolved env_plain handler_free "X" song_path
              (st_feeding (whole_stream 10)) (whole_stream 10) v s2 eq_refl Hloop)
    as [[Hmade _] [Hfalse _]].
  split; [vm_compute; reflexivity|].
  split.
  - destruct Hmade as (Hd & _); [vm_compute; reflexivity | exact Hd].
  - destruct Hfalse as (Hv & _); [vm_compute; reflexivity | exact Hv].
Defined.

(** The tier after the login of a free account. *)
Lemma quality_tier_and_bitrate_witness :
  value (login env_plain None None st_returning) = Ok true /\
  quality (auth (final (login env_plain None None st_returning))) = Some HIGH /\
  quality (auth st_premium) = Some VERY_HIGH /\
  exports_log (final (download env_plain (mkRespot "mp3" 5) "X" song_path true
                        st_premium))
  = [mkExport (audio 10) song_path "mp3" "320k"].
Proof.
  assert (Hlogin : value (login env_plain None None st_returning) = Ok true)
    by (vm_compute; reflexivity).
  destruct (quality_tier_and_bitrate env_plain) as (Htier & _ & _ & Hdown).
  split; [exact Hlogin|].
  split.
  { destruct (Htier None None st_returning Hlogin) as (sess & Hs & Hq).
    rewrite Hq. vm_compute in Hs. injection Hs as <-. reflexivity. }
  split; [reflexivity|].
  destruct (Hdown (mkRespot "mp3" 5) "X" song_path true st_premium) as (_ & Hcall & _).
  cbv zeta in Hcall.
  destruct (download_loop (loop_fuel (size (whole_stream 10)) (loop_start (whole_stream 10)))
              set_progress_bar "X" (size (whole_stream 10)) (loop_start (whole_stream 10))
              (shown (Progress "X" (size (whole_stream 10)) 0) st_premium))
    as [[v|e|] s2] eqn:Hloop;
    [|vm_compute in Hloop; discriminate|vm_compute in Hloop; discriminate].
  assert (Hseg : concat (segments v) = audio 10)
    by (vm_compute in Hloop; injection Hloop as <- _; reflexivity).
  rewrite (Hcall (whole_stream 10) v s2
             (mkFs (dirs fs_music ∪ list_to_set (lineage (parent song_path)))
                (files fs_music)) eq_refl Hloop).
  - rewrite Hseg. reflexivity.
  - vm_compute. reflexivity.
Defined.

(** An album served as pages of 50, 50, 50 and 20 tracks. *)
Lemma listings_follow_the_page_protocol_witness :
  exists entries s',
    get_album_songs env_paged 4 "A" st_stale = (Ok entries, s') /\
    len entries = 3 * 50 + len (items_of (album_page 150 20)) /\
    length (http_log s') = (length (http_log st_stale) + 4)%nat.
Proof.
  destruct (listings_follow_the_page_protocol env_paged)
    as (_ & Halbum & _ & _ & _ & Hone & Hfour).
  apply (Hfour (fun fuel => get_album_songs env_paged fuel "A") _ _ _ 50 album_song
           (Halbum "A") (fun items made_ => proj1 (Hone items made_))
           4%nat st_stale
           (album_page 0 50) (album_page 50 50) (album_page 100 50) (album_page 150 20)).
  - lia.
  - assert (Hpage : forall from count,
              page_of (answer (album_page from count)) (items_of (album_page from count))).
    { intros from count. split; [discriminate|].
      eexists. split; reflexivity. }
    cbn [served]. repeat split; try apply Hpage; try (intros rq; reflexivity);
      vm_compute; reflexivity.
  - vm_compute. reflexivity.
  - vm_compute. reflexivity.
  - vm_compute. reflexivity.
  - vm_compute. reflexivity.
Defined.


(** * More properties *)

(** ** [RespotUtils.parse_url] *)

(** *** Texts *)

Lemma app_cons c s t : String c s +:+ t = String c (s +:+ t).
Proof. reflexivity. Qed.

Lemma app_empty t : "" +:+ t = t.
Proof. reflexivity. Qed.

Lemma app_empty_r s : s +:+ "" = s.
Proof. induction s as [|c s IH]; [reflexivity|]. rewrite app_cons, IH. reflexivity. Qed.

Lemma app_string_assoc a b c : (a +:+ b) +:+ c = a +:+ (b +:+ c).
Proof. induction a as [|x a IH]; [reflexivity|]. rewrite !app_cons, IH. reflexivity. Qed.

Lemma length_string_app a b :
  String.length (a +:+ b) = (String.length a + String.length b)%nat.
Proof. induction a as [|x a IH]; [reflexivity|]. rewrite app_cons. cbn. rewrite IH. reflexivity. Qed.

Lemma app_same_length a b a' b' :
  a +:+ b = a' +:+ b' -> String.length a = String.length a' -> a = a' /\ b = b'.
Proof.
  revert a'. induction a as [|x a IH]; intros [|y a']; cbn; try discriminate.
  - auto.
  - rewrite !app_cons. intros [= -> H] [= Hl]. destruct (IH a' H Hl) as [-> ->]. auto.
Qed.

Lemma all_in_app set a b : all_in set (a +:+ b) = all_in set a && all_in set b.
Proof.
  induction a as [|x a IH]; [reflexivity|].
  rewrite app_cons. cbn. rewrite IH, andb_assoc. reflexivity.
Qed.

Lemma all_in_weaken (set set' : ascii -> bool) s :
  (forall c, set c = true -> set' c = true) -> all_in set s = true -> all_in set' s = true.
Proof.
  intros H. induction s as [|c s IH]; cbn; [reflexivity|].
  intros [Hc Hs]%andb_true_iff. rewrite (H c Hc), (IH Hs). reflexivity.
Qed.

(** *** The matcher *)

Lemma after_text_app p rest : after_text p (p +:+ rest) = Some rest.
Proof.
  induction p as [|c p IH]; [reflexivity|].
  rewrite app_cons. cbn. rewrite Ascii.eqb_refl. exact IH.
Qed.

Lemma after_text_inv p s rest : after_text p s = Some rest -> s = p +:+ rest.
Proof.
  revert s. induction p as [|c p IH]; intros s; cbn.
  - intros [= ->]. reflexivity.
  - destruct s as [|d s]; [discriminate|].
    destruct (Ascii.eqb c d) eqn:Hcd; [|discriminate].
    apply Ascii.eqb_eq in Hcd. subst d. intros H. rewrite app_cons, (IH s H). reflexivity.
Qed.

Lemma exactly_app n set m rest :
  String.length m = n -> all_in set m = true -> exactly n set (m +:+ rest) = Some (m, rest).
Proof.
  revert m. induction n as [|n IH]; intros [|c m]; cbn; try discriminate.
  - reflexivity.
  - intros [= Hl] [Hc Hm]%andb_true_iff. rewrite app_cons. rewrite Hc, (IH m Hl Hm). reflexivity.
Qed.

Lemma exactly_inv n set s m rest :
  exactly n set s = Some (m, rest) ->
  s = m +:+ rest /\ String.length m = n /\ all_in set m = true.
Proof.
  revert s m rest. induction n as [|n IH]; intros s m rest; cbn.
  - intros [= <- <-]. auto.
  - destruct s as [|c s]; [discriminate|].
    destruct (set c) eqn:Hc; [|discriminate].
    destruct (exactly n set s) as [[m' rest']|] eqn:He; [|discriminate].
    intros [= <- <-]. destruct (IH s m' rest' He) as (-> & Hl & Hm).
    cbn. rewrite Hc, Hl, Hm. auto.
Qed.

Lemma runs_spec set s m rest :
  In (m, rest) (runs set s) <-> m <> "" /\ all_in set m = true /\ s = m +:+ rest.
Proof.
  revert m. induction s as [|c s IH]; intros m; cbn.
  - split; [tauto|]. intros (Hne & _ & Hs). destruct m; [congruence | discriminate].
  - destruct (set c) eqn:Hc; cbn.
    + split.
      * intros [[= <- <-] | Hin].
        -- cbn. rewrite Hc. repeat split. discriminate.
        -- apply in_map_iff in Hin as ([m' rest'] & [= <- <-] & Hin).
           apply IH in Hin as (Hne & Hall & ->). cbn. rewrite Hc, Hall.
           repeat split. discriminate.
      * intros (Hne & Hall & Hs). destruct m as [|d m]; [congruence|].
        rewrite app_cons in Hs. injection Hs as <- ->.
        cbn in Hall. apply andb_true_iff in Hall as [_ Hall].
        destruct m as [|e m].
        -- left. reflexivity.
        -- right. apply in_map_iff. exists (String e m, rest). split; [reflexivity|].
           apply IH. repeat split; [discriminate | exact Hall].
    + split; [tauto|]. intros (Hne & Hall & Hs). destruct m as [|d m]; [congruence|].
      rewrite app_cons in Hs. injection Hs as <- ->. cbn in Hall. rewrite Hc in Hall. discriminate.
Qed.

(** Every way of matching splits the text into what it matched and the
    rest. *)
Lemma match_at_splits r :
  forall b s m rest g, In (m, rest, g) (match_at r b s) -> s = m +:+ rest.
Proof.
  induction r as [| |p|n set|set|set|r IH|r1 IH1 r2 IH2|name r IH]; intros b s m rest g; cbn.
  - destruct b; cbn; [|tauto]. intros [[= <- <- <-]|[]]. reflexivity.
  - destruct (at_finish s); cbn; [|tauto]. intros [[= <- <- <-]|[]]. reflexivity.
  - destruct (after_text p s) as [rest'|] eqn:Ha; cbn; [|tauto].
    intros [[= <- <- <-]|[]]. apply after_text_inv. exact Ha.
  - destruct (exactly n set s) as [[m' rest']|] eqn:He; cbn; [|tauto].
    intros [[= <- <- <-]|[]]. apply (exactly_inv _ _ _ _ _ He).
  - intros Hin. apply in_map_iff in Hin as ([m' rest'] & [= <- <- <-] & Hin).
    apply in_rev in Hin. apply runs_spec in Hin. tauto.
  - intros Hin. apply in_map_iff in Hin as ([m' rest'] & [= <- <- <-] & Hin).
    apply runs_spec in Hin. tauto.
  - intros Hin. apply in_app_iff in Hin as [Hin | [[= <- <- <-]|[]]]; [|reflexivity].
    apply (IH _ _ _ _ _ Hin).
  - intros Hin. apply in_flat_map in Hin as ([[m1 rest1] g1] & H1 & Hin).
    apply in_map_iff in Hin as ([[m2 rest2] g2] & [= <- <- <-] & H2).
    apply IH1 in H1. apply IH2 in H2. subst. rewrite app_string_assoc. reflexivity.
  - intros Hin. apply in_map_iff in Hin as ([[m' rest'] g'] & [= <- <- <-] & Hin).
    apply (IH _ _ _ _ _ Hin).
Qed.

Lemma in_then r1 r2 b s m rest g :
  In (m, rest, g) (match_at (Then r1 r2) b s) <->
  exists m1 rest1 g1 m2 g2,
    In (m1, rest1, g1) (match_at r1 b s) /\
    In (m2, rest, g2) (match_at r2 (b && String.eqb m1 "") rest1) /\
    m = m1 +:+ m2 /\ g = g1 ++ g2.
Proof.
  cbn. rewrite in_flat_map. split.
  - intros ([[m1 rest1] g1] & H1 & Hin).
    apply in_map_iff in Hin as ([[m2 rest2] g2] & [= <- <- <-] & H2).
    exists m1, rest1, g1, m2, g2. auto.
  - intros (m1 & rest1 & g1 & m2 & g2 & H1 & H2 & -> & ->).
    exists (m1, rest1, g1). split; [exact H1|].
    apply in_map_iff. exists (m2, rest, g2). auto.
Qed.

Lemma in_text p b s m rest g :
  In (m, rest, g) (match_at (Text p) b s) <-> m = p /\ s = p +:+ rest /\ g = [].
Proof.
  cbn. destruct (after_text p s) as [rest'|] eqn:Ha; cbn.
  - apply after_text_inv in Ha. split.
    + intros [[= <- <- <-]|[]]. auto.
    + intros (-> & Hs & ->). left. rewrite Ha in Hs. apply String.app_inj in Hs. subst. reflexivity.
  - split; [tauto|]. intros (-> & -> & _). rewrite after_text_app in Ha. discriminate.
Qed.

Lemma in_times n set b s m rest g :
  In (m, rest, g) (match_at (Times n set) b s) <->
  s = m +:+ rest /\ String.length m = n /\ all_in set m = true /\ g = [].
Proof.
  cbn. destruct (exactly n set s) as [[m' rest']|] eqn:He; cbn.
  - apply exactly_inv in He as (-> & Hl & Hall). split.
    + intros [[= <- <- <-]|[]]. auto.
    + intros (Hs & Hl' & _ & ->). left.
      destruct (app_same_length _ _ _ _ Hs) as [-> ->]; [congruence | reflexivity].
  - split; [tauto|]. intros (-> & Hl & Hall & _).
    rewrite (exactly_app _ _ _ _ Hl Hall) in He. discriminate.
Qed.

Lemma in_named name r b s m rest g :
  In (m, rest, g) (match_at (Named name r) b s) <->
  exists g', In (m, rest, g') (match_at r b s) /\ g = g' ++ [(name, m)].
Proof.
  cbn. rewrite in_map_iff. split.
  - intros ([[m' rest'] g'] & [= <- <- <-] & Hin). eauto.
  - intros (g' & Hin & ->). exists (m, rest, g'). auto.
Qed.

Lemma in_maybe r b s m rest g :
  In (m, rest, g) (match_at (Maybe r) b s) <->
  In (m, rest, g) (match_at r b s) \/ (m = "" /\ rest = s /\ g = []).
Proof.
  cbn. rewrite in_app_iff. cbn. split.
  - intros [H | [[= <- <- <-]|[]]]; auto.
  - intros [H | (-> & -> & ->)]; auto.
Qed.

Lemma in_start b s m rest g :
  In (m, rest, g) (match_at Start b s) <-> b = true /\ m = "" /\ rest = s /\ g = [].
Proof.
  cbn. destruct b; cbn.
  - split; [intros [[= <- <- <-]|[]]; auto | intros (_ & -> & -> & ->); auto].
  - split; [tauto | intros ([=] & _)].
Qed.

Lemma in_finish b s m rest g :
  In (m, rest, g) (match_at Finish b s) <->
  at_finish s = true /\ m = "" /\ rest = s /\ g = [].
Proof.
  cbn. destruct (at_finish s); cbn.
  - split; [intros [[= <- <- <-]|[]]; auto | intros (_ & -> & -> & ->); auto].
  - split; [tauto | intros ([=] & _)].
Qed.

Lemma in_few set b s m rest g :
  In (m, rest, g) (match_at (Few set) b s) <->
  m <> "" /\ all_in set m = true /\ s = m +:+ rest /\ g = [].
Proof.
  cbn. rewrite in_map_iff. split.
  - intros ([m' rest'] & [= <- <- <-] & Hin). apply runs_spec in Hin. tauto.
  - intros (Hne & Hall & Hs & ->). exists (m, rest). split; [reflexivity|].
    apply runs_spec. auto.
Qed.

Lemma in_more set b s m rest g :
  In (m, rest, g) (match_at (More set) b s) <->
  m <> "" /\ all_in set m = true /\ s = m +:+ rest /\ g = [].
Proof.
  cbn. rewrite in_map_iff. split.
  - intros ([m' rest'] & [= <- <- <-] & Hin%in_rev). apply runs_spec in Hin. tauto.
  - intros (Hne & Hall & Hs & ->). exists (m, rest). split; [reflexivity|].
    apply in_rev. rewrite rev_involutive. apply runs_spec. auto.
Qed.

(** A pattern that begins with [^] matches at the start of the text or
    nowhere. *)
Lemma search_anchored r s :
  re_search (Then Start r) s = head (match_at (Then Start r) true s).
Proof.
  assert (Hno : forall t, search_from (Then Start r) false t = None).
  { induction t as [|c t IH]; cbn; [reflexivity | exact IH]. }
  unfold re_search. destruct s as [|c s]; cbn [search_from].
  - destruct (match_at _ _ _); reflexivity.
  - destruct (match_at _ _ _); [apply Hno | reflexivity].
Qed.

Lemma group_last name id : group name ([] ++ [(name, id)]) = Some id.
Proof. cbn. rewrite String.eqb_refl. reflexivity. Qed.

Lemma is_id_spec id :
  is_id id = true <-> String.length id = 22%nat /\ all_in alnum id = true.
Proof. unfold is_id. rewrite andb_true_iff, Nat.eqb_eq. reflexivity. Qed.

Lemma uri_pattern_ways kind name s m rest g :
  In (m, rest, g) (match_at (uri_pattern kind name) true s) <->
  exists id,
    is_id id = true /\
    s = ("spotify:" +:+ kind +:+ ":") +:+ id +:+ rest /\
    at_finish rest = true /\ g = [(name, id)] /\
    m = ("spotify:" +:+ kind +:+ ":") +:+ id.
Proof.
  unfold uri_pattern. split.
  - intros H.
    apply in_then in H as (m1 & r1 & g1 & m2 & g2 & H1 & H & -> & ->).
    apply in_start in H1 as (_ & -> & -> & ->).
    apply in_then in H as (m3 & r3 & g3 & m4 & g4 & H3 & H & -> & ->).
    apply in_text in H3 as (-> & -> & ->).
    apply in_then in H as (m5 & r5 & g5 & m6 & g6 & H5 & H6 & -> & ->).
    apply in_named in H5 as (g' & H5 & ->).
    apply in_times in H5 as (-> & Hl & Hall & ->).
    apply in_finish in H6 as (Hf & -> & -> & ->).
    exists m5. rewrite is_id_spec, app_empty_r. cbn. auto.
  - intros (id & Hid & -> & Hf & -> & ->). apply is_id_spec in Hid as [Hl Hall].
    apply in_then. exists "", (("spotify:" +:+ kind +:+ ":") +:+ id +:+ rest), [],
      (("spotify:" +:+ kind +:+ ":") +:+ id), [(name, id)].
    split; [apply in_start; auto|]. split; [|auto].
    apply in_then. exists ("spotify:" +:+ kind +:+ ":"), (id +:+ rest), [], id, [(name, id)].
    split; [apply in_text; auto|]. split; [|auto].
    apply in_then. exists id, rest, [(name, id)], "", [].
    split; [|split; [apply in_finish; auto | rewrite app_empty_r; auto]].
    apply in_named. exists []. split; [|reflexivity]. apply in_times. auto.
Qed.

Lemma scheme_ways b s m rest g :
  In (m, rest, g)
     (match_at (Maybe (Then (Text "http") (Then (Maybe (Text "s")) (Text "://")))) b s) <->
  In m ["https://"; "http://"; ""] /\ s = m +:+ rest /\ g = [].
Proof.
  split.
  - intros H. apply in_maybe in H as [H | (-> & -> & ->)]; [|cbn; auto].
    apply in_then in H as (m1 & r1 & g1 & m2 & g2 & H1 & H & -> & ->).
    apply in_text in H1 as (-> & -> & ->).
    apply in_then in H as (m3 & r3 & g3 & m4 & g4 & H3 & H4 & -> & ->).
    apply in_maybe in H3 as [H3 | (-> & -> & ->)].
    + apply in_text in H3 as (-> & -> & ->).
      apply in_text in H4 as (-> & -> & ->). cbn. auto.
    + apply in_text in H4 as (-> & -> & ->). cbn. auto.
  - intros (Hm & -> & ->). apply in_maybe.
    destruct Hm as [<- | [<- | [<- | []]]]; [left | left | right; auto].
    + apply in_then. exists "http", ("s://" +:+ rest), [], "s://", [].
      split; [apply in_text; auto|]. split; [|auto].
      apply in_then. exists "s", ("://" +:+ rest), [], "://", [].
      split; [apply in_maybe; left; apply in_text; auto|].
      split; [apply in_text; auto | auto].
    + apply in_then. exists "http", ("://" +:+ rest), [], "://", [].
      split; [apply in_text; auto|]. split; [|auto].
      apply in_then. exists "", ("://" +:+ rest), [], "://", [].
      split; [apply in_maybe; right; auto|].
      split; [apply in_text; auto | auto].
Qed.

Lemma query_ways b s m rest g :
  In (m, rest, g) (match_at (Maybe (Then (Text "?si=") (Few not_line_feed))) b s) <->
  is_query m /\ s = m +:+ rest /\ g = [].
Proof.
  unfold is_query. split.
  - intros H. apply in_maybe in H as [H | (-> & -> & ->)]; [|auto].
    apply in_then in H as (m1 & r1 & g1 & m2 & g2 & H1 & H2 & -> & ->).
    apply in_text in H1 as (-> & -> & ->).
    apply in_few in H2 as (Hne & Hall & -> & ->).
    split; [right; eauto|]. rewrite app_string_assoc. auto.
  - intros (Hq & -> & ->). apply in_maybe.
    destruct Hq as [-> | (x & -> & Hne & Hall)]; [right; auto | left].
    apply in_then. exists "?si=", (x +:+ rest), [], x, [].
    split; [apply in_text; rewrite app_string_assoc; auto|].
    split; [apply in_few; auto | auto].
Qed.

Lemma url_pattern_ways kind name s m rest g :
  In (m, rest, g) (match_at (url_pattern kind name) true s) <->
  exists scheme id q,
    In scheme ["https://"; "http://"; ""] /\ is_id id = true /\ is_query q /\
    s = scheme +:+ ("open.spotify.com/" +:+ kind +:+ "/") +:+ id +:+ q +:+ rest /\
    at_finish rest = true /\ g = [(name, id)] /\
    m = scheme +:+ ("open.spotify.com/" +:+ kind +:+ "/") +:+ id +:+ q.
Proof.
  unfold url_pattern. split.
  - intros H.
    apply in_then in H as (m1 & r1 & g1 & m2 & g2 & H1 & H & -> & ->).
    apply in_start in H1 as (_ & -> & -> & ->).
    apply in_then in H as (m3 & r3 & g3 & m4 & g4 & H3 & H & -> & ->).
    apply scheme_ways in H3 as (Hs & -> & ->).
    apply in_then in H as (m5 & r5 & g5 & m6 & g6 & H5 & H & -> & ->).
    apply in_text in H5 as (-> & -> & ->).
    apply in_then in H as (m7 & r7 & g7 & m8 & g8 & H7 & H & -> & ->).
    apply in_named in H7 as (g' & H7 & ->).
    apply in_times in H7 as (-> & Hl & Hall & ->).
    apply in_then in H as (m9 & r9 & g9 & m10 & g10 & H9 & H10 & -> & ->).
    apply query_ways in H9 as (Hq & -> & ->).
    apply in_finish in H10 as (Hf & -> & -> & ->).
    exists m3, m7, m9. rewrite is_id_spec, app_empty_r. cbn. auto 10.
  - intros (scheme & id & q & Hs & Hid & Hq & -> & Hf & -> & ->).
    apply is_id_spec in Hid as [Hl Hall].
    apply in_then. eexists "", _, [], _, [(name, id)].
    split; [apply in_start; auto|]. split; [|split; [reflexivity | auto]].
    apply in_then. eexists scheme, _, [], _, [(name, id)].
    split; [apply scheme_ways; auto|]. split; [|split; [reflexivity | auto]].
    apply in_then. eexists _, _, [], _, [(name, id)].
    split; [apply in_text; auto|]. split; [|split; [reflexivity | auto]].
    apply in_then. eexists id, _, [(name, id)], _, [].
    split; [apply in_named; exists []; split; [apply in_times; auto | reflexivity]|].
    split; [|split; reflexivity].
    apply in_then. eexists q, rest, [], "", [].
    split; [apply query_ways; auto|].
    split; [apply in_finish; auto | split; [rewrite app_empty_r|]; reflexivity].
Qed.

Lemma head_in {A} (l : list A) x : head l = Some x -> In x l.
Proof. destruct l; [discriminate|]. intros [= ->]. left. reflexivity. Qed.

Lemma in_head {A} (l : list A) x : In x l -> exists y, head l = Some y.
Proof. destruct l; [intros []|]. eauto. Qed.

Ltac expose H := rewrite ?app_string_assoc, ?app_cons, ?app_empty in H.

Lemma scheme_unique a b x y :
  In a ["https://"; "http://"; ""] -> In b ["https://"; "http://"; ""] ->
  a +:+ "open.spotify.com/" +:+ x = b +:+ "open.spotify.com/" +:+ y -> a = b.
Proof.
  intros [<- | [<- | [<- | []]]] [<- | [<- | [<- | []]]] H;
    try reflexivity; expose H; discriminate.
Qed.

Lemma search_uri kind name s w :
  re_search (uri_pattern kind name) s = Some w ->
  exists id, is_id id = true /\ uri_form kind id s /\ group name (snd w) = Some id.
Proof.
  unfold uri_pattern at 1. rewrite search_anchored. fold (uri_pattern kind name).
  intros H%head_in. destruct w as [[m rest] g].
  apply uri_pattern_ways in H as (id & Hid & Hs & Hf & -> & _).
  exists id. split; [exact Hid|]. split; [exists rest; auto|]. apply (group_last name id).
Qed.

Lemma search_uri_found kind name s id :
  is_id id = true -> uri_form kind id s ->
  exists w, re_search (uri_pattern kind name) s = Some w /\ group name (snd w) = Some id.
Proof.
  intros Hid (rest & Hs & Hf).
  unfold uri_pattern at 1. rewrite search_anchored. fold (uri_pattern kind name).
  assert (Hin : In (("spotify:" +:+ kind +:+ ":") +:+ id, rest, [(name, id)])
                   (match_at (uri_pattern kind name) true s))
    by (apply uri_pattern_ways; exists id; auto).
  apply in_head in Hin as ([[m' rest'] g'] & Hh). exists (m', rest', g').
  split; [exact Hh|]. apply head_in in Hh.
  apply uri_pattern_ways in Hh as (id' & Hid' & Hs' & _ & -> & _).
  rewrite Hs in Hs'. apply String.app_inj in Hs'.
  apply is_id_spec in Hid as [Hl _]. apply is_id_spec in Hid' as [Hl' _].
  destruct (app_same_length _ _ _ _ Hs') as [<- _]; [congruence|].
  apply (group_last name id).
Qed.

Lemma search_url kind name s w :
  re_search (url_pattern kind name) s = Some w ->
  exists id, is_id id = true /\ url_form kind id s /\ group name (snd w) = Some id.
Proof.
  unfold url_pattern at 1. rewrite search_anchored. fold (url_pattern kind name).
  intros H%head_in. destruct w as [[m rest] g].
  apply url_pattern_ways in H as (scheme & id & q & Hsch & Hid & Hq & Hs & Hf & -> & _).
  exists id. split; [exact Hid|]. split; [exists scheme, q, rest; auto|].
  apply (group_last name id).
Qed.

Lemma search_url_found kind name s id :
  is_id id = true -> url_form kind id s ->
  exists w, re_search (url_pattern kind name) s = Some w /\ group name (snd w) = Some id.
Proof.
  intros Hid (scheme & q & rest & Hsch & Hq & Hs & Hf).
  unfold url_pattern at 1. rewrite search_anchored. fold (url_pattern kind name).
  assert (Hin : In (scheme +:+ ("open.spotify.com/" +:+ kind +:+ "/") +:+ id +:+ q, rest,
                    [(name, id)])
                   (match_at (url_pattern kind name) true s))
    by (apply url_pattern_ways; exists scheme, id, q; auto 10).
  apply in_head in Hin as ([[m' rest'] g'] & Hh). exists (m', rest', g').
  split; [exact Hh|]. apply head_in in Hh.
  apply url_pattern_ways in Hh as (scheme' & id' & q' & Hsch' & Hid' & _ & Hs' & _ & -> & _).
  rewrite Hs in Hs'.
  assert (scheme = scheme').
  { apply (scheme_unique scheme scheme' ((kind +:+ "/") +:+ id +:+ q +:+ rest)
             ((kind +:+ "/") +:+ id' +:+ q' +:+ rest')); auto. }
  subst scheme'. do 2 apply String.app_inj in Hs'.
  apply is_id_spec in Hid as [Hl _]. apply is_id_spec in Hid' as [Hl' _].
  destruct (app_same_length _ _ _ _ Hs') as [<- _]; [congruence|].
  apply (group_last name id).
Qed.

(** No text has both forms. *)
Lemma forms_apart k1 id1 k2 id2 s : uri_form k1 id1 s -> url_form k2 id2 s -> False.
Proof.
  intros (rest & -> & _) (scheme & q & rest' & Hsch & _ & H & _).
  destruct Hsch as [<- | [<- | [<- | []]]]; expose H; discriminate.
Qed.

Lemma id_str_spec kind name s id :
  id_str (re_search (uri_pattern kind name) s) (re_search (url_pattern kind name) s) name
  = Some id
  <-> is_id id = true /\ (uri_form kind id s \/ url_form kind id s).
Proof.
  split.
  - unfold id_str.
    destruct (re_search (uri_pattern kind name) s) as [w|] eqn:Hu.
    + apply search_uri in Hu as (id' & Hid & Hform & Hg). rewrite Hg. intros [= <-]. auto.
    + destruct (re_search (url_pattern kind name) s) as [w|] eqn:Hv; [|discriminate].
      apply search_url in Hv as (id' & Hid & Hform & Hg). rewrite Hg. intros [= <-]. auto.
  - intros (Hid & [Hform | Hform]).
    + destruct (search_uri_found kind name s id Hid Hform) as (w & -> & Hg). exact Hg.
    + destruct (search_url_found kind name s id Hid Hform) as (w & -> & Hg).
      destruct (re_search (uri_pattern kind name) s) as [w'|] eqn:Hu; [|exact Hg].
      apply search_uri in Hu as (id' & _ & Hform' & _).
      destruct (forms_apart _ _ _ _ _ Hform' Hform).
Qed.

Lemma parse_url_field k s id :
  field k (parse_url s) = Some id <->
  is_id id = true /\
  (uri_form (key k) id (re_sub_delete intl_pattern s) \/
   url_form (key k) id (re_sub_delete intl_pattern s)).
Proof. destruct k; apply id_str_spec. Qed.

Lemma forms_one_kind k1 k2 id1 id2 s :
  is_id id1 = true -> is_id id2 = true ->
  uri_form (key k1) id1 s \/ url_form (key k1) id1 s ->
  uri_form (key k2) id2 s \/ url_form (key k2) id2 s ->
  k1 = k2 /\ id1 = id2.
Proof.
  intros [Hl1 _]%is_id_spec [Hl2 _]%is_id_spec [F1 | F1] [F2 | F2].
  - destruct F1 as (r1 & -> & _), F2 as (r2 & H & _).
    destruct k1, k2; cbn [key] in H;
      try (exfalso; expose H; discriminate);
      (apply String.app_inj in H; destruct (app_same_length _ _ _ _ H) as [-> _];
       [congruence | auto]).
  - destruct (forms_apart _ _ _ _ _ F1 F2).
  - destruct (forms_apart _ _ _ _ _ F2 F1).
  - destruct F1 as (a & q1 & r1 & Ha & _ & -> & _), F2 as (b & q2 & r2 & Hb & _ & H & _).
    assert (a = b).
    { apply (scheme_unique a b ((key k1 +:+ "/") +:+ id1 +:+ q1 +:+ r1)
               ((key k2 +:+ "/") +:+ id2 +:+ q2 +:+ r2)); auto. }
    subst b. apply String.app_inj in H.
    destruct k1, k2; cbn [key] in H;
      try (exfalso; expose H; discriminate);
      (apply String.app_inj in H; destruct (app_same_length _ _ _ _ H) as [-> _];
       [congruence | auto]).
Qed.

(** *** Taking out the locale segments *)

Lemma intl_ways b s m rest g :
  In (m, rest, g) (match_at intl_pattern b s) <->
  exists loc,
    loc <> "" /\ all_in not_slash loc = true /\
    m = "intl-" +:+ loc +:+ "/" /\ s = m +:+ rest /\ g = [].
Proof.
  unfold intl_pattern. split.
  - intros H. apply in_then in H as (m1 & r1 & g1 & m2 & g2 & H1 & H & -> & ->).
    apply in_text in H1 as (-> & -> & ->).
    apply in_then in H as (m3 & r3 & g3 & m4 & g4 & H3 & H4 & -> & ->).
    apply in_more in H3 as (Hne & Hall & -> & ->).
    apply in_text in H4 as (-> & -> & ->).
    exists m3. rewrite !app_string_assoc. auto.
  - intros (loc & Hne & Hall & -> & -> & ->).
    apply in_then. eexists "intl-", _, [], _, [].
    split; [apply in_text; split; [reflexivity|]; split; [|reflexivity];
            rewrite !app_string_assoc; reflexivity|].
    split; [|split; reflexivity].
    apply in_then. eexists loc, _, [], "/", [].
    split; [apply in_more; auto|]. split; [apply in_text; auto | auto].
Qed.

Lemma intl_needs_slash_after_dash b s w :
  In w (match_at intl_pattern b s) -> slash_after_dash s = true.
Proof.
  destruct w as [[m rest] g]. intros (loc & _ & _ & -> & -> & _)%intl_ways.
  rewrite !app_string_assoc, !app_cons, app_empty. cbn.
  rewrite all_in_app. cbn. rewrite andb_false_r. reflexivity.
Qed.

Lemma slash_after_dash_tail c s :
  slash_after_dash (String c s) = false -> slash_after_dash s = false.
Proof.
  cbn. destruct (Ascii.eqb c "-"); [|auto].
  intros H%negb_false_iff. induction s as [|d s IH]; [reflexivity|].
  cbn in *. apply andb_true_iff in H as [Hd Hs].
  destruct (Ascii.eqb d "-"); [rewrite Hs; reflexivity | auto].
Qed.

(** Where no [-] is followed by a [/] there is nothing to take out. *)
Lemma sub_nothing b s :
  slash_after_dash s = false -> sub_from intl_pattern b 0 s = s.
Proof.
  revert b. induction s as [|c s IH]; intros b H; [reflexivity|].
  cbn [sub_from].
  destruct (match_at intl_pattern b (String c s)) as [|w l] eqn:Hm.
  - rewrite (IH false (slash_after_dash_tail _ _ H)). reflexivity.
  - assert (Hin : In w (match_at intl_pattern b (String c s))) by (rewrite Hm; left; reflexivity).
    apply intl_needs_slash_after_dash in Hin. congruence.
Qed.

Lemma slash_after_dash_app a b :
  all_in not_dash a = true -> slash_after_dash (a +:+ b) = slash_after_dash b.
Proof.
  induction a as [|c a IH]; [reflexivity|]. rewrite app_cons. cbn.
  intros [Hc Ha]%andb_true_iff. unfold not_dash in Hc. apply negb_true_iff in Hc.
  rewrite Hc. auto.
Qed.

Lemma slash_free_no_slash_after_dash s :
  all_in not_slash s = true -> slash_after_dash s = false.
Proof.
  induction s as [|c s IH]; [reflexivity|]. cbn.
  intros [Hc Hs]%andb_true_iff. destruct (Ascii.eqb c "-"); [rewrite Hs; reflexivity | auto].
Qed.

Lemma alnum_not_dash c : alnum c = true -> not_dash c = true.
Proof.
  destruct c as [[] [] [] [] [] [] [] []]; cbn; try reflexivity; discriminate.
Qed.

Lemma alnum_not_slash c : alnum c = true -> not_slash c = true.
Proof.
  destruct c as [[] [] [] [] [] [] [] []]; cbn; try reflexivity; discriminate.
Qed.

Lemma alnum_not_line_feed c : alnum c = true -> not_line_feed c = true.
Proof.
  destruct c as [[] [] [] [] [] [] [] []]; cbn; try reflexivity; discriminate.
Qed.

(** A character that does not begin the segment is kept. *)
Lemma sub_keeps b c s :
  match_at intl_pattern b (String c s) = [] ->
  sub_from intl_pattern b 0 (String c s) = String c (sub_from intl_pattern false 0 s).
Proof. intros H. cbn [sub_from]. rewrite H. reflexivity. Qed.

Lemma sub_skips r k :
  forall a rest, String.length a = k ->
    sub_from r false k (a +:+ rest) = sub_from r false 0 rest.
Proof.
  induction k as [|k IH]; intros [|c a] rest; cbn [String.length]; try discriminate.
  - reflexivity.
  - intros [= Hl]. rewrite app_cons.
    change (sub_from r false (S k) (String c (a +:+ rest)))
      with (sub_from r false k (a +:+ rest)).
    apply (IH a rest Hl).
Qed.

Lemma split_at_slash a a' r r' :
  all_in not_slash a = true -> all_in not_slash a' = true ->
  a +:+ "/" +:+ r = a' +:+ "/" +:+ r' -> a = a' /\ r = r'.
Proof.
  revert a'. induction a as [|c a IH]; intros [|c' a']; cbn [all_in];
    rewrite ?app_cons, ?app_empty.
  - intros _ _ [= ->]. auto.
  - intros _ [Hc _]%andb_true_iff [= <- _]. discriminate.
  - intros [Hc _]%andb_true_iff _ [= -> _]. discriminate.
  - intros [_ Ha]%andb_true_iff [_ Ha']%andb_true_iff [= <- H].
    destruct (IH a' Ha Ha' H) as [-> ->]. auto.
Qed.

(** A locale segment at the front is taken out. *)
Lemma sub_takes_segment b loc rest :
  loc <> "" -> all_in not_slash loc = true ->
  sub_from intl_pattern b 0 ("intl-" +:+ loc +:+ "/" +:+ rest)
  = sub_from intl_pattern false 0 rest.
Proof.
  intros Hne Hall.
  assert (Hin : In ("intl-" +:+ loc +:+ "/", rest, [])
                   (match_at intl_pattern b ("intl-" +:+ loc +:+ "/" +:+ rest))).
  { apply intl_ways. exists loc. rewrite !app_string_assoc. auto. }
  rewrite app_cons at 1.
  destruct (match_at intl_pattern b ("intl-" +:+ loc +:+ "/" +:+ rest)) as [|w l] eqn:Hm;
    [destruct Hin|].
  cbn [sub_from]. rewrite app_cons in Hm at 1. cbv beta in Hm. rewrite Hm.
  assert (Hw : In w (match_at intl_pattern b ("intl-" +:+ loc +:+ "/" +:+ rest))).
  { rewrite app_cons at 1. cbv beta. rewrite Hm. left. reflexivity. }
  destruct w as [[m rest'] g].
  apply intl_ways in Hw as (loc' & _ & Hall' & -> & Hs & _).
  rewrite !app_string_assoc in Hs. apply String.app_inj in Hs.
  destruct (split_at_slash _ _ _ _ Hall Hall' Hs) as [<- <-].
  rewrite app_cons. cbn [String.length].
  pose proof (sub_skips intl_pattern _ ("ntl-" +:+ loc +:+ "/") rest eq_refl) as Hk.
  rewrite !app_string_assoc in Hk. exact Hk.
Qed.

Lemma sub_other b c s :
  c <> "i"%char ->
  sub_from intl_pattern b 0 (String c s) = String c (sub_from intl_pattern false 0 s).
Proof.
  intros Hc. apply sub_keeps.
  destruct (match_at intl_pattern b (String c s)) as [|[[m rest] g] l] eqn:Hm; [reflexivity|].
  assert (Hin : In (m, rest, g) (match_at intl_pattern b (String c s)))
    by (rewrite Hm; left; reflexivity).
  apply intl_ways in Hin as (loc & _ & _ & -> & Hs & _).
  rewrite !app_cons in Hs. injection Hs as -> _. congruence.
Qed.

Lemma sub_i_other b c s :
  c <> "n"%char ->
  sub_from intl_pattern b 0 (String "i" (String c s))
  = String "i" (sub_from intl_pattern false 0 (String c s)).
Proof.
  intros Hc. apply sub_keeps.
  destruct (match_at intl_pattern b _) as [|[[m rest] g] l] eqn:Hm; [reflexivity|].
  assert (Hin : In (m, rest, g) (match_at intl_pattern b (String "i" (String c s))))
    by (rewrite Hm; left; reflexivity).
  apply intl_ways in Hin as (loc & _ & _ & -> & Hs & _).
  rewrite !app_cons in Hs. injection Hs as -> _. congruence.
Qed.

Ltac pass_prefix :=
  rewrite ?app_string_assoc, ?app_cons, ?app_empty;
  repeat first [ rewrite sub_other by discriminate
               | rewrite sub_i_other by discriminate ].

Lemma strip_locale scheme loc t :
  In scheme ["https://"; "http://"; ""] ->
  loc <> "" -> all_in not_slash loc = true ->
  slash_after_dash t = false ->
  re_sub_delete intl_pattern (scheme +:+ "open.spotify.com/" +:+ "intl-" +:+ loc +:+ "/" +:+ t)
  = scheme +:+ "open.spotify.com/" +:+ t.
Proof.
  intros Hs Hne Hall Ht. unfold re_sub_delete.
  pose proof (sub_takes_segment false loc t Hne Hall) as Hseg.
  rewrite (sub_nothing false t Ht) in Hseg.
  rewrite ?app_string_assoc, ?app_cons, ?app_empty in Hseg.
  destruct Hs as [<- | [<- | [<- | []]]]; pass_prefix; rewrite Hseg; reflexivity.
Qed.

(** *** The dictionary *)

Lemma parse_url_only k id s :
  is_id id = true ->
  uri_form (key k) id (re_sub_delete intl_pattern s) \/
  url_form (key k) id (re_sub_delete intl_pattern s) ->
  parse_url s = only k id.
Proof.
  intros Hid Hform.
  assert (Hk : field k (parse_url s) = Some id) by (apply parse_url_field; auto).
  assert (Hother : forall k', k' <> k -> field k' (parse_url s) = None).
  { intros k' Hne. destruct (field k' (parse_url s)) as [id'|] eqn:Hf; [|reflexivity].
    apply parse_url_field in Hf as [Hid' Hform'].
    destruct (forms_one_kind _ _ _ _ _ Hid' Hid Hform' Hform) as [-> _]. congruence. }
  assert (Hall : forall k', field k' (parse_url s) = field k' (only k id)).
  { intros k'. destruct k, k'; first [exact Hk | apply Hother; discriminate]. }
  pose proof (Hall a_track) as H1. pose proof (Hall an_album) as H2.
  pose proof (Hall a_playlist) as H3. pose proof (Hall an_episode) as H4.
  pose proof (Hall a_show) as H5. pose proof (Hall an_artist) as H6.
  destruct (parse_url s) as [f1 f2 f3 f4 f5 f6].
  destruct k; cbn in H1, H2, H3, H4, H5, H6; subst; reflexivity.
Qed.

Lemma parse_url_nothing s :
  (forall k id, is_id id = true ->
     ~ uri_form (key k) id (re_sub_delete intl_pattern s) /\
     ~ url_form (key k) id (re_sub_delete intl_pattern s)) ->
  parse_url s = nothing.
Proof.
  intros Hno.
  assert (Hnone : forall k, field k (parse_url s) = None).
  { intros k. destruct (field k (parse_url s)) as [id|] eqn:Hf; [|reflexivity].
    apply parse_url_field in Hf as [Hid Hform]. destruct (Hno k id Hid). tauto. }
  pose proof (Hnone a_track) as H1. pose proof (Hnone an_album) as H2.
  pose proof (Hnone a_playlist) as H3. pose proof (Hnone an_episode) as H4.
  pose proof (Hnone a_show) as H5. pose proof (Hnone an_artist) as H6.
  destruct (parse_url s) as [f1 f2 f3 f4 f5 f6].
  cbn in H1, H2, H3, H4, H5, H6. subst. reflexivity.
Qed.

Lemma parse_url_by_stripped a b :
  re_sub_delete intl_pattern a = re_sub_delete intl_pattern b -> parse_url a = parse_url b.
Proof. unfold parse_url. intros ->. reflexivity. Qed.

Lemma key_clear k : all_in not_dash (key k) = true /\ all_in not_slash (key k) = true.
Proof. destruct k; split; reflexivity. Qed.

Lemma id_clear id :
  is_id id = true -> all_in not_dash id = true /\ all_in not_slash id = true.
Proof.
  intros [_ H]%is_id_spec. split.
  - apply (all_in_weaken alnum); [exact alnum_not_dash | exact H].
  - apply (all_in_weaken alnum); [exact alnum_not_slash | exact H].
Qed.

Lemma uri_untouched k id :
  is_id id = true ->
  re_sub_delete intl_pattern (("spotify:" +:+ key k +:+ ":") +:+ id)
  = ("spotify:" +:+ key k +:+ ":") +:+ id.
Proof.
  intros Hid. apply sub_nothing, slash_free_no_slash_after_dash.
  destruct (key_clear k) as [_ Hk]. destruct (id_clear id Hid) as [_ Hi].
  rewrite !all_in_app, Hk, Hi. reflexivity.
Qed.

Lemma link_untouched scheme k id tail :
  In scheme ["https://"; "http://"; ""] -> is_id id = true ->
  slash_after_dash tail = false ->
  re_sub_delete intl_pattern
    (scheme +:+ ("open.spotify.com/" +:+ key k +:+ "/") +:+ id +:+ tail)
  = scheme +:+ ("open.spotify.com/" +:+ key k +:+ "/") +:+ id +:+ tail.
Proof.
  intros Hs Hid Ht. apply sub_nothing.
  destruct (key_clear k) as [Hk _]. destruct (id_clear id Hid) as [Hi _].
  rewrite slash_after_dash_app
    by (destruct Hs as [<- | [<- | [<- | []]]]; reflexivity).
  rewrite slash_after_dash_app by (rewrite !all_in_app, Hk; reflexivity).
  rewrite slash_after_dash_app by exact Hi.
  exact Ht.
Qed.

(** X1.  [parse_url] reads the forms it is written for.  For an id of 22
    letters and digits, the URI [spotify:<kind>:<id>] and the link
    [open.spotify.com/<kind>/<id>], with [https://], [http://] or no scheme
    before it and with or without a [?si=] part after it, give the id under
    the key of the kind and [None] under the five other keys. *)
Theorem parse_url_reads_uris_and_links (k : entity) (id : string) :
  is_id id = true ->
  parse_url ("spotify:" +:+ key k +:+ ":" +:+ id) = only k id /\
  (forall scheme,
     In scheme ["https://"; "http://"; ""] ->
     parse_url (scheme +:+ "open.spotify.com/" +:+ key k +:+ "/" +:+ id) = only k id /\
     (forall si,
        si <> "" -> all_in not_line_feed si = true -> all_in not_slash si = true ->
        parse_url (scheme +:+ "open.spotify.com/" +:+ key k +:+ "/" +:+ id +:+ "?si=" +:+ si)
        = only k id)).
Proof.
  intros Hid. split; [|intros scheme Hs; split; [|intros si Hne Hlf Hsl]].
  - apply (parse_url_only k id _ Hid). left.
    replace ("spotify:" +:+ key k +:+ ":" +:+ id)
      with (("spotify:" +:+ key k +:+ ":") +:+ id) by (rewrite !app_string_assoc; reflexivity).
    rewrite (uri_untouched k id Hid).
    exists "". rewrite app_empty_r. auto.
  - apply (parse_url_only k id _ Hid). right.
    replace (scheme +:+ "open.spotify.com/" +:+ key k +:+ "/" +:+ id)
      with (scheme +:+ ("open.spotify.com/" +:+ key k +:+ "/") +:+ id +:+ "")
      by (rewrite !app_string_assoc, app_empty_r; reflexivity).
    rewrite (link_untouched scheme k id "" Hs Hid eq_refl).
    exists scheme, "", "". unfold is_query. auto.
  - apply (parse_url_only k id _ Hid). right.
    replace (scheme +:+ "open.spotify.com/" +:+ key k +:+ "/" +:+ id +:+ "?si=" +:+ si)
      with (scheme +:+ ("open.spotify.com/" +:+ key k +:+ "/") +:+ id +:+ ("?si=" +:+ si))
      by (rewrite !app_string_assoc; reflexivity).
    rewrite (link_untouched scheme k id ("?si=" +:+ si) Hs Hid).
    + exists scheme, ("?si=" +:+ si), "". rewrite app_empty_r.
      split; [exact Hs|]. split; [right; eauto|]. auto.
    + rewrite (slash_after_dash_app "?si=" si eq_refl).
      apply slash_free_no_slash_after_dash. exact Hsl.
Qed.

Lemma parse_url_reads_uris_and_links_witness :
  is_id "4uLU6hMCjMI75M1A2tKUQC" = true /\
  parse_url "spotify:track:4uLU6hMCjMI75M1A2tKUQC" = only a_track "4uLU6hMCjMI75M1A2tKUQC".
Proof.
  split; [reflexivity|].
  exact (proj1 (parse_url_reads_uris_and_links a_track "4uLU6hMCjMI75M1A2tKUQC" eq_refl)).
Defined.

(** X2.  A locale segment after the host makes no difference: a link with
    [intl-<locale>/] between [open.spotify.com/] and the rest is parsed as
    the link without it, whatever the rest is. *)
Theorem parse_url_ignores_locale (scheme loc rest : string) :
  In scheme ["https://"; "http://"; ""] ->
  loc <> "" -> all_in not_slash loc = true ->
  parse_url (scheme +:+ "open.spotify.com/" +:+ "intl-" +:+ loc +:+ "/" +:+ rest)
  = parse_url (scheme +:+ "open.spotify.com/" +:+ rest).
Proof.
  intros Hs Hne Hall. apply parse_url_by_stripped. unfold re_sub_delete.
  pose proof (sub_takes_segment false loc rest Hne Hall) as Hseg.
  rewrite ?app_string_assoc, ?app_cons, ?app_empty in Hseg.
  destruct Hs as [<- | [<- | [<- | []]]]; pass_prefix; rewrite Hseg; reflexivity.
Qed.

Lemma parse_url_ignores_locale_witness :
  parse_url "https://open.spotify.com/intl-de/album/4uLU6hMCjMI75M1A2tKUQC"
  = parse_url "https://open.spotify.com/album/4uLU6hMCjMI75M1A2tKUQC".
Proof.
  apply (parse_url_ignores_locale "https://" "de" "album/4uLU6hMCjMI75M1A2tKUQC").
  - left. reflexivity.
  - discriminate.
  - reflexivity.
Defined.

(** X3.  What [parse_url] accepts, and nothing else.  With the locale
    segments taken out of the input, the key of a kind holds [id] exactly
    when [id] is 22 letters and digits and the text is the URI or the link
    of that kind and id, a line feed at the very end being let through.  So
    at most one key holds an id. *)
Theorem parse_url_accepts (s : string) :
  (forall k id,
     field k (parse_url s) = Some id <->
     is_id id = true /\
     (uri_form (key k) id (re_sub_delete intl_pattern s) \/
      url_form (key k) id (re_sub_delete intl_pattern s))) /\
  (forall k1 k2 id1 id2,
     field k1 (parse_url s) = Some id1 -> field k2 (parse_url s) = Some id2 ->
     k1 = k2 /\ id1 = id2).
Proof.
  split.
  - intros k id. apply parse_url_field.
  - intros k1 k2 id1 id2 [Hid1 F1]%parse_url_field [Hid2 F2]%parse_url_field.
    apply (forms_one_kind _ _ _ _ _ Hid1 Hid2 F1 F2).
Qed.

Example parse_url_runs :
  parse_url "https://open.spotify.com/intl-de/track/4uLU6hMCjMI75M1A2tKUQC?si=0a1b2c"
  = only a_track "4uLU6hMCjMI75M1A2tKUQC" /\
  parse_url ("spotify:show:4uLU6hMCjMI75M1A2tKUQC" +:+ String line_feed_char "")
  = only a_show "4uLU6hMCjMI75M1A2tKUQC" /\
  parse_url "spotify:track:4uLU6hMCjMI75M1A2tKUQ" = nothing /\
  parse_url "https://open.spotify.com/track/4uLU6hMCjMI75M1A2tKUQC?si=" = nothing /\
  parse_url "see https://open.spotify.com/track/4uLU6hMCjMI75M1A2tKUQC" = nothing.
Proof. vm_compute. repeat split. Qed.

(** ** [RespotUtils.sanitize_data] and [conv_artist_format] *)

Lemma replace_char_app old new a b :
  replace_char old new (a +:+ b) = replace_char old new a +:+ replace_char old new b.
Proof.
  induction a as [|c a IH]; [reflexivity|].
  rewrite app_cons. cbn [replace_char].
  destruct (Ascii.eqb c old); rewrite IH, ?app_string_assoc; reflexivity.
Qed.

Lemma sanitize_loop_app a b : sanitize_loop (a +:+ b) = sanitize_loop a +:+ sanitize_loop b.
Proof.
  unfold sanitize_loop, SANITIZE_CHARS. cbn [fold_left].
  rewrite !replace_char_app. reflexivity.
Qed.

Lemma sanitize_string_app a b :
  sanitize_string (a +:+ b) = sanitize_string a +:+ sanitize_string b.
Proof.
  induction a as [|c a IH]; [reflexivity|].
  rewrite app_cons. cbn [sanitize_string].
  destruct (existsb _ _); [exact IH|].
  destruct (Ascii.eqb c "|"); rewrite IH; reflexivity.
Qed.

Lemma sanitize_loop_char c :
  sanitize_loop (String c "") = sanitize_string (String c "").
Proof. destruct c as [[] [] [] [] [] [] [] []]; reflexivity. Qed.

Lemma sanitize_loop_one_pass value : sanitize_loop value = sanitize_string value.
Proof.
  induction value as [|c value IH]; [reflexivity|].
  change (String c value) with (String c "" +:+ value).
  rewrite sanitize_loop_app, sanitize_string_app, sanitize_loop_char, IH. reflexivity.
Qed.

(** The characters of a string. *)
Lemma sanitize_string_clean value c :
  In c (list_ascii_of_string (sanitize_string value)) -> ~ In c SANITIZE_CHARS.
Proof.
  induction value as [|d value IH]; cbn [sanitize_string list_ascii_of_string]; [intros []|].
  destruct (existsb (Ascii.eqb d) SANITIZE_DELETED) eqn:Hdel; [exact IH|].
  destruct (Ascii.eqb d "|") eqn:Hbar; cbn [list_ascii_of_string In].
  - intros [<- | Hin]; [|exact (IH Hin)].
    unfold SANITIZE_CHARS, backslash_char, quote_char. cbn. intros H.
    repeat destruct H as [H | H]; try discriminate H. exact H.
  - intros [<- | Hin]; [|exact (IH Hin)].
    intros Hd. unfold SANITIZE_CHARS in Hd. cbn [In] in Hd.
    assert (Hnot : forall x, In x SANITIZE_DELETED -> d <> x).
    { intros x Hx ->.
      assert (existsb (Ascii.eqb x) SANITIZE_DELETED = true)
        by (apply existsb_exists; exists x; split; [exact Hx | apply Ascii.eqb_refl]).
      congruence. }
    apply Ascii.eqb_neq in Hbar.
    unfold SANITIZE_DELETED in Hnot. cbn [In] in Hnot.
    repeat destruct Hd as [Hd | Hd]; try (symmetry in Hd; revert Hd; apply Hnot; tauto).
    + congruence.
    + exact Hd.
Qed.

Lemma sanitize_string_fixed value :
  (forall c, In c (list_ascii_of_string value) -> ~ In c SANITIZE_CHARS) ->
  sanitize_string value = value.
Proof.
  induction value as [|d value IH]; [reflexivity|].
  cbn [list_ascii_of_string sanitize_string]. intros H.
  assert (Hd : ~ In d SANITIZE_CHARS) by (apply H; left; reflexivity).
  destruct (existsb (Ascii.eqb d) SANITIZE_DELETED) eqn:Hdel.
  { exfalso. apply Hd. apply existsb_exists in Hdel as (x & Hx & Heq).
    apply Ascii.eqb_eq in Heq. subst x.
    unfold SANITIZE_DELETED in Hx. unfold SANITIZE_CHARS. cbn [In] in *. tauto. }
  destruct (Ascii.eqb d "|") eqn:Hbar.
  { exfalso. apply Hd. apply Ascii.eqb_eq in Hbar. subst d.
    unfold SANITIZE_CHARS. cbn [In]. tauto. }
  rewrite IH; [reflexivity|]. intros c Hc. apply H. right. exact Hc.
Qed.

Lemma sanitize_string_shorter value :
  (String.length (sanitize_string value) <= String.length value)%nat.
Proof.
  induction value as [|d value IH]; cbn [sanitize_string String.length]; [lia|].
  destruct (existsb _ _); [lia|]. destruct (Ascii.eqb d "|"); cbn [String.length]; lia.
Qed.

Lemma substring_front a b : String.substring 0 (String.length a) (a +:+ b) = a.
Proof.
  induction a as [|c a IH]; cbn [String.length].
  - destruct b; reflexivity.
  - rewrite app_cons. cbn [String.substring]. rewrite IH. reflexivity.
Qed.

Lemma drop_last_two_separator x : drop_last_two (x +:+ ", ") = x.
Proof.
  unfold drop_last_two. rewrite length_string_app. cbn [String.length].
  replace (String.length x + 2 - 2)%nat with (String.length x) by lia.
  apply substring_front.
Qed.

(** The names with a separator after each of them. *)
Lemma concat_separated name names :
  String.concat ", " (name :: names) +:+ ", "
  = name +:+ ", " +:+ match names with
                      | [] => ""
                      | _ => String.concat ", " names +:+ ", "
                      end.
Proof.
  destruct names as [|n names]; cbn [String.concat].
  - rewrite app_empty_r. reflexivity.
  - rewrite !app_string_assoc. reflexivity.
Qed.

Lemma conv_artist_loop_fold items :
  forall formatted,
    fold_left
      (fun so_far artist =>
         try formatted <- so_far ;;
         match artist with
         | JStr a => Returns (formatted +:+ a +:+ ", ")
         | _ => Raises TypeError
         end)
      items (Returns formatted)
    = try names <- for_each (fun a => match a with
                                      | JStr s => Returns [s]
                                      | _ => Raises TypeError
                                      end) items ;;
      Returns (formatted +:+ match names with
                             | [] => ""
                             | _ => String.concat ", " names +:+ ", "
                             end).
Proof.
  assert (Hraised : forall (l : list json) e,
            fold_left
              (fun so_far artist =>
                 try formatted <- so_far ;;
                 match artist with
                 | JStr a => Returns (formatted +:+ a +:+ ", ")
                 | _ => Raises TypeError
                 end) l (Raises e) = Raises e)
    by (induction l as [|x l IHl]; intros e; [reflexivity | apply IHl]).
  induction items as [|x items IH]; intros formatted.
  - cbn. rewrite app_empty_r. reflexivity.
  - cbn [fold_left for_each rbind].
    destruct x; cbn [rbind]; try apply Hraised.
    rewrite IH. destruct (for_each _ items) as [names|e]; cbn [rbind]; [|reflexivity].
    cbn [app]. rewrite concat_separated, !app_string_assoc. reflexivity.
Qed.

Lemma conv_artist_loop_joins artists :
  conv_artist_loop artists = conv_artist_format artists.
Proof.
  unfold conv_artist_loop, conv_artist_format.
  destruct (iterate artists) as [items|e]; cbn [rbind]; [|reflexivity].
  rewrite conv_artist_loop_fold.
  destruct (for_each _ items) as [names|e]; cbn [rbind]; [|reflexivity].
  rewrite app_empty. destruct names as [|n names].
  - reflexivity.
  - rewrite drop_last_two_separator. reflexivity.
Qed.

(** X4.  The ten replacements of [sanitize_data], made one after the other,
    amount to one pass over the characters: each of the nine characters of
    [SANITIZE_DELETED] is dropped, the bar becomes a dash, and every other
    character stays; so the result for a text is the results for its
    parts, put together. *)
Theorem sanitize_data_is_one_pass (value : string) :
  sanitize_loop value = sanitize_string value /\
  sanitize_data (JStr value) = Returns (sanitize_loop value) /\
  (forall a b, sanitize_loop (a +:+ b) = sanitize_loop a +:+ sanitize_loop b).
Proof.
  split; [apply sanitize_loop_one_pass|]. split.
  - rewrite sanitize_loop_one_pass. reflexivity.
  - apply sanitize_loop_app.
Qed.

(** X5.  What [sanitize_data] returns holds none of the ten characters, is
    left as it is by a second call, and is no longer than the text given;
    a text that holds none of the characters comes back unchanged.  Only a
    string is accepted. *)
Theorem sanitize_data_is_clean (value : json) (clean : string) :
  sanitize_data value = Returns clean ->
  (forall c, In c (list_ascii_of_string clean) -> ~ In c SANITIZE_CHARS) /\
  sanitize_data (JStr clean) = Returns clean /\
  exists text,
    value = JStr text /\
    (String.length clean <= String.length text)%nat /\
    ((forall c, In c (list_ascii_of_string text) -> ~ In c SANITIZE_CHARS) -> clean = text).
Proof.
  destruct value as [| | |text| |]; try discriminate. cbn. intros [= <-].
  split; [intros c; apply sanitize_string_clean|]. split.
  - rewrite sanitize_string_fixed; [reflexivity|]. intros c. apply sanitize_string_clean.
  - exists text. split; [reflexivity|]. split; [apply sanitize_string_shorter|].
    apply sanitize_string_fixed.
Qed.

Lemma sanitize_data_is_clean_witness :
  sanitize_data (JStr "AC/DC: Who Made Who?") = Returns "ACDC Who Made Who" /\
  sanitize_data (JStr "ACDC Who Made Who") = Returns "ACDC Who Made Who".
Proof.
  split; [reflexivity|].
  exact (proj1 (proj2 (sanitize_data_is_clean (JStr "AC/DC: Who Made Who?")
                         "ACDC Who Made Who" eq_refl))).
Defined.

(** X6.  [conv_artist_format] joins the names with [", "]: the loop that
    appends every name with a separator after it and then cuts the last two
    characters returns the names separated by [", "], with nothing after
    the last, and the empty text for no name at all; an artist that is not
    a string makes it raise [TypeError]. *)
Theorem conv_artist_format_joins :
  (forall artists, conv_artist_loop artists = conv_artist_format artists) /\
  (forall names,
     conv_artist_loop (JArr (map JStr names)) = Returns (String.concat ", " names)) /\
  conv_artist_loop (JArr []) = Returns "" /\
  (forall before artist after,
     (forall a, artist <> JStr a) ->
     conv_artist_loop (JArr (map JStr before ++ artist :: after)) = Raises TypeError).
Proof.
  assert (Hnames : forall names,
            for_each (fun a => match a with
                               | JStr s => Returns [s]
                               | _ => Raises TypeError
                               end) (map JStr names) = Returns names).
  { induction names as [|n names IH]; [reflexivity|].
    cbn [map for_each rbind]. rewrite IH. reflexivity. }
  split; [exact conv_artist_loop_joins|]. split; [|split].
  - intros names. rewrite conv_artist_loop_joins. unfold conv_artist_format.
    cbn [iterate rbind]. rewrite Hnames. reflexivity.
  - reflexivity.
  - intros before artist after Hart. rewrite conv_artist_loop_joins.
    unfold conv_artist_format. cbn [iterate rbind].
    induction before as [|b before IH]; cbn [map app for_each rbind].
    + destruct artist; try reflexivity. destruct (Hart s eq_refl).
    + destruct (for_each _ (map JStr before ++ artist :: after)) as [names|e];
        cbn [rbind] in *; [discriminate | exact IH].
Qed.

(** ** [search] *)

Lemma json_len_iterate v n :
  json_len v = Returns n -> exists each, iterate v = Returns each /\ len each = n.
Proof.
  destruct v; cbn -[chars]; try discriminate; intros [= <-]; eexists; split;
    try reflexivity; unfold len; rewrite length_map; reflexivity.
Qed.

Lemma iterate_json_len v each :
  iterate v = Returns each -> json_len v = Returns (len each).
Proof.
  destruct v; cbn -[chars]; try discriminate; intros [= <-]; unfold len;
    rewrite ?length_map; reflexivity.
Qed.

Lemma search_track_one x out : search_track x = Returns out -> length out = 1%nat.
Proof. revert x out. unfold search_track. one_entry. Qed.

Lemma search_album_one x out : search_album x = Returns out -> length out = 1%nat.
Proof. revert x out. unfold search_album. one_entry. Qed.

Lemma search_playlist_one x out : search_playlist x = Returns out -> length out = 1%nat.
Proof. revert x out. unfold search_playlist. one_entry. Qed.

Lemma search_artist_one x out : search_artist x = Returns out -> length out = 1%nat.
Proof. revert x out. unfold search_artist. one_entry. Qed.

(** A block of [search] makes one entry of every item. *)
Lemma found_in_each guarded shape items made_ :
  (forall x out, shape x = Returns out -> length out = 1%nat) ->
  found_in guarded shape items = Returns made_ ->
  exists each, iterate items = Returns each /\ len made_ = len each.
Proof.
  intros Hone. unfold found_in. destruct guarded.
  - destruct (json_len items) as [n|e] eqn:Hn; cbn [rbind]; [|discriminate].
    destruct (json_len_iterate _ _ Hn) as (each & Hit & Hlen). rewrite Hit. cbn [rbind].
    destruct (0 <? n)%Z eqn:Hpos.
    + intros H. exists each. split; [reflexivity|].
      apply (for_each_one_each shape Hone each made_ H).
    + intros [= <-]. exists each. split; [reflexivity|].
      apply Z.ltb_ge in Hpos. pose proof (len_nonneg each). change (len (@nil json)) with 0. lia.
  - destruct (iterate items) as [each|e]; cbn [rbind]; [|discriminate].
    intros H. exists each. split; [reflexivity|].
    apply (for_each_one_each shape Hone each made_ H).
Qed.

Lemma for_each_stops {A B} (shape : A -> result (list B)) before x after e :
  (forall a, In a before -> exists out, shape a = Returns out) ->
  shape x = Raises e ->
  for_each shape (before ++ x :: after) = Raises e.
Proof.
  intros Hgood Hbad. induction before as [|b before IH]; cbn [app for_each rbind].
  - rewrite Hbad. reflexivity.
  - destruct (Hgood b (or_introl eq_refl)) as [out ->]. cbn [rbind].
    rewrite IH; [reflexivity|]. intros a Ha. apply Hgood. right. exact Ha.
Qed.

Lemma len_zero_nil {A} (l : list A) : len l = 0 <-> l = [].
Proof. split; [apply len_nil_inv | intros ->; reflexivity]. Qed.

(** What [search_results] returns, by what the four lists of the body
    hold. *)
Lemma search_results_found body found :
  search_results body = Returns found ->
  exists lt la lp lr rt ra rp rr,
    hits body "tracks" = Returns lt /\ hits body "albums" = Returns la /\
    hits body "playlists" = Returns lp /\ hits body "artists" = Returns lr /\
    len rt = len lt /\ len ra = len la /\ len rp = len lp /\ len rr = len lr /\
    found = (if (len lt + len la + len lp + len lr =? 0)%Z
             then None else Some (results_of rt ra rp rr)).
Proof.
  unfold search_results, hits.
  destruct (items_under body "tracks") as [tracks|e] eqn:H1; cbn [rbind]; [|discriminate].
  destruct (found_in true search_track tracks) as [rt|e] eqn:F1; cbn [rbind]; [|discriminate].
  destruct (items_under body "albums") as [albums|e] eqn:H2; cbn [rbind]; [|discriminate].
  destruct (found_in true search_album albums) as [ra|e] eqn:F2; cbn [rbind]; [|discriminate].
  destruct (items_under body "playlists") as [playlists|e] eqn:H3; cbn [rbind]; [|discriminate].
  destruct (found_in false search_playlist playlists) as [rp|e] eqn:F3; cbn [rbind];
    [|discriminate].
  destruct (items_under body "artists") as [artists|e] eqn:H4; cbn [rbind]; [|discriminate].
  destruct (found_in false search_artist artists) as [rr|e] eqn:F4; cbn [rbind];
    [|discriminate].
  destruct (found_in_each _ _ _ _ search_track_one F1) as (lt & -> & L1).
  destruct (found_in_each _ _ _ _ search_album_one F2) as (la & -> & L2).
  destruct (found_in_each _ _ _ _ search_playlist_one F3) as (lp & -> & L3).
  destruct (found_in_each _ _ _ _ search_artist_one F4) as (lr & -> & L4).
  intros Hfound. exists lt, la, lp, lr, rt, ra, rp, rr.
  repeat (split; [first [reflexivity | assumption]|]).
  rewrite <- L1, <- L2, <- L3, <- L4.
  destruct (_ =? 0)%Z; injection Hfound as <-; reflexivity.
Qed.

(** X7.  [search] sends one request, for tracks, albums, playlists and
    artists at offset 0, and when the answer is not a 401 it makes one
    entry of every item of the four lists of the body.  It returns [None]
    exactly when the four lists are empty, and otherwise the four lists of
    entries, each as long as the list it was made of. *)
Theorem search_reports_what_it_found (E : environment) (search_term : string)
    (search_limit : json) (s : state) (resp : Response) (body : json) :
  answered E (length (http_log s)) resp ->
  status_code resp <> 401 ->
  parsed resp = Some body ->
  let r := search E search_term search_limit s in
  final r = sent "https://api.spotify.com/v1/search" None
              (search_params search_term search_limit) s /\
  value r = match search_results body with
            | Returns found => Ok found
            | Raises e => Raise e
            end /\
  (forall found,
     search_results body = Returns found ->
     exists lt la lp lr,
       hits body "tracks" = Returns lt /\ hits body "albums" = Returns la /\
       hits body "playlists" = Returns lp /\ hits body "artists" = Returns lr /\
       (found = None <-> lt = [] /\ la = [] /\ lp = [] /\ lr = []) /\
       (forall d, found = Some d ->
          exists rt ra rp rr,
            d = results_of rt ra rp rr /\
            len rt = len lt /\ len ra = len la /\ len rp = len lp /\ len rr = len lr)).
Proof.
  intros Hans Hst Hbody r. subst r. unfold search, bind.
  rewrite (authorized_get_request_answered E _ None _ s resp Hans Hst).
  unfold lift, json_of. rewrite Hbody. cbn [final value fst snd].
  split; [destruct (search_results body); reflexivity|].
  split; [destruct (search_results body); reflexivity|].
  intros found Hfound.
  destruct (search_results_found body found Hfound)
    as (lt & la & lp & lr & rt & ra & rp & rr & H1 & H2 & H3 & H4 & L1 & L2 & L3 & L4 & ->).
  exists lt, la, lp, lr. do 4 (split; [assumption|]).
  pose proof (len_nonneg lt). pose proof (len_nonneg la).
  pose proof (len_nonneg lp). pose proof (len_nonneg lr).
  destruct (_ =? 0)%Z eqn:Hsum.
  - apply Z.eqb_eq in Hsum. split; [|discriminate].
    split; [|reflexivity]. intros _.
    repeat split; apply len_zero_nil; lia.
  - apply Z.eqb_neq in Hsum. split.
    + split; [discriminate|]. intros (-> & -> & -> & ->). exfalso. apply Hsum. reflexivity.
    + intros d [= <-]. exists rt, ra, rp, rr. auto.
Qed.

Lemma search_reports_what_it_found_witness :
  answered env_search (length (http_log st_stale)) (mkResponse 200 (Some search_body)) /\
  value (search env_search "song" (JNum 10) st_stale)
  = Ok (Some (results_of
                [JObj [("id", JStr "t1"); ("name", JStr "[E]Song"); ("artists", JStr "A,B")]]
                [] []
                [JObj [("name", JStr "A"); ("genres", JStr "rock/pop"); ("id", JStr "a1")]])).
Proof.
  assert (Hans : answered env_search (length (http_log st_stale))
                   (mkResponse 200 (Some search_body))) by (intros rq; reflexivity).
  split; [exact Hans|].
  pose proof (search_reports_what_it_found env_search "song" (JNum 10) st_stale
                (mkResponse 200 (Some search_body)) search_body Hans
                ltac:(discriminate) eq_refl) as (_ & Hv & _).
  exact Hv.
Defined.

(** X8.  An album whose release date, an ASCII text, shows no four digits
    in a row makes the whole search raise [AttributeError], after the
    tracks and the albums before it were gone through: [search] takes the
    year from the match without looking whether there is one, where
    [get_album_info] keeps such a date as it is. *)
Theorem search_needs_a_year_in_every_album (body tracks : json) (ret_tracks : list json)
    (before after : list json) (album : json) (d : string) :
  items_under body "tracks" = Returns tracks ->
  found_in true search_track tracks = Returns ret_tracks ->
  items_under body "albums" = Returns (JArr (before ++ album :: after)) ->
  (forall a, In a before -> exists out, search_album a = Returns out) ->
  getitem album "release_date" = Returns (JStr d) ->
  ascii_text d = true ->
  search_year d = None ->
  search_results body = Raises AttributeError /\
  release_year_or_date (JStr d) = Returns (JStr d).
Proof.
  intros Ht Hft Ha Hbefore Hdate _ Hyear. split.
  - unfold search_results. rewrite Ht. cbn [rbind]. rewrite Hft. cbn [rbind].
    rewrite Ha. cbn [rbind]. unfold found_in at 1. cbn [json_len rbind iterate].
    assert (Hpos : (0 <? len (before ++ album :: after))%Z = true).
    { apply Z.ltb_lt. unfold len. rewrite length_app. cbn [length]. lia. }
    rewrite Hpos.
    rewrite (for_each_stops search_album before album after AttributeError Hbefore);
      [reflexivity|].
    unfold search_album. rewrite Hdate. cbn [rbind year_of]. rewrite Hyear. reflexivity.
  - cbn. rewrite Hyear. reflexivity.
Qed.

Lemma search_needs_a_year_in_every_album_witness :
  search_results (albums_body [found_album "1986-05-24"; found_album "unknown"])
  = Raises AttributeError /\
  release_year_or_date (JStr "unknown") = Returns (JStr "unknown").
Proof.
  apply (search_needs_a_year_in_every_album
           (albums_body [found_album "1986-05-24"; found_album "unknown"])
           (JArr []) [] [found_album "1986-05-24"] [] (found_album "unknown") "unknown").
  - reflexivity.
  - reflexivity.
  - reflexivity.
  - intros a [<- | []]. eexists. vm_compute. reflexivity.
  - reflexivity.
  - reflexivity.
  - reflexivity.
Defined.

(** ** Logging in with a username and a password *)

Lemma truthy_some u : u <> "" -> truthy (Some u) = true.
Proof.
  intros Hu. cbn. apply negb_true_iff, String.eqb_neq. exact Hu.
Qed.

(** [login] up to the choice of the way to authenticate. *)
Lemma login_run E username password s :
  login E username password s =
  match mkdir_parents (fs s) (parent (credentials (auth s))) with
  | Raises e => (Raise e, s)
  | Returns f =>
      if is_file f (credentials (auth s))
      then _authenticate_with_stored_credentials E (with_fs f s)
      else
        match username, password with
        | Some u, Some p =>
            if truthy username && truthy password
            then _authenticate_with_user_pass E u p (with_fs f s)
            else (Ok false, with_fs f s)
        | _, _ => (Ok false, with_fs f s)
        end
  end.
Proof.
  unfold login, _ensure_credentials_directory, _has_stored_credentials, bind, gets, modify,
    lift, ret.
  cbn. destruct (mkdir_parents _ _) as [f|e]; cbn; [|reflexivity].
  destruct (is_file f _); [reflexivity|].
  destruct username, password; try reflexivity.
  destruct (truthy (Some s0) && truthy (Some s1)); reflexivity.
Qed.

Lemma is_file_dirs d fl d' p : is_file (mkFs d fl) p = is_file (mkFs d' fl) p.
Proof. reflexivity. Qed.

Lemma check_premium_frame s sess :
  session (auth s) = Some sess ->
  exists q line,
    _check_premium s =
    (Ok tt, with_console (console s ++ [line]) (with_auth (set_quality (Some q) (auth s)) s)).
Proof.
  intros Hs. unfold _check_premium, bind, gets, modify, print. cbn. rewrite Hs.
  destruct (is_premium_type _ || force_premium (auth s))%bool; cbn; eauto.
Qed.

(** The file [credentials.json] of the working directory is moved to a
    path that is no directory, in a directory that is there. *)
Lemma rename_file_moves f dst :
  is_file f local_credentials = true ->
  is_dir f local_credentials = false ->
  is_dir f (parent dst) = true ->
  is_dir f dst = false ->
  rename_file f local_credentials dst
  = Returns (mkFs (dirs f) ((files f ∖ {[local_credentials]}) ∪ {[dst]})).
Proof.
  intros Hfile Hnodir Hparent Hdst. unfold rename_file.
  change (parent local_credentials) with (@nil string).
  change (is_dir f []) with true. cbn [negb].
  rewrite Hparent. cbn [negb].
  assert (Hne : dst <> []) by (intros ->; discriminate).
  rewrite (bool_decide_eq_false_2 (dst = [])) by exact Hne.
  change (bool_decide (local_credentials = [])) with false. cbn [orb].
  unfold path_exists. rewrite Hfile, Hnodir. cbn [orb negb andb].
  destruct (bool_decide (local_credentials = dst)) eqn:Hsame.
  - apply bool_decide_eq_true in Hsame. subst dst.
    f_equal. destruct f as [d fl]. cbn. f_equal.
    apply bool_decide_eq_true in Hfile. cbn in Hfile.
    apply leibniz_equiv. intros x.
    rewrite elem_of_union, elem_of_difference, elem_of_singleton.
    split.
    + intros Hx. destruct (decide (x = local_credentials)); [right | left]; auto.
    + intros [[Hx _] | ->]; assumption.
  - apply bool_decide_eq_false in Hsame.
    assert (Hin : inside dst local_credentials = false).
    { unfold inside. apply bool_decide_eq_false. intros [k Hk].
      destruct dst as [|a dst]; [congruence|].
      destruct dst as [|b dst]; cbn in Hk; [|discriminate].
      injection Hk as Ha Hk. apply Hsame. subst a. reflexivity. }
    rewrite Hin, Hdst. reflexivity.
Qed.

(** With no [credentials.json] in the working directory there is nothing
    to move. *)
Lemma rename_file_missing f dst :
  path_exists f local_credentials = false ->
  is_dir f (parent dst) = true ->
  dst <> [] ->
  rename_file f local_credentials dst = Raises (FileNotFoundError None).
Proof.
  intros Hmissing Hparent Hne. unfold rename_file.
  change (parent local_credentials) with (@nil string).
  change (is_dir f []) with true. cbn [negb].
  rewrite Hparent. cbn [negb].
  rewrite (bool_decide_eq_false_2 (dst = [])) by exact Hne.
  change (bool_decide (local_credentials = [])) with false. cbn [orb].
  rewrite Hmissing. reflexivity.
Qed.

(** [_authenticate_with_user_pass] when the session is created and
    librespot has left its [credentials.json] behind. *)
Lemma authenticate_with_user_pass_stores E u p s sess :
  create_session E (length (sessions_log s)) (user_pass u p) = (Returns sess, true) ->
  is_dir (fs s) (parent (credentials (auth s))) = true ->
  is_dir (fs s) (credentials (auth s)) = false ->
  is_dir (fs s) local_credentials = false ->
  exists q line,
    _authenticate_with_user_pass E u p s =
    (Ok true,
     mkState
       (mkAuth (credentials (auth s)) (force_premium (auth s)) (Some sess)
          (token (auth s)) (token_your_libary (auth s)) (Some q))
       (request s) (progress_bar s)
       (mkFs (dirs (fs s))
          (((files (fs s) ∪ {[local_credentials]}) ∖ {[local_credentials]})
           ∪ {[credentials (auth s)]}))
       (sessions_log s ++ [user_pass u p]) (http_log s) (reads_log s) (observed s)
       (exports_log s) (sleeps_log s) (console s ++ [line])).
Proof.
  intros Hc Hdir Hcreds Hnodir.
  unfold _authenticate_with_user_pass, try_except, bind, Session_create,
    _persist_credentials_file, gets, modify, lift, ret.
  rewrite Hc. cbn -[rename_file].
  assert (Hlocal : is_file (mkFs (dirs (fs s)) (files (fs s) ∪ {[local_credentials]}))
                     local_credentials = true).
  { unfold is_file. apply bool_decide_eq_true. cbn.
    apply elem_of_union_r, elem_of_singleton. reflexivity. }
  rewrite (rename_file_moves _ _ Hlocal Hnodir Hdir Hcreds). cbn.
  destruct (is_premium_type _ || force_premium (auth s))%bool; cbn;
    eexists _, _; reflexivity.
Qed.

Lemma login_stored_attempt E s f :
  mkdir_parents (fs s) (parent (credentials (auth s))) = Returns f ->
  is_file (fs s) (credentials (auth s)) = true ->
  sessions_log (final (login E None None s))
  = sessions_log s ++ [stored_file (credentials (auth s))].
Proof.
  intros Hmk Hfile. rewrite login_run, Hmk.
  rewrite (mkdir_parents_files _ _ _ Hmk), Hfile.
  unfold _authenticate_with_stored_credentials, try_except, refresh_token, Session_create,
    _check_premium, print, bind, gets, modify, lift, ret, raise, final.
  crush_auth; reflexivity.
Qed.

(** X9.  A first login with a username and a password stores the
    credentials for the next run.  When no credential file exists, both
    texts are not empty, librespot creates the session and leaves its
    [credentials.json] in the working directory, and neither that path nor
    the credentials path is a directory, [login] returns [True], the file
    has been moved to the credentials path, and no token has been minted; a
    later [login()] without arguments then authenticates with the stored
    file. *)
Theorem login_stores_credentials (E : environment) (s : state) (u p : string)
    (f : filesystem) (sess : Session) :
  mkdir_parents (fs s) (parent (credentials (auth s))) = Returns f ->
  is_file (fs s) (credentials (auth s)) = false ->
  is_dir f (credentials (auth s)) = false ->
  is_dir f local_credentials = false ->
  u <> "" -> p <> "" ->
  create_session E (length (sessions_log s)) (user_pass u p) = (Returns sess, true) ->
  let r := login E (Some u) (Some p) s in
  let creds := credentials (auth s) in
  value r = Ok true /\
  sessions_log (final r) = sessions_log s ++ [user_pass u p] /\
  session (auth (final r)) = Some sess /\
  token (auth (final r)) = token (auth s) /\
  token_your_libary (auth (final r)) = token_your_libary (auth s) /\
  is_file (fs (final r)) creds = true /\
  (creds <> local_credentials -> is_file (fs (final r)) local_credentials = false) /\
  (forall E',
     sessions_log (final (login E' None None (final r)))
     = sessions_log (final r) ++ [stored_file creds]).
Proof.
  intros Hmk Hnone Hcreds Hnodir Hu Hp Hc r creds. subst r creds.
  rewrite login_run, Hmk, (mkdir_parents_files _ _ _ Hmk), Hnone.
  rewrite (truthy_some u Hu), (truthy_some p Hp). cbn [andb].
  destruct (mkdir_parents_spec _ _ _ Hmk) as (Hdir & _ & _ & _).
  destruct (authenticate_with_user_pass_stores E u p (with_fs f s) sess Hc Hdir Hcreds Hnodir)
    as (q & line & ->).
  cbn [value final fst snd auth fs sessions_log session token token_your_libary with_fs
       credentials force_premium files dirs request progress_bar http_log reads_log
       observed exports_log sleeps_log console].
  assert (Hstored : forall d fl,
            is_file (mkFs d (fl ∪ {[credentials (auth s)]})) (credentials (auth s)) = true).
  { intros d fl. unfold is_file. apply bool_decide_eq_true. cbn.
    apply elem_of_union_r, elem_of_singleton. reflexivity. }
  do 5 (split; [reflexivity|]).
  split; [apply Hstored|].
  split.
  - intros Hne. unfold is_file. apply bool_decide_eq_false. cbn.
    rewrite elem_of_union, elem_of_difference, !elem_of_singleton.
    intros [[_ H] | H]; [apply H; reflexivity | apply Hne; symmetry; exact H].
  - intros E'.
    match goal with |- context [login E' None None ?st] => set (s' := st) end.
    change (credentials (auth s)) with (credentials (auth s')).
    apply (login_stored_attempt E' s' (fs s')).
    + unfold mkdir_parents.
      assert (Hd : is_dir (fs s') (parent (credentials (auth s'))) = true) by exact Hdir.
      rewrite Hd. reflexivity.
    + apply Hstored.
Qed.

Lemma login_stores_credentials_witness :
  is_file (fs st_first_run) (credentials (auth st_first_run)) = false /\
  value (login env_expired (Some "user") (Some "secret") st_first_run) = Ok true /\
  is_file (fs (final (login env_expired (Some "user") (Some "secret") st_first_run)))
    (credentials (auth st_first_run)) = true.
Proof.
  assert (Hnone : is_file (fs st_first_run) (credentials (auth st_first_run)) = false)
    by (vm_compute; reflexivity).
  split; [exact Hnone|].
  destruct (mkdir_parents (fs st_first_run) (parent (credentials (auth st_first_run))))
    as [f|e] eqn:Hmk; [|vm_compute in Hmk; discriminate].
  assert (Hcreds : is_dir f (credentials (auth st_first_run)) = false)
    by (vm_compute in Hmk; injection Hmk as <-; vm_compute; reflexivity).
  assert (Hnodir : is_dir f local_credentials = false)
    by (vm_compute in Hmk; injection Hmk as <-; vm_compute; reflexivity).
  pose proof (login_stores_credentials env_expired st_first_run "user" "secret" f
                (session_of "free" "fresh" "fresh-library") Hmk Hnone Hcreds Hnodir
                ltac:(discriminate) ltac:(discriminate) eq_refl) as H.
  cbv zeta in H. destruct H as (Hv & _ & _ & _ & _ & Hfile & _).
  split; [exact Hv | exact Hfile].
Defined.

(** X10.  The login with a username and a password depends on the file
    librespot leaves behind.  When the session is created but nothing
    called [credentials.json] is in the working directory, neither a file
    nor a directory, the move of the file fails with the
    [FileNotFoundError] of the operating system, which [login] does not
    catch: it raises it, with the session already set, no quality selected
    and no credential file stored. *)
Theorem login_needs_the_credentials_file (E : environment) (s : state) (u p : string)
    (f : filesystem) (sess : Session) :
  mkdir_parents (fs s) (parent (credentials (auth s))) = Returns f ->
  is_file (fs s) (credentials (auth s)) = false ->
  u <> "" -> p <> "" ->
  create_session E (length (sessions_log s)) (user_pass u p) = (Returns sess, false) ->
  is_file (fs s) local_credentials = false ->
  is_dir f local_credentials = false ->
  credentials (auth s) <> [] ->
  let r := login E (Some u) (Some p) s in
  value r = Raise (FileNotFoundError None) /\
  session (auth (final r)) = Some sess /\
  quality (auth (final r)) = quality (auth s) /\
  is_file (fs (final r)) (credentials (auth s)) = false.
Proof.
  intros Hmk Hnone Hu Hp Hc Hlocal Hnodir Hne r. subst r.
  rewrite login_run, Hmk, (mkdir_parents_files _ _ _ Hmk), Hnone.
  rewrite (truthy_some u Hu), (truthy_some p Hp). cbn [andb].
  destruct (mkdir_parents_spec _ _ _ Hmk) as (Hdir & _ & _ & _).
  unfold _authenticate_with_user_pass, try_except, bind, Session_create,
    _persist_credentials_file, gets, modify, lift, ret.
  cbn -[rename_file]. rewrite Hc. cbn -[rename_file].
  rewrite rename_file_missing; [|unfold path_exists; rewrite Hnodir; cbn [orb];
                                 rewrite (mkdir_parents_files _ _ _ Hmk); exact Hlocal
                                |exact Hdir | exact Hne].
  cbn. split; [reflexivity|]. split; [reflexivity|]. split; [reflexivity|].
  rewrite (mkdir_parents_files _ _ _ Hmk). exact Hnone.
Qed.

Lemma login_needs_the_credentials_file_witness :
  is_file (fs st_first_run) (credentials (auth st_first_run)) = false /\
  is_file (fs st_first_run) local_credentials = false /\
  value (login env_plain (Some "user") (Some "secret") st_first_run)
  = Raise (FileNotFoundError None).
Proof.
  assert (Hnone : is_file (fs st_first_run) (credentials (auth st_first_run)) = false)
    by (vm_compute; reflexivity).
  assert (Hlocal : is_file (fs st_first_run) local_credentials = false)
    by (vm_compute; reflexivity).
  split; [exact Hnone|]. split; [exact Hlocal|].
  destruct (mkdir_parents (fs st_first_run) (parent (credentials (auth st_first_run))))
    as [f|e] eqn:Hmk; [|vm_compute in Hmk; discriminate].
  assert (Hnodir : is_dir f local_credentials = false)
    by (vm_compute in Hmk; injection Hmk as <-; vm_compute; reflexivity).
  pose proof (login_needs_the_credentials_file env_plain st_first_run "user" "secret" f
                (session_of "free" "fresh" "fresh-library") Hmk Hnone
                ltac:(discriminate) ltac:(discriminate) eq_refl Hlocal Hnodir
                ltac:(discriminate)) as H.
  cbv zeta in H. exact (proj1 H).
Defined.

(** ** [Respot.is_authenticated] and [refresh_token] *)

(** [login] leaves the request object alone. *)
Lemma login_keeps_request E username password s :
  request (final (login E username password s)) = request s.
Proof.
  unfold login, _ensure_credentials_directory, _has_stored_credentials,
    _authenticate_with_stored_credentials, _authenticate_with_user_pass,
    _persist_credentials_file, try_except, refresh_token, Session_create,
    _check_premium, print, bind, gets, modify, lift, ret, raise, final.
  destruct username as [u|], password as [p|];
    try destruct (truthy (Some u) && truthy (Some p))%bool;
    crush_auth; reflexivity.
Qed.

(** Without a credential file no token is minted. *)
Lemma login_without_file_keeps_tokens E username password s :
  is_file (fs s) (credentials (auth s)) = false ->
  token (auth (final (login E username password s))) = token (auth s) /\
  token_your_libary (auth (final (login E username password s)))
  = token_your_libary (auth s).
Proof.
  intros Hnone. rewrite login_run.
  destruct (mkdir_parents _ _) as [f|e] eqn:Hmk; [|split; reflexivity].
  rewrite (mkdir_parents_files _ _ _ Hmk), Hnone.
  destruct username as [u|], password as [p|]; try (split; reflexivity).
  destruct (truthy (Some u) && truthy (Some p))%bool; [|split; reflexivity].
  unfold _authenticate_with_user_pass, _persist_credentials_file, try_except,
    Session_create, _check_premium, print, bind, gets, modify, lift, ret, raise, final.
  crush_auth; split; reflexivity.
Qed.

Lemma is_file_added d fl p q :
  is_file (mkFs d (fl ∪ {[q]})) p = (bool_decide (p = q) || is_file (mkFs d fl) p).
Proof.
  unfold is_file. cbn. destruct (bool_decide (p = q)) eqn:Hpq.
  - apply bool_decide_eq_true in Hpq. subst q. apply bool_decide_eq_true.
    apply elem_of_union_r, elem_of_singleton. reflexivity.
  - apply bool_decide_eq_false in Hpq. cbn. apply bool_decide_ext.
    rewrite elem_of_union, elem_of_singleton. tauto.
Qed.

Lemma is_file_removed d fl p q :
  is_file (mkFs d (fl ∖ {[q]})) p = (negb (bool_decide (p = q)) && is_file (mkFs d fl) p).
Proof.
  unfold is_file. cbn. destruct (bool_decide (p = q)) eqn:Hpq.
  - apply bool_decide_eq_true in Hpq. subst q. apply bool_decide_eq_false.
    rewrite elem_of_difference, elem_of_singleton. tauto.
  - apply bool_decide_eq_false in Hpq. cbn. apply bool_decide_ext.
    rewrite elem_of_difference, elem_of_singleton. tauto.
Qed.

(** X11.  [is_authenticated] makes the request object from the tokens the
    [auth] object holds when [login] returns [True], and leaves it alone
    when [login] returns [False].  After a login with the stored
    credentials these are the two tokens the new session minted; after a
    login with a username and a password they are the tokens of before the
    login, since that way of logging in mints none. *)
Theorem is_authenticated_sets_the_tokens (E : environment)
    (username password : option string) (s : state) :
  let r := is_authenticated E username password s in
  (value r = Ok true -> request (final r) = RespotRequest_init (auth (final r))) /\
  (value r = Ok false -> request (final r) = request s) /\
  (value r = Ok true -> is_file (fs s) (credentials (auth s)) = false ->
   request (final r) = mkReq (token (auth s)) (token_your_libary (auth s))) /\
  (value r = Ok true -> is_file (fs s) (credentials (auth s)) = true ->
   exists sess t l,
     session (auth (final r)) = Some sess /\
     tokens_get sess "user-read-email" = Returns t /\
     tokens_get sess "user-library-read" = Returns l /\
     request (final r) = mkReq (Some t) (Some l)).
Proof.
  intros r. subst r. unfold is_authenticated, bind.
  pose proof (login_keeps_request E username password s) as Hreq.
  pose proof (login_without_file_keeps_tokens E username password s) as Htok.
  destruct (login E username password s) as [[[|]|e|] s1] eqn:Hlogin;
    cbn [final snd value fst] in *; unfold modify, ret; cbn [final snd value fst].
  2-4: repeat split; try discriminate; intros _; exact Hreq.
  split; [intros _; reflexivity|]. split; [discriminate|]. split.
  - intros _ Hnone. destruct (Htok Hnone) as [H1 H2].
    unfold RespotRequest_init. cbn. rewrite H1, H2. reflexivity.
  - intros _ Hfile. rewrite login_run in Hlogin.
    destruct (mkdir_parents _ _) as [f|e] eqn:Hmk; [|discriminate].
    rewrite (mkdir_parents_files _ _ _ Hmk), Hfile in Hlogin.
    revert Hlogin.
    unfold _authenticate_with_stored_credentials, try_except, refresh_token, Session_create,
      _check_premium, print, bind, gets, modify, lift, ret, raise.
    crush_auth; intros [= <-]; cbn; eauto 10.
Qed.

(** What a state looks like after a login with the stored credentials. *)
Example is_authenticated_runs :
  request (final (is_authenticated env_plain None None st_returning))
  = mkReq (Some "fresh") (Some "fresh-library") /\
  value (is_authenticated env_expired (Some "user") (Some "secret") st_first_run) = Ok true /\
  request (final (is_authenticated env_expired (Some "user") (Some "secret") st_first_run))
  = mkReq None None.
Proof. vm_compute. repeat split. Qed.

(** X12.  [refresh_token], when it returns, has created one session from the
    stored credentials, has put it and its two tokens in the [auth] object
    and returns the tokens; it has sent no request and has left the quality
    as it was.  No [credentials.json] is left in the working directory, and
    every other file is as before: so the stored credentials are kept
    unless they are that very file. *)
Theorem refresh_token_leaves (E : environment) (s s' : state)
    (tk : option string * option string) :
  refresh_token E s = (Ok tk, s') ->
  is_dir (fs s) local_credentials = false ->
  (exists sess w t l,
     create_session E (length (sessions_log s)) (stored_file (credentials (auth s)))
     = (Returns sess, w) /\
     tokens_get sess "user-read-email" = Returns t /\
     tokens_get sess "user-library-read" = Returns l /\
     tk = (Some t, Some l) /\
     auth s' = mkAuth (credentials (auth s)) (force_premium (auth s)) (Some sess)
                 (Some t) (Some l) (quality (auth s))) /\
  sessions_log s' = sessions_log s ++ [stored_file (credentials (auth s))] /\
  http_log s' = http_log s /\
  request s' = request s /\
  is_file (fs s') local_credentials = false /\
  (forall p, p <> local_credentials -> is_file (fs s') p = is_file (fs s) p) /\
  (credentials (auth s) = local_credentials ->
   is_file (fs s') (credentials (auth s')) = false).
Proof.
  intros Hrun Hdir.
  assert (Hfs : is_file (fs s') local_credentials = false /\
                (forall p, p <> local_credentials -> is_file (fs s') p = is_file (fs s) p) /\
                credentials (auth s') = credentials (auth s)).
  { revert Hrun.
    unfold refresh_token, Session_create, bind, gets, modify, lift, ret.
    cbn. destruct (create_session E _ _) as [[sess|e] w]; [|destruct w; discriminate].
    destruct w; cbn.
    - assert (Hex : path_exists (mkFs (dirs (fs s)) (files (fs s) ∪ {[local_credentials]}))
                      local_credentials = true).
      { unfold path_exists. rewrite is_file_added.
        rewrite bool_decide_eq_true_2 by reflexivity. apply orb_true_r. }
      rewrite Hex. cbn. rewrite unlink_file_removes by (exact Hdir || exact Hex). cbn.
      destruct (tokens_get sess "user-read-email"); cbn; [|discriminate].
      destruct (tokens_get sess "user-library-read"); cbn; [|discriminate].
      intros [= _ <-]. cbn. split; [|split; [|reflexivity]].
      + rewrite is_file_removed. rewrite bool_decide_eq_true_2 by reflexivity. reflexivity.
      + intros p Hp. rewrite is_file_removed, is_file_added.
        rewrite bool_decide_eq_false_2 by exact Hp. destruct (fs s); reflexivity.
    - destruct (path_exists (fs s) local_credentials) eqn:Hex; cbn;
        [rewrite unlink_file_removes by (exact Hdir || exact Hex); cbn|];
        (destruct (tokens_get sess "user-read-email"); cbn; [|discriminate]);
        (destruct (tokens_get sess "user-library-read"); cbn; [|discriminate]);
        intros [= _ <-]; cbn; (split; [|split; [|reflexivity]]).
      + rewrite is_file_removed. rewrite bool_decide_eq_true_2 by reflexivity. reflexivity.
      + intros p Hp. rewrite is_file_removed.
        rewrite bool_decide_eq_false_2 by exact Hp. destruct (fs s); reflexivity.
      + unfold path_exists in Hex. apply orb_false_elim in Hex. exact (proj2 Hex).
      + reflexivity. }
  destruct Hfs as (Hlocal & Hothers & Hcreds).
  assert (Hrest : (exists sess w t l,
     create_session E (length (sessions_log s)) (stored_file (credentials (auth s)))
     = (Returns sess, w) /\
     tokens_get sess "user-read-email" = Returns t /\
     tokens_get sess "user-library-read" = Returns l /\
     tk = (Some t, Some l) /\
     auth s' = mkAuth (credentials (auth s)) (force_premium (auth s)) (Some sess)
                 (Some t) (Some l) (quality (auth s))) /\
    sessions_log s' = sessions_log s ++ [stored_file (credentials (auth s))] /\
    http_log s' = http_log s /\ request s' = request s).
  { revert Hrun.
    unfold refresh_token, Session_create, bind, gets, modify, lift, ret.
    crush_auth; try discriminate; intros [= <- <-]; cbn;
      (split; [eexists _, _, _, _; repeat split; eassumption | repeat split]). }
  destruct Hrest as (H1 & H2 & H3 & H4).
  repeat (split; [assumption|]).
  intros Heq. rewrite Hcreds, Heq. exact Hlocal.
Qed.

Lemma refresh_token_leaves_witness :
  is_dir (fs st_returning) local_credentials = false /\
  is_file (fs (final (refresh_token env_expired st_returning))) local_credentials = false /\
  http_log (final (refresh_token env_expired st_returning)) = http_log st_returning.
Proof.
  assert (Hdir : is_dir (fs st_returning) local_credentials = false)
    by (vm_compute; reflexivity).
  split; [exact Hdir|].
  destruct (refresh_token env_expired st_returning) as [[tk|e|] s'] eqn:Hrun;
    [|vm_compute in Hrun; discriminate..].
  destruct (refresh_token_leaves env_expired st_returning s' tk Hrun Hdir)
    as (_ & _ & Hlog & _ & Hlocal & _).
  split; [exact Hlocal | exact Hlog].
Defined.

(** ** More on [authorized_get_request] *)

Lemma refresh_token_logs E s :
  sessions_log (final (refresh_token E s))
  = sessions_log s ++ [stored_file (credentials (auth s))] /\
  console (final (refresh_token E s)) = console s.
Proof.
  unfold refresh_token, Session_create, final, bind, gets, modify, lift, ret.
  crush_auth; split; reflexivity.
Qed.

Lemma rejections_app E n l1 l2 :
  rejections E n (l1 ++ l2) = (rejections E n l1 + rejections E (n + length l1) l2)%nat.
Proof.
  revert n. induction l1 as [|rq l1 IH]; intros n; cbn [app rejections length].
  - rewrite Nat.add_0_r. reflexivity.
  - rewrite IH. replace (S n + length l1)%nat with (n + S (length l1))%nat by lia. lia.
Qed.

(** Every 401 is answered by one session creation and one line on the
    console, and nothing else creates a session or prints. *)
Lemma authorized_get_request_rec_refreshes E fuel :
  forall u tb rc kw s,
    exists reqs,
      let s' := final (authorized_get_request_rec E fuel u tb rc kw s) in
      http_log s' = http_log s ++ reqs /\
      length (sessions_log s')
      = (length (sessions_log s) + rejections E (length (http_log s)) reqs)%nat /\
      console s'
      = console s ++ replicate (rejections E (length (http_log s)) reqs) refreshing_line.
Proof.
  induction fuel as [|fuel IH]; intros u tb rc kw s.
  { exists []. cbn. rewrite !app_nil_r. auto. }
  rewrite authorized_get_request_rec_step.
  destruct (3 <? rc)%Z.
  { exists []. cbn. rewrite !app_nil_r. auto. }
  cbv zeta.
  set (rq := mkRequest u (bearer (resolved tb s)) kw).
  assert (Hnext : forall s1 k,
            http_log s1 = http_log s ++ [rq] ->
            length (sessions_log s1) = (length (sessions_log s) + k)%nat ->
            console s1 = console s ++ replicate k refreshing_line ->
            (match requests_get E (length (http_log s)) rq with
             | Returns resp => if (status_code resp =? 401)%Z then 1 else 0
             | Raises _ => 0
             end = k)%nat ->
            exists reqs,
              let s' := final (authorized_get_request_rec E fuel u (resolved tb s) (rc + 1) kw s1) in
              http_log s' = http_log s ++ reqs /\
              length (sessions_log s')
              = (length (sessions_log s) + rejections E (length (http_log s)) reqs)%nat /\
              console s'
              = console s ++ replicate (rejections E (length (http_log s)) reqs) refreshing_line).
  { intros s1 k Hl Hs Hc Hk.
    destruct (IH u (resolved tb s) (rc + 1) kw s1) as (reqs & H1 & H2 & H3).
    exists (rq :: reqs). cbv zeta in *.
    rewrite H1, H2, H3, Hl, Hs, Hc, length_app. cbn [length rejections].
    rewrite Hk. replace (length (http_log s) + 1)%nat with (S (length (http_log s))) by lia.
    split; [rewrite <- app_assoc; reflexivity|]. split; [lia|].
    rewrite <- app_assoc, <- replicate_add. reflexivity. }
  assert (Hone : forall (o : outcome Response) s1 k,
            http_log s1 = http_log s ++ [rq] ->
            length (sessions_log s1) = (length (sessions_log s) + k)%nat ->
            console s1 = console s ++ replicate k refreshing_line ->
            (match requests_get E (length (http_log s)) rq with
             | Returns resp => if (status_code resp =? 401)%Z then 1 else 0
             | Raises _ => 0
             end = k)%nat ->
            exists reqs,
              let s' := final (o, s1) in
              http_log s' = http_log s ++ reqs /\
              length (sessions_log s')
              = (length (sessions_log s) + rejections E (length (http_log s)) reqs)%nat /\
              console s'
              = console s ++ replicate (rejections E (length (http_log s)) reqs) refreshing_line).
  { intros o s1 k Hl Hs Hc Hk. exists [rq]. cbn [final snd rejections].
    rewrite Hk, Nat.add_0_r. auto. }
  fold rq in Hnext, Hone |- *.
  destruct (requests_get E (length (http_log s)) rq) as [resp|e] eqn:Hget.
  - destruct (status_code resp =? 401)%Z eqn:H401.
    + pose proof (refresh_token_logs E
                    (with_console (console (sent u tb kw s) ++ [refreshing_line])
                       (sent u tb kw s))) as [Hs Hc].
      pose proof (refresh_token_http_log E
                    (with_console (console (sent u tb kw s) ++ [refreshing_line])
                       (sent u tb kw s))) as Hl.
      destruct (refresh_token E _) as [[tk|e|] s3]; cbn [final snd] in Hs, Hc, Hl.
      * apply (Hnext _ 1%nat); cbn; rewrite ?Hl, ?Hs, ?Hc; cbn;
          rewrite ?length_app; cbn; auto.
      * destruct (is_ConnectionError e); [apply (Hnext _ 1%nat) | apply (Hone _ _ 1%nat)];
          cbn; rewrite ?Hl, ?Hs, ?Hc; cbn; rewrite ?length_app; cbn; auto.
      * apply (Hone _ _ 1%nat); cbn; rewrite ?Hl, ?Hs, ?Hc; cbn;
          rewrite ?length_app; cbn; auto.
    + apply (Hone _ _ 0%nat); cbn; rewrite ?app_nil_r; auto.
  - destruct (is_ConnectionError e); [apply (Hnext _ 0%nat) | apply (Hone _ _ 0%nat)];
      cbn; rewrite ?app_nil_r; auto.
Qed.

Lemma refresh_token_tokens E s tk s' :
  refresh_token E s = (Ok tk, s') ->
  tk = (token (auth s'), token_your_libary (auth s')).
Proof.
  unfold refresh_token, Session_create, bind, gets, modify, lift, ret.
  crush_auth; try discriminate; intros [= <- <-]; reflexivity.
Qed.

Lemma tokens_agree_adopted tk s :
  tk = (token (auth s), token_your_libary (auth s)) -> tokens_agree (adopted tk s).
Proof. intros ->. split; reflexivity. Qed.

(** Where the sessions mint their tokens, a refresh that raises has
    raised before it set a token. *)
Lemma refresh_token_raises_early E s e s' :
  refresh_ok E ->
  refresh_token E s = (Raise e, s') ->
  token (auth s') = token (auth s) /\
  token_your_libary (auth s') = token_your_libary (auth s) /\
  request s' = request s.
Proof.
  intros Hok.
  unfold refresh_token, Session_create, bind, gets, modify, lift, ret.
  cbn.
  destruct (Hok (length (sessions_log s)) (stored_file (credentials (auth s))))
    as (sess & w & t & l & Hc & Ht1 & Ht2).
  rewrite Hc.
  destruct w; cbn;
    (destruct (path_exists _ _); cbn;
     [destruct (unlink_file _ _); cbn|]);
    rewrite ?Ht1; cbn; rewrite ?Ht2; cbn; try discriminate;
    intros [= _ <-]; repeat split.
Qed.

Lemma authorized_get_request_rec_tokens_agree E fuel :
  refresh_ok E ->
  forall u tb rc kw s,
    tokens_agree s ->
    tokens_agree (final (authorized_get_request_rec E fuel u tb rc kw s)).
Proof.
  intros Hok. induction fuel as [|fuel IH]; intros u tb rc kw s Hs; [exact Hs|].
  rewrite authorized_get_request_rec_step.
  destruct (3 <? rc)%Z; [exact Hs|]. cbv zeta.
  destruct (requests_get E _ _) as [resp|e].
  - destruct (status_code resp =? 401)%Z; [|exact Hs].
    destruct (refresh_token E _) as [[tk|e|] s3] eqn:Hrt.
    + apply IH. apply tokens_agree_adopted.
      apply (refresh_token_tokens _ _ _ _ Hrt).
    + assert (Hs3 : tokens_agree s3).
      { destruct (refresh_token_raises_early _ _ _ _ Hok Hrt) as (H1 & H2 & H3).
        destruct Hs as [Ha Hb]. unfold tokens_agree.
        rewrite H1, H2, H3. cbn. split; assumption. }
      destruct (is_ConnectionError e); [apply IH|]; exact Hs3.
    + exfalso. apply (refresh_token_terminates _ _ _ Hrt).
  - destruct (is_ConnectionError e); [apply IH|]; exact Hs.
Qed.

(** X13.  [authorized_get_request] retries after a 401 and after a connection
    failure only.  A response with any other status, an error status
    included, is returned as it is, and an exception of [requests.get] that
    is not a connection failure is raised as it is; in both cases one
    request has been sent, no session has been created and nothing has been
    printed. *)
Theorem authorized_get_request_passes_on (E : environment) (u : string)
    (tb : option string) (kw : list (string * json)) (s : state) :
  let rq := mkRequest u (bearer (resolved tb s)) kw in
  (forall resp,
     requests_get E (length (http_log s)) rq = Returns resp ->
     status_code resp <> 401 ->
     authorized_get_request E u tb 0 kw s = (Ok resp, with_http_log (http_log s ++ [rq]) s)) /\
  (forall e,
     requests_get E (length (http_log s)) rq = Raises e ->
     is_ConnectionError e = false ->
     authorized_get_request E u tb 0 kw s = (Raise e, with_http_log (http_log s ++ [rq]) s)).
Proof.
  intros rq. subst rq. unfold authorized_get_request.
  change (retry_fuel 0) with 5%nat.
  split.
  - intros resp Hget Hst. rewrite authorized_get_request_rec_step.
    change (3 <? 0)%Z with false. cbv iota zeta.
    rewrite Hget. apply Z.eqb_neq in Hst. rewrite Hst. reflexivity.
  - intros e Hget He. rewrite authorized_get_request_rec_step.
    change (3 <? 0)%Z with false. cbv iota zeta.
    rewrite Hget, He. reflexivity.
Qed.

(** A 404 comes back to the caller after one request. *)
Example not_found_is_returned :
  value (authorized_get_request env_not_found playlists_url None 0 [] st_stale)
  = Ok not_found_response /\
  length (http_log (final (authorized_get_request env_not_found playlists_url None 0 []
                             st_stale))) = 1%nat.
Proof. vm_compute. split; reflexivity. Qed.

(** X14.  One refresh for every 401.  In any call of
    [authorized_get_request], the number of sessions created and the number
    of lines [Token expired, refreshing...] printed are both the number of
    requests of the call that were answered with 401, whether the
    refreshes succeeded or not. *)
Theorem every_401_is_one_refresh (E : environment) (u : string) (tb : option string)
    (rc : Z) (kw : list (string * json)) (s : state) :
  let r := authorized_get_request E u tb rc kw s in
  exists reqs,
    http_log (final r) = http_log s ++ reqs /\
    length (sessions_log (final r))
    = (length (sessions_log s) + rejections E (length (http_log s)) reqs)%nat /\
    console (final r)
    = console s ++ replicate (rejections E (length (http_log s)) reqs) refreshing_line.
Proof.
  intros r. subst r. unfold authorized_get_request.
  apply authorized_get_request_rec_refreshes.
Qed.

(** X15.  The tokens of the request object follow those of the [auth]
    object.  In an environment whose token refresh works, a request object
    that holds the tokens of the [auth] object still does so after any call
    of [authorized_get_request].  A refresh that fails half-way breaks
    this: when the second token cannot be minted, the [auth] object has the
    new first token and the request object the old one. *)
Theorem request_tokens_follow_auth :
  (forall E u tb rc kw s,
     refresh_ok E ->
     tokens_agree s ->
     tokens_agree (final (authorized_get_request E u tb rc kw s))) /\
  (let r := authorized_get_request env_half_refresh playlists_url None 0 [] st_stale in
   tokens_agree st_stale /\
   value r = Raise (RuntimeError "Failed reading packet!") /\
   token (auth (final r)) = Some "fresh" /\
   req_token (request (final r)) = Some "stale").
Proof.
  split.
  - intros E u tb rc kw s Hok Hs. apply authorized_get_request_rec_tokens_agree; assumption.
  - vm_compute. repeat split.
Qed.

(** ** More on the listings *)

Lemma paginate_fails E u library extra limit shape :
  forall full fuel offset acc s bad,
    (length full < fuel)%nat ->
    served E shape (length (http_log s)) full ->
    Forall (fun pg => limit <= len (items_of pg)) full ->
    answered E (length (http_log s) + length full) bad ->
    without_items bad ->
    paginate E fuel u library extra limit shape offset acc s =
    (Raise (KeyError "items"),
     with_http_log
       (http_log s
        ++ page_requests u (bearer (resolved (listing_token library s) s)) extra limit
             (S (length full)) offset) s).
Proof.
  induction full as [|pg full IH]; intros fuel offset acc s bad Hfuel Hserved Hfull Hans Hbad;
    (destruct fuel as [|fuel]; [cbn in Hfuel; lia|]).
  - destruct Hbad as (Hst & members & Hbody & Hnone).
    rewrite Nat.add_0_r in Hans.
    cbn [paginate]. unfold bind at 1. unfold gets at 1. cbv beta iota.
    fold (listing_token library s). unfold bind at 1.
    rewrite (authorized_get_request_answered E u _ _ s bad Hans Hst).
    unfold bind, lift, json_of. rewrite Hbody. cbn [rbind getitem]. rewrite Hnone.
    reflexivity.
  - cbn [served] in Hserved. destruct Hserved as (Hpg & Hpage & Hshape & Hrest).
    rewrite (paginate_step E fuel u library extra limit shape offset acc s pg Hpg Hpage Hshape).
    cbv zeta. inversion Hfull as [|? ? Hlen Hfull']; subst.
    apply Z.ltb_ge in Hlen. rewrite Hlen.
    rewrite (IH fuel (offset + limit) (acc ++ made pg) _ bad).
    + cbn [length page_requests]. rewrite with_http_log_sent, http_log_sent.
      rewrite <- app_assoc. reflexivity.
    + cbn in Hfuel. lia.
    + rewrite http_log_sent, length_app. cbn [length].
      replace (length (http_log s) + 1)%nat with (S (length (http_log s))) by lia.
      exact Hrest.
    + exact Hfull'.
    + rewrite http_log_sent, length_app. cbn [length] in *.
      replace (length (http_log s) + 1 + length full)%nat
        with (length (http_log s) + S (length full))%nat by lia.
      exact Hans.
    + exact Hbad.
Qed.

(** X16.  The listings return all or nothing.  When the catalog serves full
    pages and then a response without [items], as its error object is, the
    listing of playlist tracks, album tracks, saved tracks, show episodes
    or user playlists raises [KeyError('items')] right after the request
    for that page: it catches nothing, and the entries made of the pages
    before are lost. *)
Theorem listings_are_all_or_nothing (E : environment) :
  (forall playlist_id,
     all_or_nothing E (fun fuel => get_playlist_songs E fuel playlist_id)
       ("https://api.spotify.com/v1/playlists/" +:+ playlist_id +:+ "/tracks")
       false [] 100 playlist_song) /\
  (forall album_id,
     all_or_nothing E (fun fuel => get_album_songs E fuel album_id)
       ("https://api.spotify.com/v1/albums/" +:+ album_id +:+ "/tracks")
       false [("include_groups", JStr "album,compilation")] 50 album_song) /\
  all_or_nothing E (get_liked_tracks E)
    "https://api.spotify.com/v1/me/tracks" true [] 50 liked_track /\
  (forall show_id_str,
     all_or_nothing E (fun fuel => get_show_episodes E fuel show_id_str)
       ("https://api.spotify.com/v1/shows/" +:+ show_id_str +:+ "/episodes")
       false [] 50 show_episode) /\
  all_or_nothing E (get_all_user_playlists E)
    "https://api.spotify.com/v1/me/playlists" false [] 50 playlist_item.
Proof.
  split; [|split; [|split; [|split]]].
  - intros playlist_id fuel s full bad. apply paginate_fails.
  - intros album_id fuel s full bad. apply paginate_fails.
  - intros fuel s full bad. apply paginate_fails.
  - intros show_id_str fuel s full bad. apply paginate_fails.
  - intros fuel s full bad Hfuel Hserved Hfull Hans Hbad.
    unfold get_all_user_playlists, bind.
    rewrite (paginate_fails E _ false [] 50 playlist_item full fuel 0 [] s bad
               Hfuel Hserved Hfull Hans Hbad).
    reflexivity.
Qed.

(** A full page and then the error object: nothing is returned. *)
Example listing_cut_short :
  value (get_album_songs env_cut 5 "A" st_stale) = Raise (KeyError "items") /\
  length (http_log (final (get_album_songs env_cut 5 "A" st_stale))) = 2%nat.
Proof. vm_compute. split; reflexivity. Qed.

Lemma with_console_nil s : with_console (console s ++ []) s = s.
Proof. rewrite app_nil_r. destruct s; reflexivity. Qed.

(** X17.  [get_artist_albums] asks for one page of 50 albums at offset 0 and
    returns the items of the response as they came.  For every album it
    prints a line with the name; the entries it builds, with the release
    date cut down to the year, are not part of what it returns. *)
Theorem get_artist_albums_returns_the_items (E : environment) (artists_id : string)
    (s : state) (resp : Response) (albums : list json) (lines : list string) :
  answered E (length (http_log s)) resp ->
  page_of resp albums ->
  album_lines albums = Returns lines ->
  Forall (fun album => exists entry, artist_album_entry album = Returns entry) albums ->
  get_artist_albums E artists_id s =
  (Ok (JArr albums),
   with_console (console s ++ "###   Albums###" :: lines)
     (sent ("https://api.spotify.com/v1/artists/" +:+ artists_id +:+ "/albums") None
        (page_params 50 0 [("include_groups", JStr "album,compilation,single")]) s)).
Proof.
  intros Hans (Hst & body & Hbody & Hitems) Hlines Hentries.
  unfold get_artist_albums, bind.
  rewrite (authorized_get_request_answered E _ None _ s resp Hans Hst).
  unfold lift at 1, json_of. rewrite Hbody.
  unfold print at 1, modify at 1.
  unfold lift at 1. rewrite Hitems.
  unfold lift at 1. cbn [iterate].
  match goal with
  | |- context [?f albums ?st] =>
      match type of f with
      | list json -> M unit => set (loop := f); set (s1 := st)
      end
  end.
  assert (Hloop : forall l ls s0,
            album_lines l = Returns ls ->
            Forall (fun album => exists entry, artist_album_entry album = Returns entry) l ->
            loop l s0 = (Ok tt, with_console (console s0 ++ ls) s0)).
  { induction l as [|a l IH]; intros ls s0 Hl Hall; cbn in Hl.
    - injection Hl as <-. cbn. rewrite with_console_nil. reflexivity.
    - destruct (artist_album_line a) as [line|e] eqn:Hline; cbn [rbind] in Hl; [|discriminate].
      fold (album_lines l) in Hl.
      destruct (album_lines l) as [ls'|e] eqn:Hl'; cbn [rbind] in Hl; [|discriminate].
      injection Hl as <-. inversion Hall as [|? ? [entry Hentry] Hall']; subst.
      cbn [loop]. unfold bind, lift, print, modify. rewrite Hline, Hentry.
      fold loop. rewrite (IH ls' _ eq_refl Hall'). cbn.
      rewrite <- app_assoc. reflexivity. }
  rewrite (Hloop albums lines s1 Hlines Hentries).
  subst s1. unfold lift. cbn.
  rewrite <- app_assoc. reflexivity.
Qed.

Lemma get_artist_albums_returns_the_items_witness :
  answered env_two_albums (length (http_log st_stale))
    (page_response (numbered album_item 2)) /\
  value (get_artist_albums env_two_albums "A" st_stale) = Ok (JArr (numbered album_item 2)) /\
  console (final (get_artist_albums env_two_albums "A" st_stale))
  = ["###   Albums###"; " # album"; " # album"].
Proof.
  assert (Hans : answered env_two_albums (length (http_log st_stale))
                   (page_response (numbered album_item 2))).
  { intros rq. reflexivity. }
  split; [exact Hans|].
  rewrite (get_artist_albums_returns_the_items env_two_albums "A" st_stale
             (page_response (numbered album_item 2)) (numbered album_item 2)
             [" # album"; " # album"] Hans).
  - split; reflexivity.
  - split; [discriminate|]. eexists. split; reflexivity.
  - reflexivity.
  - repeat constructor; eexists; reflexivity.
Defined.

(** ** More on the lookups *)

Ltac open_chain H :=
  repeat match type of H with
         | context [rbind ?r _] =>
             let Hr := fresh "Hstep" in
             destruct r eqn:Hr; cbn [rbind] in H; try discriminate H
         end.

Lemma index_of_max_numbers rest :
  forall seen best (a : nat),
    nth_error seen a = Some best ->
    Forall (fun x => x <= best) seen ->
    (forall j x, (j < a)%nat -> nth_error seen j = Some x -> x < best) ->
    exists i,
      index_of_max (JNum best) (Z.of_nat a) (Z.of_nat (length seen)) (map JNum rest)
      = Returns (Z.of_nat i) /\
      is_first_max (seen ++ rest) i.
Proof.
  induction rest as [|x rest IH]; intros seen best a Hnth Hall Hbefore.
  - exists a. split; [reflexivity|]. rewrite app_nil_r. exists best. auto.
  - cbn [map index_of_max py_gt as_number rbind].
    assert (Hlen : Z.of_nat (length seen) + 1 = Z.of_nat (length (seen ++ [x]))).
    { rewrite length_app. cbn [length]. lia. }
    assert (Ha : (a < length seen)%nat) by (apply nth_error_Some; congruence).
    destruct (best <? x)%Z eqn:Hgt.
    + apply Z.ltb_lt in Hgt.
      destruct (IH (seen ++ [x]) x (length seen)) as (i & Hi & Hmax).
      * rewrite nth_error_app2 by lia. rewrite Nat.sub_diag. reflexivity.
      * apply Forall_app. split; [|repeat constructor; lia].
        eapply Forall_impl; [exact Hall|]. cbn. intros; lia.
      * intros j y Hj Hy. rewrite nth_error_app1 in Hy by exact Hj.
        assert (y <= best); [|lia].
        rewrite Forall_forall in Hall. apply Hall, list_elem_of_In.
        eapply nth_error_In. exact Hy.
      * exists i. rewrite Hlen, Hi. rewrite <- app_assoc in Hmax. auto.
    + apply Z.ltb_ge in Hgt.
      destruct (IH (seen ++ [x]) best a) as (i & Hi & Hmax).
      * rewrite nth_error_app1 by exact Ha. exact Hnth.
      * apply Forall_app. split; [exact Hall | repeat constructor; lia].
      * intros j y Hj Hy. rewrite nth_error_app1 in Hy by lia. eauto.
      * exists i. rewrite Hlen, Hi. rewrite <- app_assoc in Hmax. auto.
Qed.

Lemma largest_image_numbers sizes :
  sizes <> [] ->
  exists i, largest_image (map JNum sizes) = Returns (Z.of_nat i) /\ is_first_max sizes i.
Proof.
  destruct sizes as [|first rest]; [congruence|]. intros _.
  cbn [map largest_image].
  destruct (index_of_max_numbers rest [first] first 0%nat) as (i & Hi & Hmax).
  - reflexivity.
  - repeat constructor. lia.
  - intros j x Hj. lia.
  - exists i. split; [exact Hi | exact Hmax].
Qed.

Lemma image_sizes_of pictures :
  image_sizes (JArr (map image pictures))
  = Returns (map JNum (map (fun p => fst (fst p) + snd (fst p)) pictures)).
Proof.
  unfold image_sizes. cbn [iterate rbind].
  induction pictures as [|[[h w] url] pictures IH]; [reflexivity|].
  cbn [map for_each]. cbn [image getitem assoc String.eqb Ascii.eqb Bool.eqb rbind py_add
                           as_number fst snd].
  rewrite IH. reflexivity.
Qed.

Lemma cover_url_of pictures :
  pictures <> [] ->
  exists i height width url,
    cover_url (JArr (map image pictures)) = Returns url /\
    nth_error pictures i = Some (height, width, url) /\
    is_first_max (map (fun p => fst (fst p) + snd (fst p)) pictures) i.
Proof.
  intros Hne. unfold cover_url. rewrite image_sizes_of. cbn [rbind].
  destruct (largest_image_numbers (map (fun p => fst (fst p) + snd (fst p)) pictures))
    as (i & Hi & Hmax).
  { destruct pictures; [congruence | discriminate]. }
  rewrite Hi. cbn [rbind].
  destruct Hmax as (m & Hnth & Hrest).
  destruct (nth_error pictures i) as [[[h w] url]|] eqn:Hpic.
  2: { rewrite nth_error_map, Hpic in Hnth. discriminate. }
  exists i, h, w, url. split; [|split; [exact Hpic | exists m; auto]].
  unfold image_url_at.
  replace (0 <=? Z.of_nat i)%Z with true by (symmetry; apply Z.leb_le; lia).
  assert (Hneg : (Z.of_nat i <? 0)%Z = false) by (apply Z.ltb_ge; lia).
  unfold getindex, index_list. cbv zeta. rewrite !Hneg.
  rewrite Nat2Z.id, nth_error_map, Hpic. reflexivity.
Qed.

Lemma list_ascii_of_string_app a b :
  list_ascii_of_string (a +:+ b) = list_ascii_of_string a ++ list_ascii_of_string b.
Proof.
  induction a as [|c a IH]; [reflexivity|]. rewrite app_cons. cbn. rewrite IH. reflexivity.
Qed.

Lemma is_clean_app a b : is_clean a -> is_clean b -> is_clean (a +:+ b).
Proof.
  intros Ha Hb c. rewrite list_ascii_of_string_app, in_app_iff. intros [H | H]; auto.
Qed.

Lemma is_clean_separator : is_clean ", ".
Proof.
  intros c [<- | [<- | []]]; unfold SANITIZE_CHARS, backslash_char, quote_char; cbn;
    intros H; repeat destruct H as [H | H]; try discriminate H; exact H.
Qed.

Lemma is_clean_concat names :
  Forall is_clean names -> is_clean (String.concat ", " names).
Proof.
  induction names as [|n names IH]; intros Hall.
  - intros c [].
  - inversion Hall as [|? ? Hn Hrest]; subst. cbn [String.concat].
    destruct names as [|n' names']; [exact Hn|].
    apply is_clean_app; [exact Hn|]. apply is_clean_app; [exact is_clean_separator|].
    apply IH. exact Hrest.
Qed.

Lemma sanitize_data_clean value clean :
  sanitize_data value = Returns clean -> is_clean clean.
Proof.
  destruct value; try discriminate. cbn. intros [= <-] c. apply sanitize_string_clean.
Qed.

Lemma sanitized_names_clean artists names :
  sanitized_names artists = Returns names ->
  exists texts, names = map JStr texts /\ Forall is_clean texts.
Proof.
  unfold sanitized_names. destruct (iterate artists) as [items|e]; cbn [rbind]; [|discriminate].
  revert names. induction items as [|x items IH]; intros names H; cbn in H.
  - injection H as <-. exists []. split; [reflexivity | constructor].
  - destruct (getitem x "name") as [name|e]; cbn [rbind] in H; [|discriminate].
    destruct (sanitize_data name) as [clean|e] eqn:Hclean; cbn [rbind] in H; [|discriminate].
    destruct (for_each _ items) as [rest|e]; cbn [rbind] in H; [|discriminate].
    injection H as <-. destruct (IH rest eq_refl) as (texts & -> & Hall).
    exists (clean :: texts). split; [reflexivity|].
    constructor; [apply (sanitize_data_clean _ _ Hclean) | exact Hall].
Qed.

Lemma conv_artist_format_names texts :
  conv_artist_format (JArr (map JStr texts)) = Returns (String.concat ", " texts).
Proof.
  unfold conv_artist_format. cbn [iterate rbind].
  assert (H : for_each (fun a => match a with
                                 | JStr s => Returns [s]
                                 | _ => Raises TypeError
                                 end) (map JStr texts) = Returns texts).
  { induction texts as [|t texts IH]; [reflexivity|].
    cbn [map for_each rbind]. rewrite IH. reflexivity. }
  rewrite H. reflexivity.
Qed.

(** X18.  The [image_url] of a track or an episode is the url of the largest
    image: of the images of the catalog, the first among those of the
    greatest height plus width is chosen, and with no image at all the
    [image_url] is [None]. *)
Theorem image_url_is_the_largest_image :
  cover_url (JArr []) = Returns JNull /\
  (forall pictures,
     pictures <> [] ->
     exists i height width url,
       cover_url (JArr (map image pictures)) = Returns url /\
       nth_error pictures i = Some (height, width, url) /\
       is_first_max (map (fun p => fst (fst p) + snd (fst p)) pictures) i) /\
  (forall track_id info made_,
     track_info track_id info = Returns made_ ->
     exists tracks track album images,
       getitem info "tracks" = Returns tracks /\
       getindex tracks 0 = Returns track /\
       getitem track "album" = Returns album /\
       getitem album "images" = Returns images /\
       getitem made_ "image_url" = cover_url images) /\
  (forall episode_id_str info made_,
     episode_info episode_id_str info = Returns made_ ->
     exists images,
       getitem info "images" = Returns images /\
       getitem made_ "image_url" = cover_url images).
Proof.
  split; [reflexivity|]. split; [exact cover_url_of|]. split.
  - intros track_id info made_ H. unfold track_info in H. open_chain H.
    injection H as <-. eexists _, _, _, _.
    do 4 (split; [first [eassumption | reflexivity]|]).
    unfold cover_url.
    repeat match goal with Hs : _ = Returns _ |- _ => rewrite Hs; cbn [rbind] end.
    reflexivity.
  - intros episode_id_str info made_ H. unfold episode_info in H. open_chain H.
    injection H as <-. eexists. split; [first [eassumption | reflexivity]|].
    unfold cover_url.
    repeat match goal with Hs : _ = Returns _ |- _ => rewrite Hs; cbn [rbind] end.
    reflexivity.
Qed.

(** Two images of the same size and a smaller one: the first is chosen. *)
Example cover_url_runs :
  cover_url (JArr (map image [(64, 64, JStr "small"); (640, 640, JStr "first");
                              (640, 640, JStr "second")]))
  = Returns (JStr "first").
Proof. reflexivity. Qed.

(** X19.  The names the lookups sanitize hold none of the characters
    [sanitize_data] removes: the artist names, joined with [", "], the
    album artist, the album name and the track name of a track record; the
    show name and the episode name of an episode record; the artists of an
    album record; the name of an artist record and of a show record.  A
    track record carries the id that was asked for. *)
Theorem lookup_names_are_clean :
  (forall track_id info made_,
     track_info track_id info = Returns made_ ->
     getitem made_ "id" = Returns (JStr track_id) /\
     exists artist_name album_artist album_name audio_name,
       getitem made_ "artist_name" = Returns (JStr artist_name) /\
       getitem made_ "album_artist" = Returns (JStr album_artist) /\
       getitem made_ "album_name" = Returns (JStr album_name) /\
       getitem made_ "audio_name" = Returns (JStr audio_name) /\
       is_clean artist_name /\ is_clean album_artist /\
       is_clean album_name /\ is_clean audio_name) /\
  (forall episode_id_str info made_,
     episode_info episode_id_str info = Returns made_ ->
     exists show_name audio_name,
       getitem made_ "show_name" = Returns (JStr show_name) /\
       getitem made_ "audio_name" = Returns (JStr audio_name) /\
       is_clean show_name /\ is_clean audio_name) /\
  (forall resp made_,
     album_info resp = Returns made_ ->
     exists artists,
       getitem made_ "artists" = Returns (JStr artists) /\ is_clean artists) /\
  (forall info made_,
     artist_info info = Returns made_ ->
     exists name, getitem made_ "name" = Returns (JStr name) /\ is_clean name) /\
  (forall resp made_,
     show_info resp = Returns made_ ->
     exists name, getitem made_ "name" = Returns (JStr name) /\ is_clean name).
Proof.
  assert (Hjoined : forall names joined,
            sanitized_names names = Returns joined ->
            forall text, conv_artist_format (JArr joined) = Returns text -> is_clean text).
  { intros names joined Hn text Hc.
    destruct (sanitized_names_clean _ _ Hn) as (texts & -> & Hall).
    rewrite conv_artist_format_names in Hc. injection Hc as <-.
    apply is_clean_concat. exact Hall. }
  split; [|split; [|split; [|split]]].
  - intros track_id info made_ H. unfold track_info in H. open_chain H.
    injection H as <-. split; [reflexivity|].
    eexists _, _, _, _. do 4 (split; [reflexivity|]).
    repeat split; eauto using sanitize_data_clean.
  - intros episode_id_str info made_ H. unfold episode_info in H. open_chain H.
    injection H as <-. eexists _, _. do 2 (split; [reflexivity|]).
    split; eauto using sanitize_data_clean.
  - intros resp made_ H. unfold album_info in H. open_chain H.
    injection H as <-. eexists. split; [reflexivity|]. eauto.
  - intros info made_ H. unfold artist_info in H. open_chain H.
    injection H as <-. eexists. split; [reflexivity|]. eauto using sanitize_data_clean.
  - intros resp made_ H. unfold show_info in H. open_chain H.
    injection H as <-. eexists. split; [reflexivity|]. eauto using sanitize_data_clean.
Qed.

Lemma episode_info_fields episode_id_str info made_ :
  episode_info episode_id_str info = Returns made_ ->
  getitem made_ "id" = Returns (JStr episode_id_str) /\
  getitem made_ "scraped_episode_id" = Returns (JArr [JStr "id"]) /\
  getitem made_ "disc_number" = Returns JNull /\
  getitem made_ "audio_number" = Returns JNull.
Proof.
  intros H. unfold episode_info in H. open_chain H. injection H as <-.
  repeat split.
Qed.

(** X20.  [get_episode_info] returns [None], without printing, when the body
    of the response is a JSON value that counts as false, such as an empty
    object.  In every record it returns, [scraped_episode_id] is the list
    that holds the text [id], not the id of the episode, [id] is the id
    that was asked for, and the disc and audio numbers are [None]. *)
Theorem get_episode_info_cases (E : environment) (episode_id_str : string) (s : state) :
  let r := get_episode_info E episode_id_str s in
  (forall resp info,
     answered E (length (http_log s)) resp ->
     status_code resp <> 401 ->
     parsed resp = Some info ->
     json_truthy info = false ->
     r = (Ok None, sent ("https://api.spotify.com/v1/episodes/" +:+ episode_id_str) None [] s)) /\
  (forall made_,
     value r = Ok (Some made_) ->
     getitem made_ "id" = Returns (JStr episode_id_str) /\
     getitem made_ "scraped_episode_id" = Returns (JArr [JStr "id"]) /\
     getitem made_ "disc_number" = Returns JNull /\
     getitem made_ "audio_number" = Returns JNull).
Proof.
  intros r. subst r. split.
  - intros resp info Hans Hst Hbody Hfalse. unfold get_episode_info, bind.
    rewrite (authorized_get_request_answered E _ None [] s resp Hans Hst).
    unfold lift, json_of. rewrite Hbody, Hfalse. reflexivity.
  - intros made_. unfold get_episode_info, bind.
    destruct (authorized_get_request E _ None 0 [] s) as [[resp|e|] s1]; try discriminate.
    unfold lift at 1. destruct (json_of resp) as [info|e]; try discriminate.
    destruct (negb (json_truthy info)); [discriminate|].
    unfold lift. destruct (episode_info episode_id_str info) as [m|e] eqn:Hinfo;
      try discriminate.
    cbn. intros [= <-]. apply (episode_info_fields _ _ _ Hinfo).
Qed.

(** The episode lookup on a well-formed answer. *)
Example episode_lookup_runs :
  value (get_episode_info env_episode "e1" st_stale)
  = Ok (Some (JObj [("id", JStr "e1");
                    ("artist_id", JStr "s1");
                    ("artist_name", JStr "Pub");
                    ("show_name", JStr "Show One");
                    ("audio_name", JStr "Episode 1");
                    ("image_url", JNull);
                    ("release_year", JStr "2021");
                    ("disc_number", JNull);
                    ("audio_number", JNull);
                    ("scraped_episode_id", JArr [JStr "id"]);
                    ("is_playable", JBool true);
                    ("release_date", JStr "2021-03-04")])).
Proof. vm_compute. reflexivity. Qed.

(** ** More on the download loop *)

Lemma read_returns r n data r' :
  read r n = (Returns data, r') ->
  pending r = data ++ pending r' /\
  (0 <= n -> len data <= n) /\
  (existsb read_raises (script r) = false -> existsb read_raises (script r') = false).
Proof.
  unfold read. destruct (script r) as [|[cap|e] sc]; intros H; try discriminate;
    injection H as <- <-; cbn; (split; [symmetry; apply take_drop|]);
    (split; [|auto]); intros Hn; unfold len; rewrite length_take; lia.
Qed.

Lemma read_raises_scripted r n e r' :
  read r n = (Raises e, r') -> existsb read_raises (script r) = true.
Proof.
  unfold read. destruct (script r) as [|[cap|e'] sc]; intros H; try discriminate.
  reflexivity.
Qed.

Lemma last_cons_default {A} (x d : A) l : List.last (x :: l) d = List.last l x.
Proof.
  revert x d. induction l as [|y l IH]; intros x d; [reflexivity|].
  change (List.last (x :: y :: l) d) with (List.last (y :: l) d).
  rewrite !IH. reflexivity.
Qed.

Lemma running_climbs acc reads :
  Forall (fun rd : Z * Z => 0 <= snd rd) reads -> climbs acc (running acc reads).
Proof.
  intros H. revert acc. induction H as [|[n d] reads Hd _ IH]; intros acc; cbn; [exact I|].
  cbn in Hd. split; [lia | apply IH].
Qed.

Lemma running_last acc reads :
  List.last (running acc reads) acc = acc + delivered reads.
Proof.
  revert acc. induction reads as [|[n d] reads IH]; intros acc.
  - cbn. lia.
  - change (running acc ((n, d) :: reads)) with ((acc + d) :: running (acc + d) reads).
    rewrite last_cons_default, IH.
    change (delivered ((n, d) :: reads)) with (d + delivered reads). lia.
Qed.

Lemma last_map_progress track_id total counts d :
  List.last (map (Progress track_id total) counts) (Progress track_id total d)
  = Progress track_id total (List.last counts d).
Proof.
  revert d. induction counts as [|c counts IH]; intros d; [reflexivity|].
  change (map (Progress track_id total) (c :: counts))
    with (Progress track_id total c :: map (Progress track_id total) counts).
  rewrite !last_cons_default. apply IH.
Qed.

Lemma delivered_app l1 l2 : delivered (l1 ++ l2) = delivered l1 + delivered l2.
Proof.
  unfold delivered. induction l1 as [|rd l1 IH]; cbn; [reflexivity|].
  cbn in IH. rewrite IH. lia.
Qed.

Lemma running_app_one acc reads rd :
  running acc (reads ++ [rd]) = running acc reads ++ [acc + delivered reads + snd rd].
Proof.
  revert acc. induction reads as [|[n d] reads IH]; intros acc.
  - destruct rd as [n d]. cbn. f_equal. lia.
  - cbn [app running]. rewrite IH.
    change (delivered ((n, d) :: reads)) with (d + delivered reads).
    cbn [app]. do 3 f_equal. lia.
Qed.

(** What one run of the loop does, whatever the stream: the reads it
    makes, the progress it reports, and what the variables hold when it is
    left. *)
Lemma download_loop_run fuel track_id total :
  forall v s o s',
    download_loop fuel set_progress_bar track_id total v s = (o, s') ->
    loop_bounds total v ->
    exists reads,
      reads_log s' = reads_log s ++ reads /\
      Forall within_chunk reads /\
      match o with
      | Ok v' =>
          observed s'
          = observed s ++ map (Progress track_id total) (running (downloaded v) reads) /\
          downloaded v' = downloaded v + delivered reads /\
          concat (segments v') ++ pending (input_stream v')
          = concat (segments v) ++ pending (input_stream v) /\
          len (concat (segments v')) - downloaded v'
          = len (concat (segments v)) - downloaded v /\
          downloaded v' <= Z.max total CHUNK_SIZE
      | Raise e =>
          existsb read_raises (script (input_stream v)) = true /\
          exists before n,
            reads = before ++ [(n, 0)] /\
            observed s'
            = observed s ++ map (Progress track_id total) (running (downloaded v) before) /\
            progress_bar s'
            = List.last (map (Progress track_id total) (running (downloaded v) before))
                (progress_bar s)
      | OutOfFuel => True
      end.
Proof.
  induction fuel as [|fuel IH]; intros v s o s' Hrun Hb.
  { injection Hrun as <- <-. exists []. rewrite app_nil_r. auto. }
  rewrite download_loop_step in Hrun.
  destruct Hb as (Hmax & Hcap & Hgo).
  destruct (downloaded v <=? total)%Z eqn:Hd.
  2: { injection Hrun as <- <-. exists []. rewrite !app_nil_r.
       change (delivered []) with 0.
       repeat split; auto; lia. }
  apply Z.leb_le in Hd. destruct (Hgo Hd) as (Hpos & Hsum).
  destruct (read (input_stream v) (chunk_size v)) as [[data|e] r'] eqn:Hread.
  2: { injection Hrun as <- <-. exists [(chunk_size v, 0)].
       split; [reflexivity|]. split.
       - constructor; [|constructor]. unfold within_chunk. cbn. lia.
       - split; [exact (read_raises_scripted _ _ _ _ Hread)|].
         exists [], (chunk_size v). cbn. rewrite app_nil_r. auto. }
  destruct (read_returns _ _ _ _ Hread) as (Hsplit & Hlen & Hscript).
  specialize (Hlen Hpos). pose proof (len_nonneg data) as Hlen0.
  cbv zeta in Hrun. cbn [failCount] in Hrun.
  assert (Hone : within_chunk (chunk_size v, len data))
    by (unfold within_chunk; cbn; lia).
  assert (Hcat : forall l : list bytes, concat (l ++ [data]) = concat l ++ data)
    by (intros l; rewrite concat_app; cbn; rewrite app_nil_r; reflexivity).
  destruct (RETRY_DOWNLOAD <? _)%Z.
  - injection Hrun as <- <-. exists [(chunk_size v, len data)].
    cbn [reads_log observed download_frame downloaded segments input_stream].
    split; [reflexivity|]. split; [constructor; [exact Hone | constructor]|].
    split; [reflexivity|].
    split; [change (delivered [(chunk_size v, len data)]) with (len data + 0); lia|].
    split; [rewrite Hcat, Hsplit, app_assoc; reflexivity|].
    split; [rewrite Hcat; unfold len; rewrite length_app; lia | lia].
  - apply IH in Hrun.
    2: { unfold loop_bounds. cbn [downloaded chunk_size].
         destruct (total - (downloaded v + len data) <? chunk_size v)%Z eqn:Hlt;
           [apply Z.ltb_lt in Hlt | apply Z.ltb_ge in Hlt];
           (split; [lia|]); (split; [lia|]); intros Hnext; lia. }
    destruct Hrun as (reads & Hreads & Hall & Hout).
    exists ((chunk_size v, len data) :: reads).
    cbn [reads_log observed download_frame] in Hreads, Hout.
    split; [rewrite Hreads, <- app_assoc; reflexivity|].
    split; [constructor; assumption|].
    destruct o as [v'|e|]; [| |exact I].
    + cbn [downloaded segments input_stream] in Hout.
      destruct Hout as (Hobs & Hdl & Hbytes & Hsize & Hle).
      split; [rewrite Hobs, <- app_assoc; reflexivity|].
      split; [rewrite Hdl;
              change (delivered ((chunk_size v, len data) :: reads))
                with (len data + delivered reads); lia|].
      split; [rewrite Hbytes, Hcat, Hsplit, app_assoc; reflexivity|].
      split; [rewrite Hsize, Hcat; unfold len; rewrite length_app; lia | exact Hle].
    + cbn [downloaded input_stream progress_bar] in Hout.
      destruct Hout as (Hscr & before & n & -> & Hobs & Hbar).
      split.
      { destruct (existsb read_raises (script (input_stream v))) eqn:Hno; [reflexivity|].
        rewrite (Hscript eq_refl) in Hscr. discriminate. }
      exists ((chunk_size v, len data) :: before), n.
      split; [reflexivity|].
      split; [rewrite Hobs, <- app_assoc; reflexivity|].
      rewrite Hbar.
      change (running (downloaded v) ((chunk_size v, len data) :: before))
        with ((downloaded v + len data) :: running (downloaded v + len data) before).
      change (map (Progress track_id total) ((downloaded v + len data) :: ?l))
        with (Progress track_id total (downloaded v + len data)
                :: map (Progress track_id total) l).
      rewrite last_cons_default. reflexivity.
Qed.

Lemma loop_start_bounds stream : loop_bounds (size stream) (loop_start stream).
Proof. unfold loop_bounds, loop_start, CHUNK_SIZE. cbn. lia. Qed.

(** A download whose stream was loaded, by the outcome of its loop. *)
Lemma download_audio_loaded E h track_id output_path make_dirs s stream :
  value (load_stream E h track_id s) = Ok stream ->
  download_audio E h set_progress_bar track_id output_path make_dirs s =
  match download_loop (loop_fuel (size stream) (loop_start stream)) set_progress_bar
          track_id (size stream) (loop_start stream)
          (shown (Progress track_id (size stream) 0) s) with
  | (Ok v, s2) => finish E h track_id output_path make_dirs v s2
  | (Raise e, s2) => failed E track_id output_path e s2
  | (OutOfFuel, s2) => (OutOfFuel, s2)
  end.
Proof.
  intros Hload. rewrite download_audio_stages.
  pose proof (load_stream_state E h track_id s) as Hst.
  destruct (load_stream E h track_id s) as [[st|e|] s1]; cbn in Hst, Hload;
    try discriminate.
  injection Hload as ->. subst s1. reflexivity.
Qed.

(** The [except] clause leaves everything but the console as it was. *)
Lemma failed_keeps E track_id output_path e s :
  reads_log (final (failed E track_id output_path e s)) = reads_log s /\
  exports_log (final (failed E track_id output_path e s)) = exports_log s /\
  sleeps_log (final (failed E track_id output_path e s)) = sleeps_log s /\
  observed (final (failed E track_id output_path e s)) = observed s /\
  progress_bar (final (failed E track_id output_path e s)) = progress_bar s /\
  fs (final (failed E track_id output_path e s)) = fs s.
Proof. rewrite failed_run. destruct (is_Exception e); cbn; auto 10. Qed.

Lemma within_chunk_delivers reads :
  Forall within_chunk reads -> Forall (fun rd : Z * Z => 0 <= snd rd) reads.
Proof.
  intros H. eapply Forall_impl; [exact H|]. intros rd (_ & Hd & _). exact Hd.
Qed.

Lemma app_one_more {A} (l : list A) x : l <> l ++ [x].
Proof.
  intros H. apply (f_equal (@length A)) in H. rewrite length_app in H. cbn in H. lia.
Qed.

(** X21.  Every read of a download asks for at least 0 and at most
    [CHUNK_SIZE] bytes, whatever the size the stream announces and
    whatever it delivers: the chunk size never becomes negative while the
    loop goes on, so the stream is never asked for all it has left. *)
Theorem download_reads_stay_in_the_chunk (E : environment) (h : RespotTrackHandler)
    (track_id : string) (output_path : path) (make_dirs : bool) (s : state) :
  exists reads,
    reads_log (final (download_audio E h set_progress_bar track_id output_path make_dirs s))
    = reads_log s ++ reads /\
    Forall within_chunk reads.
Proof.
  rewrite download_audio_stages.
  pose proof (load_stream_state E h track_id s) as Hst.
  destruct (load_stream E h track_id s) as [[stream|e|] s1]; cbn in Hst; subst s1.
  - destruct (download_loop _ _ _ _ _ _) as [o s2] eqn:Hloop.
    destruct (download_loop_run _ _ _ _ _ _ _ Hloop (loop_start_bounds stream))
      as (reads & Hreads & Hall & _).
    exists reads. split; [|exact Hall].
    destruct o as [v|e|].
    + destruct (finish_returns E h track_id output_path make_dirs v s2) as (_ & -> & _).
      exact Hreads.
    + destruct (failed_keeps E track_id output_path e s2) as (-> & _). exact Hreads.
    + exact Hreads.
  - destruct (failed_keeps E track_id output_path e s) as (-> & _).
    exists []. rewrite app_nil_r. auto.
  - exists []. rewrite app_nil_r. auto.
Qed.

(** X22.  What reaches the encoder is what was read: the audio of the one
    encoder call of a download is a prefix of the bytes the stream held, as
    long as the reads delivered in all, and never longer than the announced
    size of the stream or one chunk, whichever is larger. *)
Theorem encoder_gets_the_bytes_read (E : environment) (h : RespotTrackHandler)
    (track_id : string) (output_path : path) (make_dirs : bool) (s : state)
    (stream : LoadedStream) (call : export_call) :
  value (load_stream E h track_id s) = Ok stream ->
  exports_log (final (download_audio E h set_progress_bar track_id output_path make_dirs s))
  = exports_log s ++ [call] ->
  exists reads rest,
    reads_log (final (download_audio E h set_progress_bar track_id output_path make_dirs s))
    = reads_log s ++ reads /\
    pending (source stream) = exp_audio call ++ rest /\
    len (exp_audio call) = delivered reads /\
    len (exp_audio call) <= Z.max (size stream) CHUNK_SIZE.
Proof.
  intros Hload. rewrite (download_audio_loaded _ _ _ _ _ _ _ Hload).
  destruct (download_loop _ _ _ _ _ _) as [o s2] eqn:Hloop.
  destruct (download_loop_run _ _ _ _ _ _ _ Hloop (loop_start_bounds stream))
    as (reads & Hreads & Hall & Hout).
  pose proof (download_loop_framed (loop_fuel (size stream) (loop_start stream))
                track_id (size stream) (loop_start stream)
                (shown (Progress track_id (size stream) 0) s)) as Hfr.
  rewrite Hloop in Hfr. destruct Hfr as (rd & sh & bar & Hs2). cbn [final snd] in Hs2.
  assert (Hexp : exports_log s2 = exports_log s) by (subst s2; reflexivity).
  assert (Hfs : reads_log s = reads_log (shown (Progress track_id (size stream) 0) s))
    by reflexivity.
  destruct o as [v|e|].
  - destruct Hout as (_ & Hdl & Hbytes & Hsize & Hle).
    cbn in Hdl, Hbytes, Hsize.
    destruct (finish_returns E h track_id output_path make_dirs v s2) as (_ & Hrl & _).
    rewrite finish_run in *. cbv zeta in *.
    destruct (directory_step (fs s2) output_path make_dirs) as [f|e].
    2: { destruct (failed_keeps E track_id output_path e (shown NoTransfer s2))
           as (_ & -> & _).
         cbn. rewrite Hexp. intros Hx. destruct (app_one_more _ _ Hx). }
    assert (Hcall : forall st : state,
              exports_log st
              = exports_log s2
                ++ [mkExport (concat (segments v)) output_path (format h) (bitrate_of h)] ->
              exports_log st = exports_log s ++ [call] ->
              exp_audio call = concat (segments v)).
    { intros st -> Hx. rewrite Hexp in Hx. apply app_inv_head in Hx.
      injection Hx as <-. reflexivity. }
    intros Hx.
    assert (Haudio : exp_audio call = concat (segments v)).
    { revert Hx.
      destruct (export_audio E _ _ _ _) as [[]|e];
        [destruct (anti_ban_wait_time h <? 0)%Z|]; apply Hcall;
        try (match goal with
             | |- context [failed E ?t ?p ?x ?st] =>
                 destruct (failed_keeps E t p x st) as (_ & -> & _)
             end);
        reflexivity. }
    exists reads, (pending (input_stream v)).
    split; [rewrite Hrl, Hreads; reflexivity|].
    rewrite Haudio. split; [symmetry; exact Hbytes|].
    change (len (@nil Byte.byte)) with 0 in Hsize. split; lia.
  - destruct (failed_keeps E track_id output_path e s2) as (_ & -> & _).
    rewrite Hexp. intros Hx. destruct (app_one_more _ _ Hx).
  - cbn. rewrite Hexp. intros Hx. destruct (app_one_more _ _ Hx).
Qed.

Lemma encoder_gets_the_bytes_read_witness :
  exists reads rest,
    reads_log (final (download_audio env_plain handler_free set_progress_bar "X" song_path
                        true (st_feeding (short_stream 100 40))))
    = [] ++ reads /\
    audio 40 = audio 40 ++ rest /\
    len (audio 40) = delivered reads /\
    len (audio 40) <= Z.max 100 CHUNK_SIZE.
Proof.
  exact (encoder_gets_the_bytes_read env_plain handler_free "X" song_path true
           (st_feeding (short_stream 100 40)) (short_stream 100 40)
           (mkExport (audio 40) song_path "mp3" "160k") eq_refl eq_refl).
Defined.

(** X23.  The outcomes of [download_audio].  [True] means the whole normal
    path was taken: the wait time is not negative, the encoder was called
    once and the output file exists, the wait was made once, nothing was
    printed and the progress attribute is back to [False].  [False] means
    an exception that is an [Exception] was caught: its three lines were
    printed and no wait was made.  An exception that is no [Exception]
    (a [KeyboardInterrupt], say) is not caught: it leaves the call, nothing
    is printed and no wait is made.  There is no fourth outcome, and with
    a negative wait time [True] is not among them.  [Respot.download]
    returns nothing, and raises only what [download_audio] raises. *)
Theorem download_audio_outcomes (E : environment) (h : RespotTrackHandler)
    (track_id : string) (output_path : path) (make_dirs : bool) (s : state) :
  let r := download_audio E h set_progress_bar track_id output_path make_dirs s in
  (value r = Ok true ->
     0 <= anti_ban_wait_time h /\
     is_file (fs (final r)) output_path = true /\
     sleeps_log (final r) = sleeps_log s ++ [anti_ban_wait_time h] /\
     console (final r) = console s /\
     progress_bar (final r) = NoTransfer /\
     exists audio_bytes,
       exports_log (final r)
       = exports_log s ++ [mkExport audio_bytes output_path (format h) (bitrate_of h)]) /\
  (value r = Ok false ->
     sleeps_log (final r) = sleeps_log s /\
     exists e, is_Exception e = true /\
               console (final r) = console s ++ failure_lines E track_id output_path e) /\
  (forall e, value r = Raise e ->
     is_Exception e = false /\
     sleeps_log (final r) = sleeps_log s /\
     console (final r) = console s) /\
  (value r = Ok true \/ value r = Ok false \/ exists e, value r = Raise e) /\
  (anti_ban_wait_time h < 0 -> value r <> Ok true) /\
  (forall respot : Respot,
     let h' := mkHandler (output_format respot) (antiban_wait_time respot)
                 (quality (auth s)) in
     let r' := download_audio E h' set_progress_bar track_id output_path make_dirs s in
     let d := download E respot track_id output_path make_dirs s in
     final d = final r' /\
     ((exists b, value r' = Ok b) -> value d = Ok tt) /\
     (forall e, value r' = Raise e -> value d = Raise e) /\
     (value d = Ok tt \/ exists e, value d = Raise e /\ is_Exception e = false)).
Proof.
  intros r.
  assert (Hfailed : forall e s',
            sleeps_log s' = sleeps_log s -> console s' = console s ->
            let r := failed E track_id output_path e s' in
            (value r = Ok true ->
             0 <= anti_ban_wait_time h /\
             is_file (fs (final r)) output_path = true /\
             sleeps_log (final r) = sleeps_log s ++ [anti_ban_wait_time h] /\
             console (final r) = console s /\
             progress_bar (final r) = NoTransfer /\
             exists audio_bytes,
               exports_log (final r)
               = exports_log s
                 ++ [mkExport audio_bytes output_path (format h) (bitrate_of h)]) /\
            (value r = Ok false ->
             sleeps_log (final r) = sleeps_log s /\
             exists e, is_Exception e = true /\
                       console (final r)
                       = console s ++ failure_lines E track_id output_path e) /\
            (forall e, value r = Raise e ->
             is_Exception e = false /\
             sleeps_log (final r) = sleeps_log s /\
             console (final r) = console s) /\
            (value r = Ok true \/ value r = Ok false \/ exists e, value r = Raise e) /\
            (anti_ban_wait_time h < 0 -> value r <> Ok true)).
  { intros e s' Hsl Hco r0. subst r0. rewrite failed_run.
    destruct (is_Exception e) eqn:He; cbn.
    - split; [discriminate|]. split; [intros _; split; [exact Hsl|]; exists e;
                                       rewrite Hco; auto|].
      split; [discriminate|]. split; [auto|]. intros _; discriminate.
    - split; [discriminate|]. split; [discriminate|].
      split; [intros e0 [= <-]; auto|]. split; [eauto|]. intros _; discriminate. }
  assert (Hr : (value r = Ok true ->
                0 <= anti_ban_wait_time h /\
                is_file (fs (final r)) output_path = true /\
                sleeps_log (final r) = sleeps_log s ++ [anti_ban_wait_time h] /\
                console (final r) = console s /\
                progress_bar (final r) = NoTransfer /\
                exists audio_bytes,
                  exports_log (final r)
                  = exports_log s
                    ++ [mkExport audio_bytes output_path (format h) (bitrate_of h)]) /\
               (value r = Ok false ->
                sleeps_log (final r) = sleeps_log s /\
                exists e, is_Exception e = true /\
                          console (final r)
                          = console s ++ failure_lines E track_id output_path e) /\
               (forall e, value r = Raise e ->
                is_Exception e = false /\
                sleeps_log (final r) = sleeps_log s /\
                console (final r) = console s) /\
               (value r = Ok true \/ value r = Ok false \/ exists e, value r = Raise e) /\
               (anti_ban_wait_time h < 0 -> value r <> Ok true)).
  { subst r. rewrite download_audio_stages.
    pose proof (load_stream_state E h track_id s) as Hst.
    pose proof (load_stream_terminates E h track_id s) as Hlt.
    destruct (load_stream E h track_id s) as [[stream|e|] s1]; cbn in Hst, Hlt; subst s1.
    3: congruence.
    2: { apply Hfailed; reflexivity. }
    pose proof (download_loop_framed (loop_fuel (size stream) (loop_start stream))
                  track_id (size stream) (loop_start stream)
                  (shown (Progress track_id (size stream) 0) s)) as Hfr.
    pose proof (loop_fuel_enough stream track_id
                  (shown (Progress track_id (size stream) 0) s)) as Hfuel.
    destruct (download_loop _ _ _ _ _ _) as [[v|e|] s2];
      destruct Hfr as (rd & sh & bar & Hs2); cbn in Hs2, Hfuel; subst s2.
    3: congruence.
    2: { apply Hfailed; reflexivity. }
    rewrite finish_run. cbv zeta.
    cbn [fs download_frame shown with_progress_bar with_observed].
    destruct (directory_step _ _ _) as [f|e].
    2: { apply Hfailed; reflexivity. }
    destruct (export_audio E _ _ _ _) as [[]|e].
    2: { apply Hfailed; reflexivity. }
    destruct (anti_ban_wait_time h <? 0)%Z eqn:Hneg.
    - apply Hfailed; reflexivity.
    - apply Z.ltb_ge in Hneg. cbn.
      split.
      { intros _. split; [exact Hneg|].
        split; [unfold is_file; cbn; apply bool_decide_eq_true; set_solver|].
        eauto 10. }
      split; [discriminate|]. split; [discriminate|]. split; [auto | lia]. }
  destruct Hr as (Htrue & Hfalse & Hraise & Hall & Hneg).
  split; [exact Htrue|]. split; [exact Hfalse|]. split; [exact Hraise|].
  split; [exact Hall|]. split; [exact Hneg|].
  intros respot h' r' d. subst d r'. unfold download, bind, gets. fold h'.
  pose proof (download_audio_returns E h' track_id output_path make_dirs s) as Hv.
  destruct (download_audio E h' set_progress_bar track_id output_path make_dirs s)
    as [o s'].
  cbn in Hv. destruct o as [b|e|]; cbn.
  - split; [reflexivity|]. split; [reflexivity|]. split; [discriminate | auto].
  - split; [reflexivity|]. split; [intros (b & Hb); discriminate|].
    split; [intros e0 [= <-]; reflexivity|].
    right. exists e. split; [reflexivity|].
    destruct Hv as [Hv | [Hv | (e0 & [= <-] & He0)]]; [discriminate..|exact He0].
  - destruct Hv as [Hv | [Hv | (e0 & Hv & _)]]; discriminate.
Qed.

(** A download that waits a negative time writes the file and reports
    failure. *)
Example negative_wait_fails :
  let r := download_audio env_plain (mkHandler "mp3" (-1) (Some HIGH)) set_progress_bar "X"
             song_path true (st_feeding (whole_stream 10)) in
  value r = Ok false /\ is_file (fs (final r)) song_path = true.
Proof. vm_compute. auto. Qed.

(** X24.  Without a session, that is before a login has succeeded, a
    download makes no read, no progress call, no directory and no encoder
    call.  When the id decodes, the [AttributeError] of the missing session
    is caught: the download returns [False] and prints the three lines of
    the failure, the second being the text of that exception.  When the
    decoding of the id raises, that exception takes its place; if it is no
    [Exception] it leaves the call and nothing is printed. *)
Theorem download_needs_a_session (E : environment) (h : RespotTrackHandler)
    (track_id : string) (output_path : path) (make_dirs : bool) (s : state) :
  session (auth s) = None ->
  let e := without_session E track_id in
  download_audio E h set_progress_bar track_id output_path make_dirs s
  = (if is_Exception e
     then (Ok false, with_console (console s ++ failure_lines E track_id output_path e) s)
     else (Raise e, s)) /\
  ((exists hex, from_base62 E track_id = Returns hex) ->
   download_audio E h set_progress_bar track_id output_path make_dirs s
   = (Ok false,
      with_console (console s ++ [ "###   download_track - FAILED TO DOWNLOAD   ###";
                                   exception_str E AttributeError;
                                   track_id +:+ " " +:+ path_str output_path ]) s)).
Proof.
  intros Hnone e.
  assert (Hload : load_stream E h track_id s = (Raise e, s)).
  { subst e. unfold without_session, load_stream, try_except, content_feeder_load_for,
      bind, lift, gets, raise.
    rewrite Hnone. cbn.
    destruct (from_base62 E track_id) as [hex|e]; cbn; [reflexivity|].
    destruct (is_Exception e); [|reflexivity].
    destruct (is_StatusCodeException e); reflexivity. }
  assert (Hrun : download_audio E h set_progress_bar track_id output_path make_dirs s
                 = (if is_Exception e
                    then (Ok false,
                          with_console
                            (console s ++ failure_lines E track_id output_path e) s)
                    else (Raise e, s))).
  { rewrite download_audio_stages, Hload. apply failed_run. }
  split; [exact Hrun|].
  intros (hex & Hhex). rewrite Hrun. subst e. unfold without_session.
  rewrite Hhex. reflexivity.
Qed.

Lemma download_needs_a_session_witness :
  download_audio env_plain handler_free set_progress_bar "X" song_path true st_first_run
  = (Ok false,
     with_console (console st_first_run
                   ++ failure_lines env_plain "X" song_path AttributeError) st_first_run).
Proof.
  exact (proj1 (download_needs_a_session env_plain handler_free "X" song_path true
                  st_first_run eq_refl)).
Defined.

(** X25.  The progress a download reports once its stream is loaded: 0
    first, then after every read that returns the number of bytes delivered
    so far, which never goes down, always with the id and the announced
    size.  When no read raises the last report is [False] and the progress
    attribute ends as [False].  When a read raises, that last report is not
    made and the progress attribute keeps the count of the last read that
    returned; the download then returns [False], or lets the exception
    through if it is no [Exception]. *)
Theorem progress_follows_the_reads (E : environment) (h : RespotTrackHandler)
    (track_id : string) (output_path : path) (make_dirs : bool) (s : state)
    (stream : LoadedStream) :
  value (load_stream E h track_id s) = Ok stream ->
  exists reads,
    reads_log (final (download_audio E h set_progress_bar track_id output_path make_dirs s))
    = reads_log s ++ reads /\
    climbs 0 (running 0 reads) /\
    (existsb read_raises (script (source stream)) = false ->
     progress_bar (final (download_audio E h set_progress_bar track_id output_path
                            make_dirs s)) = NoTransfer) /\
    ((observed (final (download_audio E h set_progress_bar track_id output_path
                         make_dirs s))
      = observed s ++ map (Progress track_id (size stream)) (0 :: running 0 reads)
          ++ [NoTransfer] /\
      progress_bar (final (download_audio E h set_progress_bar track_id output_path
                             make_dirs s)) = NoTransfer)
     \/
     (existsb read_raises (script (source stream)) = true /\
      exists e before n,
        value (download_audio E h set_progress_bar track_id output_path make_dirs s)
        = (if is_Exception e then Ok false else Raise e) /\
        reads = before ++ [(n, 0)] /\
        observed (final (download_audio E h set_progress_bar track_id output_path
                           make_dirs s))
        = observed s ++ map (Progress track_id (size stream)) (0 :: running 0 before) /\
        progress_bar (final (download_audio E h set_progress_bar track_id output_path
                               make_dirs s))
        = Progress track_id (size stream) (delivered before))).
Proof.
  intros Hload. rewrite (download_audio_loaded _ _ _ _ _ _ _ Hload).
  pose proof (loop_fuel_enough stream track_id
                (shown (Progress track_id (size stream) 0) s)) as Hfuel.
  destruct (download_loop _ _ _ _ _ _) as [o s2] eqn:Hloop.
  destruct (download_loop_run _ _ _ _ _ _ _ Hloop (loop_start_bounds stream))
    as (reads & Hreads & Hall & Hout).
  exists reads. cbn [reads_log shown with_progress_bar with_observed] in Hreads.
  destruct o as [v|e|]; [| |cbn in Hfuel; congruence].
  - destruct Hout as (Hobs & _).
    destruct (finish_returns E h track_id output_path make_dirs v s2)
      as (_ & -> & Hfin & Hbar).
    split; [exact Hreads|].
    split; [apply running_climbs, within_chunk_delivers, Hall|].
    split; [intros _; exact Hbar|].
    left. split; [|exact Hbar].
    rewrite Hfin, Hobs. cbn [observed shown with_progress_bar with_observed loop_start
                              downloaded map app].
    rewrite <- !app_assoc. reflexivity.
  - destruct Hout as (Hscr & before & n & -> & Hobs & Hbar).
    destruct (failed_keeps E track_id output_path e s2)
      as (-> & _ & _ & -> & -> & _).
    split; [exact Hreads|].
    split; [apply running_climbs, within_chunk_delivers, Hall|].
    split; [intros Hno; cbn in Hscr; rewrite Hno in Hscr; discriminate|].
    right. split; [exact Hscr|]. exists e, before, n.
    split; [rewrite failed_run; destruct (is_Exception e); reflexivity|].
    split; [reflexivity|].
    split.
    + rewrite Hobs. cbn [observed shown with_progress_bar with_observed loop_start
                          downloaded map app].
      rewrite <- !app_assoc. reflexivity.
    + rewrite Hbar. cbn [progress_bar shown with_progress_bar loop_start downloaded].
      rewrite last_map_progress, running_last. f_equal.
Qed.

Lemma progress_follows_the_reads_witness :
  exists reads,
    reads_log (final (download_audio env_plain handler_free set_progress_bar "X" song_path
                        true (st_feeding stalling_stream)))
    = [] ++ reads /\
    climbs 0 (running 0 reads).
Proof.
  destruct (progress_follows_the_reads env_plain handler_free "X" song_path true
              (st_feeding stalling_stream) stalling_stream eq_refl)
    as (reads & Hreads & Hclimbs & _).
  exists reads. split; [exact Hreads | exact Hclimbs].
Defined.
